(** * promptman-test: Value Matcher, Mock Resolver, Assertion Engine and
      Conversation Executor

    A shallow embedding of [src/assertions.ts], [src/mocks.ts] and
    [src/executor.ts].  JavaScript values are an inductive type, exceptions
    are an error monad, the executor threads its mutable locals through an
    explicit state, and the parts of the ECMAScript runtime the code calls
    into (number comparison, number/string conversion, [RegExp], [JSON]) are
    an interface: every theorem holds for any runtime that implements it.
    A string is its sequence of code units, one character each. *)

From Stdlib Require Import String Ascii List Bool Arith ZArith Lia.
From stdpp Require Import base option list strings gmap.

Set Default Proof Using "Type".

(** ** Numbers

    The code compares and adds IEEE doubles.  [num_lt] is the abstract
    operation IsLessThan of ECMAScript: [None] is its [undefined] answer,
    given exactly when an operand is NaN. *)

Class Num := {
  number : Type;
  num_NaN : number;
  num_of_nat : nat -> number;
  num_isNaN : number -> bool;
  num_equal : number -> number -> bool;
  num_lt : number -> number -> option bool;
  num_add : number -> number -> number;
  num_lt_undefined : forall a b,
    num_lt a b = None <-> num_isNaN a = true \/ num_isNaN b = true;
}.

Section Operators.
Context {N : Num}.

(** [a < b], [a > b], [a <= b], [a >= b] as the language defines them
    from IsLessThan. *)
Definition num_ltb (a b : number) : bool :=
  match num_lt a b with Some true => true | _ => false end.
Definition num_gtb (a b : number) : bool :=
  match num_lt b a with Some true => true | _ => false end.
Definition num_leb (a b : number) : bool :=
  match num_lt b a with Some false => true | _ => false end.
Definition num_geb (a b : number) : bool :=
  match num_lt a b with Some false => true | _ => false end.
End Operators.

(** ** Values *)

#[warnings="-register-all"]
Inductive value {N : Num} : Type :=
| VUndefined
| VNull
| VBool (b : bool)
| VNum (n : number)
| VStr (s : string)
| VArr (items : list value)
| VObj (members : list (string * value)).

(** ** Exceptions *)

Inductive error : Type :=
| SyntaxError (message : string)
| TypeError (message : string)
| Error (message : string).

Definition error_message (e : error) : string :=
  match e with SyntaxError m | TypeError m | Error m => m end.

Inductive result (A : Type) : Type :=
| Ok (a : A)
| Throw (e : error).
Arguments Ok {A} a.
Arguments Throw {A} e.

Definition bind {A B} (r : result A) (k : A -> result B) : result B :=
  match r with
  | Ok a => k a
  | Throw e => Throw e
  end.

Declare Scope result_scope.
Delimit Scope result_scope with result.
Notation "'let*' x ':=' c 'in' k" := (bind c (fun x => k))
  (at level 10, x name, c at level 100, k at level 200) : result_scope.
Local Open Scope result_scope.

Definition throws {A} (r : result A) : Prop := exists e, r = Throw e.
Definition returns {A} (r : result A) : Prop := exists a, r = Ok a.

(** ** The runtime interface *)

Class Runtime {N : Num} := {
  (** Number::toString *)
  Number_toString : number -> string;
  (** StringToNumber *)
  StringToNumber : string -> number;
  (** [new RegExp(pattern)]: a SyntaxError, or a matcher whose [test]
      (no flags, hence no state) is a function of the subject. *)
  RegExp_new : string -> result (string -> bool);
  (** [JSON.parse] *)
  JSON_parse : string -> result value;
  (** [JSON.stringify]; [None] is its [undefined] answer. *)
  JSON_stringify : value -> option string;
  (** message of the TypeError raised by reading member [k] of [null] or
      [undefined] *)
  TypeError_read : value -> string -> string;
}.

(** ** Language primitives on values *)

Definition dquote : string := String (ascii_of_nat 34) EmptyString.

Section Primitives.
Context {N : Num} {R : Runtime}.

(** [haystack.includes(needle)] *)
Fixpoint prefix (p s : string) : bool :=
  match p, s with
  | EmptyString, _ => true
  | String a p', String b s' => if Ascii.eqb a b then prefix p' s' else false
  | String _ _, EmptyString => false
  end.

Fixpoint includes (haystack needle : string) : bool :=
  prefix needle haystack ||
  match haystack with
  | EmptyString => false
  | String _ rest => includes rest needle
  end.

Fixpoint join (sep : string) (l : list string) : string :=
  match l with
  | [] => ""
  | [x] => x
  | x :: rest => x +:+ sep +:+ join sep rest
  end.

(** [String(v)] and template-literal interpolation, on plain data: an
    object is taken to have no member of its own named [toString] (on one
    that has, the conversion raises a TypeError). *)
Fixpoint ToString (v : value) : string :=
  match v with
  | VUndefined => "undefined"
  | VNull => "null"
  | VBool true => "true"
  | VBool false => "false"
  | VNum n => Number_toString n
  | VStr s => s
  | VArr items =>
      join "," (map (fun e => match e with
                              | VUndefined | VNull => ""
                              | _ => ToString e
                              end) items)
  | VObj _ => "[object Object]"
  end.

(** [Number(v)] *)
Definition ToNumber (v : value) : number :=
  match v with
  | VUndefined => num_NaN
  | VNull => num_of_nat 0
  | VBool true => num_of_nat 1
  | VBool false => num_of_nat 0
  | VNum n => n
  | VStr s => StringToNumber s
  | VArr _ | VObj _ => StringToNumber (ToString v)
  end.

(** [a ?? b] *)
Definition nullish (a b : value) : value :=
  match a with
  | VUndefined | VNull => b
  | _ => a
  end.

(** [actual === expected] for a boolean [expected] *)
Definition strict_eq_bool (actual : value) (expected : bool) : bool :=
  match actual with
  | VBool b => Bool.eqb b expected
  | _ => false
  end.

Fixpoint lookup_member (k : string) (members : list (string * value))
  : option value :=
  match members with
  | [] => None
  | (k', v) :: rest => if String.eqb k k' then Some v else lookup_member k rest
  end.

(** [k in o] for the keys the code asks about: none of them is inherited,
    an index or [length], so only an object can have them. *)
Definition has_key (k : string) (o : value) : bool :=
  match o with
  | VObj members =>
      match lookup_member k members with Some _ => true | None => false end
  | _ => false
  end.

(** A canonical array index: a decimal numeral without a leading zero. *)
Fixpoint read_index (acc : nat) (s : string) : option nat :=
  match s with
  | EmptyString => Some acc
  | String c rest =>
      let n := nat_of_ascii c in
      if (48 <=? n) && (n <=? 57) then read_index (10 * acc + (n - 48)) rest
      else None
  end.

Definition array_index (k : string) : option nat :=
  match k with
  | EmptyString => None
  | String c rest =>
      if Ascii.eqb c "0" && negb (String.eqb rest "") then None
      else read_index 0 k
  end.

(** [o[k]] on a value that is not [null] or [undefined]: the own members
    of an object, the elements and the length of an array or a string.
    Members inherited from a prototype are outside the model; none of the
    keys the code itself names is one. *)
Definition member (o : value) (k : string) : value :=
  match o with
  | VObj members => default VUndefined (lookup_member k members)
  | VArr items =>
      if String.eqb k "length" then VNum (num_of_nat (length items))
      else match array_index k with
           | Some i => default VUndefined (items !! i)
           | None => VUndefined
           end
  | VStr s =>
      if String.eqb k "length" then VNum (num_of_nat (String.length s))
      else match array_index k with
           | Some i =>
               match String.get i s with
               | Some c => VStr (String c EmptyString)
               | None => VUndefined
               end
           | None => VUndefined
           end
  | _ => VUndefined
  end.

(** [args[key]] on whatever [JSON.parse] returned: a TypeError on
    [null]. *)
Definition get (o : value) (k : string) : result value :=
  match o with
  | VUndefined | VNull => Throw (TypeError (TypeError_read o k))
  | _ => Ok (member o k)
  end.
End Primitives.

(** ** Plain objects as the code builds and enumerates them *)

Section Objects.
Context {N : Num} {R : Runtime}.

(** [o[k] = v] on a plain object: a key that is present keeps its place
    and takes the new value, a new key comes last.  (The key [__proto__],
    which names the prototype and not a member, is outside the model.) *)
Fixpoint assign (k : string) (v : value) (members : list (string * value))
  : list (string * value) :=
  match members with
  | [] => [(k, v)]
  | (k', v') :: rest =>
      if String.eqb k k' then (k, v) :: rest else (k', v') :: assign k v rest
  end.

(** [Object.entries(v)] for a [v] that is not [null] or [undefined]: the
    members of an object, the elements of an array and the characters of a
    string under their indices, nothing for a number or a boolean. *)
Definition entries (v : value) : list (string * value) :=
  match v with
  | VObj members => members
  | VArr items => imap (fun i x => (Number_toString (num_of_nat i), x)) items
  | VStr s =>
      imap (fun i c => (Number_toString (num_of_nat i),
                        VStr (String c EmptyString)))
           (list_ascii_of_string s)
  | _ => []
  end.

(** [Object.entries(o)] as the code calls it, on a value that may be
    [null] or [undefined]: on these it raises a TypeError (the message is
    the one of V8).  The members of an object are held in the order the
    object enumerates them. *)
Definition Object_entries (o : value) : result (list (string * value)) :=
  match o with
  | VUndefined | VNull =>
      Throw (TypeError "Cannot convert undefined or null to object")
  | _ => Ok (entries o)
  end.

(** The members of [{ ...v }]: spreading [null] or [undefined] gives the
    empty object. *)
Definition spread (v : value) : list (string * value) :=
  match v with
  | VUndefined | VNull => []
  | _ => entries v
  end.

(** [!v] *)
Definition falsy (v : value) : bool :=
  match v with
  | VUndefined | VNull => true
  | VBool b => negb b
  | VNum n => num_isNaN n || num_equal n (num_of_nat 0)
  | VStr s => String.eqb s ""
  | VArr _ | VObj _ => false
  end.

(** The values that [String(v)], [Number(v)] and template interpolation
    convert to a primitive.  Data read from JSON or YAML holds no function:
    an object with a member of its own named [toString] has no conversion
    method left ([valueOf], inherited or its own, gives no primitive), and
    converting it raises a TypeError.  An array is converted through its
    elements.  On the values that convert, [ToString] and [ToNumber] are
    what the conversions return. *)
Fixpoint convertible (v : value) : bool :=
  match v with
  | VObj _ => negb (has_key "toString" v)
  | VArr items => forallb convertible items
  | _ => true
  end.

(** Every member of [o] converts to a primitive. *)
Definition members_convert (o : value) : bool :=
  match o with
  | VObj members => forallb (fun kv => convertible (snd kv)) members
  | VArr items => forallb convertible items
  | _ => true
  end.

(** The names a plain object inherits from [Object.prototype]: for each
    of them [k in o] holds and [o[k]] is a function (the prototype itself
    for [__proto__]) unless [o] has a member of its own with that name. *)
Definition Object_prototype_names : list string :=
  ["constructor"; "__defineGetter__"; "__defineSetter__"; "hasOwnProperty";
   "__lookupGetter__"; "__lookupSetter__"; "isPrototypeOf";
   "propertyIsEnumerable"; "toString"; "valueOf"; "__proto__";
   "toLocaleString"].

Definition inherited (k : string) : bool :=
  existsb (String.eqb k) Object_prototype_names.
End Objects.

(** ** Outcomes *)

Record AssertionResult := { passed : bool; message : string }.

Definition ok (message : string) : AssertionResult :=
  {| passed := true; message := message |}.

Definition fail (message : string) : AssertionResult :=
  {| passed := false; message := message |}.

(** ** Value Matcher, as the Assertion Engine has it ([assertions.ts])

    In both matchers [String(x)], [Number(x)] and interpolation are
    [ToString] and [ToNumber]: what the conversions return on the values
    that convert.  On an actual value or a predicate member that does not
    (see [convertible]) the code raises a TypeError where the embedding
    goes on; the theorems that depend on it ask for values that convert. *)

Section ValueMatcher.
Context {N : Num} {R : Runtime}.

Definition checkArgValue (actual expected : value) (path : string)
  : result AssertionResult :=
  match expected with
  | VStr e =>
      Ok (if String.eqb (ToString actual) e
          then ok (path +:+ " = " +:+ dquote +:+ e +:+ dquote)
          else fail (path +:+ ": expected " +:+ dquote +:+ e +:+ dquote
                     +:+ ", got " +:+ dquote +:+ ToString actual +:+ dquote))
  | VNum e =>
      Ok (if num_equal (ToNumber actual) e
          then ok (path +:+ " = " +:+ Number_toString e)
          else fail (path +:+ ": expected " +:+ Number_toString e
                     +:+ ", got " +:+ ToString actual))
  | VBool e =>
      Ok (if strict_eq_bool actual e
          then ok (path +:+ " = " +:+ ToString (VBool e))
          else fail (path +:+ ": expected " +:+ ToString (VBool e)
                     +:+ ", got " +:+ ToString actual))
  | VArr _ | VObj _ =>
      let assertion := expected in
      let actualStr := ToString (nullish actual (VStr "")) in
      let actualNum := ToNumber actual in
      if has_key "equals" assertion then
        let e := ToString (member assertion "equals") in
        Ok (if String.eqb (ToString actual) e
            then ok (path +:+ " equals " +:+ dquote +:+ e +:+ dquote)
            else fail (path +:+ ": expected equals " +:+ dquote +:+ e
                       +:+ dquote +:+ ", got " +:+ dquote
                       +:+ ToString actual +:+ dquote))
      else if has_key "contains" assertion then
        let needle := ToString (member assertion "contains") in
        Ok (if includes actualStr needle
            then ok (path +:+ " contains " +:+ dquote +:+ needle +:+ dquote)
            else fail (path +:+ ": expected to contain " +:+ dquote
                       +:+ needle +:+ dquote +:+ ", got " +:+ dquote
                       +:+ actualStr +:+ dquote))
      else if has_key "not_contains" assertion then
        let needle := ToString (member assertion "not_contains") in
        Ok (if negb (includes actualStr needle)
            then ok (path +:+ " does not contain " +:+ dquote +:+ needle
                     +:+ dquote)
            else fail (path +:+ ": expected NOT to contain " +:+ dquote
                       +:+ needle +:+ dquote +:+ ", but it does"))
      else if has_key "matches" assertion then
        let pattern := ToString (member assertion "matches") in
        let* re := RegExp_new pattern in
        Ok (if re actualStr
            then ok (path +:+ " matches /" +:+ pattern +:+ "/")
            else fail (path +:+ ": expected to match /" +:+ pattern
                       +:+ "/, got " +:+ dquote +:+ actualStr +:+ dquote))
      else if has_key "gte" assertion || has_key "lte" assertion then
        let results :=
          (if has_key "gte" assertion then
             let gte := member assertion "gte" in
             [ if num_geb actualNum (ToNumber gte)
               then ok (path +:+ " >= " +:+ ToString gte)
               else fail (path +:+ ": expected >= " +:+ ToString gte
                          +:+ ", got " +:+ Number_toString actualNum) ]
           else [])
          ++
          (if has_key "lte" assertion then
             let lte := member assertion "lte" in
             [ if num_leb actualNum (ToNumber lte)
               then ok (path +:+ " <= " +:+ ToString lte)
               else fail (path +:+ ": expected <= " +:+ ToString lte
                          +:+ ", got " +:+ Number_toString actualNum) ]
           else []) in
        Ok (match find (fun r => negb (passed r)) results with
            | Some failed => failed
            | None =>
                match results with
                | r :: _ => r
                | [] => ok (path +:+ " in range")
                end
            end)
      else Ok (fail (path +:+ ": unsupported assertion type"))
  | VUndefined | VNull => Ok (fail (path +:+ ": unsupported assertion type"))
  end.

(** ** Value Matcher, as the Mock Resolver has it ([mocks.ts]) *)

Definition matchesArgValue (actual expected : value) : result bool :=
  match expected with
  | VNull | VUndefined => Ok true
  | VStr _ | VNum _ | VBool _ =>
      Ok (String.eqb (ToString actual) (ToString expected))
  | VArr _ | VObj _ =>
      let assertion := expected in
      let actualStr := ToString (nullish actual (VStr "")) in
      let actualNum := ToNumber actual in
      if has_key "equals" assertion then
        Ok (String.eqb (ToString actual)
                       (ToString (member assertion "equals")))
      else if has_key "contains" assertion then
        Ok (includes actualStr (ToString (member assertion "contains")))
      else if has_key "matches" assertion then
        let* re := RegExp_new (ToString (member assertion "matches")) in
        Ok (re actualStr)
      else if has_key "not_contains" assertion then
        Ok (negb (includes actualStr
                           (ToString (member assertion "not_contains"))))
      else if has_key "gte" assertion || has_key "lte" assertion then
        if has_key "gte" assertion
           && num_ltb actualNum (ToNumber (member assertion "gte"))
        then Ok false
        else if has_key "lte" assertion
                && num_gtb actualNum (ToNumber (member assertion "lte"))
        then Ok false
        else Ok true
      else Ok false
  end.

(** The loop of [argsMatchCondition] over the entries of the condition:
    it stops at the first key that does not pass. *)
Fixpoint argsMatchEntries (toolCallArgs : value)
         (condition : list (string * value)) : result bool :=
  match condition with
  | [] => Ok true
  | (key, expected) :: rest =>
      let* actual := get toolCallArgs key in
      let* m := matchesArgValue actual expected in
      if m then argsMatchEntries toolCallArgs rest else Ok false
  end.

(** [condition] is whatever the rule holds under [when]: the cast to a
    record of predicates checks nothing. *)
Definition argsMatchCondition (toolCallArgs condition : value) : result bool :=
  let* condition_entries := Object_entries condition in
  argsMatchEntries toolCallArgs condition_entries.
End ValueMatcher.

(** ** Declarations ([types.ts]) *)

Section Types.
Context {N : Num}.

Record FunctionCall := { name : string; arguments : string }.
Record ToolCall := { id : string; function : FunctionCall }.

(** [when] is declared a record of predicates; the parser stores under
    it whatever the test file holds, [null] included. *)
Record MockCondition := { when : value; cond_return : value }.

(** [mock_return] is [Some v] when the object has a [return] member;
    [default_] holds [default.return]. *)
Record MockDefinition := {
  mock_return : option value;
  mock_error : option string;
  conditions : option (list MockCondition);
  default_ : option value;
}.

(** An entry of a step's mock table: a rule object, or a raw value (one
    that is not an object with a [return], [error] or [conditions]
    member). *)
Inductive MockEntry :=
| MockDef (m : MockDefinition)
| MockRaw (v : value).

Definition MockCondition_value (c : MockCondition) : value :=
  VObj [("when", when c); ("return", cond_return c)].

(** The rule object itself, as data. *)
Definition MockDefinition_value (m : MockDefinition) : value :=
  VObj (match mock_return m with Some v => [("return", v)] | None => [] end
        ++ match mock_error m with Some e => [("error", VStr e)] | None => [] end
        ++ match conditions m with
           | Some cs => [("conditions", VArr (map MockCondition_value cs))]
           | None => []
           end
        ++ match default_ m with
           | Some d => [("default", VObj [("return", d)])]
           | None => []
           end).
End Types.

(** ** Mock Resolver ([mocks.ts]) *)

Section MockResolver.
Context {N : Num} {R : Runtime}.

(** Interpolation of [JSON.stringify(v)] into a template literal. *)
Definition stringify_text (v : value) : string :=
  match JSON_stringify v with Some s => s | None => "undefined" end.

(** The [for] loop of [resolveMockDefinition] over the conditions;
    [None] when the loop ends without returning. *)
Fixpoint firstMatch (cs : list MockCondition) (args : value)
  : result (option value) :=
  match cs with
  | [] => Ok None
  | condition :: rest =>
      let* m := argsMatchCondition args (when condition) in
      if m then Ok (Some (cond_return condition)) else firstMatch rest args
  end.

(** A string member in a condition position: [undefined] and the empty
    string are falsy. *)
Definition truthy_string (s : option string) : option string :=
  match s with
  | Some s => if String.eqb s "" then None else Some s
  | None => None
  end.

Definition resolveMockDefinition (mock : MockDefinition) (args : value)
  : result value :=
  match truthy_string (mock_error mock) with
  | Some e => Ok (VObj [("error", VStr e)])
  | None =>
      match conditions mock with
      | Some ((_ :: _) as cs) =>
          let* hit := firstMatch cs args in
          match hit with
          | Some v => Ok v
          | None =>
              match default_ mock with
              | Some d => Ok d
              | None =>
                  Ok (VObj [("error",
                             VStr ("No matching mock condition for args: "
                                   +:+ stringify_text args))])
              end
          end
      | _ =>
          match mock_return mock with
          | Some v => Ok v
          | None => Ok VNull
          end
      end
  end.

(** [try { args = JSON.parse(text) } catch { }] with [args] preset to [{}] *)
Definition parseArgs (text : string) : value :=
  match JSON_parse text with
  | Ok v => v
  | Throw _ => VObj []
  end.

Definition is_MockDefinition (m : MockDefinition) : bool :=
  bool_decide (is_Some (mock_return m))
  || bool_decide (is_Some (mock_error m))
  || bool_decide (is_Some (conditions m)).

(** What a call resolves to once its arguments are known.  [toolName in
    stepMock] is the lookup in the table: a tool name that every object
    inherits (see [inherited]) and the table does not hold is outside the
    embedding. *)
Definition resolveResponse (toolName : string) (args : value)
           (stepMock : option (gmap string MockEntry)) : result value :=
  match stepMock with
  | Some table =>
      match table !! toolName with
      | Some (MockDef mockDef) =>
          if is_MockDefinition mockDef
          then resolveMockDefinition mockDef args
          else Ok (MockDefinition_value mockDef)
      | Some (MockRaw mockDef) => Ok mockDef
      | None =>
          Ok (VObj [("result", VStr ("Mock not defined for tool: " +:+ toolName))])
      end
  | None =>
      Ok (VObj [("result", VStr ("Mock not defined for tool: " +:+ toolName))])
  end.

(** [typeof response === 'string' ? response : JSON.stringify(response)] *)
Definition encode (response : value) : option string :=
  match response with
  | VStr s => Some s
  | _ => JSON_stringify response
  end.

(** The body of the loop of [resolveMocks] for one call. *)
Definition resolveCall (call : ToolCall)
           (stepMock : option (gmap string MockEntry))
  : result (option string) :=
  let toolName := name (function call) in
  let args := parseArgs (arguments (function call)) in
  let* response := resolveResponse toolName args stepMock in
  Ok (encode response).

Fixpoint resolveMocks_from (results : gmap string (option string))
         (toolCalls : list ToolCall)
         (stepMock : option (gmap string MockEntry))
  : result (gmap string (option string)) :=
  match toolCalls with
  | [] => Ok results
  | call :: rest =>
      let* content := resolveCall call stepMock in
      resolveMocks_from (<[id call := content]> results) rest stepMock
  end.

Definition resolveMocks (toolCalls : list ToolCall)
           (stepMock : option (gmap string MockEntry))
  : result (gmap string (option string)) :=
  resolveMocks_from ∅ toolCalls stepMock.
End MockResolver.

(** ** Expectations ([types.ts]) *)

Section Expectations.
Context {N : Num}.

Record NumericAssertion := {
  gte : option number;
  lte : option number;
  equals : option number;
}.

Record ToolCallAssertion := {
  tc_name : string;
  args : option (list (string * value));
  count : option number;
}.

(** [string | string[]] *)
Inductive needles :=
| One (s : string)
| Many (l : list string).

Record ResponseAssertion := {
  contains : option needles;
  contains_any : option (list string);
  not_contains : option needles;
  matches : option string;
  min_length : option number;
  max_length : option number;
}.

Record GlobalAssertion := {
  tool_order : option (list string);
  total_tool_calls : option NumericAssertion;
  total_turns : option NumericAssertion;
  total_tokens : option NumericAssertion;
}.

Record StepExpectation := {
  tool_calls : option (list ToolCallAssertion);
  tool_calls_not : option (list ToolCallAssertion);
  response : option ResponseAssertion;
}.
End Expectations.

(** ** Assertion Engine ([assertions.ts]) *)

Section AssertionEngine.
Context {N : Num} {R : Runtime}.

Definition checkNumeric (actual : number) (assertion : NumericAssertion)
           (label : string) : list AssertionResult :=
  match gte assertion with
  | Some g =>
      [ if num_geb actual g
        then ok (label +:+ " >= " +:+ Number_toString g +:+ " (got "
                 +:+ Number_toString actual +:+ ")")
        else fail (label +:+ ": expected >= " +:+ Number_toString g
                   +:+ ", got " +:+ Number_toString actual) ]
  | None => []
  end
  ++
  match lte assertion with
  | Some l =>
      [ if num_leb actual l
        then ok (label +:+ " <= " +:+ Number_toString l +:+ " (got "
                 +:+ Number_toString actual +:+ ")")
        else fail (label +:+ ": expected <= " +:+ Number_toString l
                   +:+ ", got " +:+ Number_toString actual) ]
  | None => []
  end
  ++
  match equals assertion with
  | Some e =>
      [ if num_equal actual e
        then ok (label +:+ " = " +:+ Number_toString e)
        else fail (label +:+ ": expected " +:+ Number_toString e
                   +:+ ", got " +:+ Number_toString actual) ]
  | None => []
  end.

(** The [for] loop over [Object.entries(expected.args)]. *)
Fixpoint checkArgs (args : value) (expected : list (string * value))
  : result (list AssertionResult) :=
  match expected with
  | [] => Ok []
  | (key, expectedValue) :: rest =>
      let* actual := get args key in
      let* r := checkArgValue actual expectedValue ("Args match: " +:+ key) in
      let* rs := checkArgs args rest in
      Ok (r :: rs)
  end.

Definition evaluateToolCallAssertion (expected : ToolCallAssertion)
           (actualCalls : list ToolCall) : result (list AssertionResult) :=
  let matching :=
    filter (fun c => name (function c) = tc_name expected) actualCalls in
  match matching with
  | [] =>
      Ok [fail ("Expected tool call: " +:+ tc_name expected +:+ " — not called")]
  | call :: _ =>
      let results :=
        [ok ("Called " +:+ tc_name expected)]
        ++ match count expected with
           | Some n =>
               [ if num_equal (num_of_nat (length matching)) n
                 then ok (tc_name expected +:+ " called " +:+ Number_toString n
                          +:+ " time(s)")
                 else fail (tc_name expected +:+ ": expected "
                            +:+ Number_toString n +:+ " call(s), got "
                            +:+ Number_toString (num_of_nat (length matching))) ]
           | None => []
           end in
      match args expected with
      | Some expectedArgs =>
          match JSON_parse (arguments (function call)) with
          | Throw _ =>
              Ok (results ++ [fail (tc_name expected
                                    +:+ ": could not parse arguments as JSON")])
          | Ok parsed =>
              let* rs := checkArgs parsed expectedArgs in
              Ok (results ++ rs)
          end
      | None => Ok results
      end
  end.

Definition evaluateToolCallsNot (notExpected : list ToolCallAssertion)
           (actualCalls : list ToolCall) : list AssertionResult :=
  map (fun not_ =>
         if existsb (fun c => String.eqb (name (function c)) (tc_name not_))
                    actualCalls
         then fail ("Tool " +:+ tc_name not_ +:+ " should NOT have been called")
         else ok ("Tool " +:+ tc_name not_ +:+ " was not called (correct)"))
      notExpected.

(** [if (expected.contains)]: the empty string is falsy, a list never is. *)
Definition truthy_needles (n : option needles) : list string :=
  match n with
  | Some (One s) => if String.eqb s "" then [] else [s]
  | Some (Many l) => l
  | None => []
  end.

Definition quoted (n : string) : string := dquote +:+ n +:+ dquote.

(** [actual.slice(0, 100)] followed by the ellipsis of the long case *)
Definition excerpt (actual : string) : string :=
  substring 0 100 actual
  +:+ (if 100 <? String.length actual then "..." else "").

Definition evaluateResponseAssertion (expected : ResponseAssertion)
           (actual : string) : result (list AssertionResult) :=
  let r_contains :=
    map (fun needle =>
           if includes actual needle
           then ok ("Response contains " +:+ quoted needle)
           else fail ("Response should contain " +:+ quoted needle
                      +:+ " — got: " +:+ dquote +:+ excerpt actual +:+ dquote))
        (truthy_needles (contains expected)) in
  let r_any :=
    match contains_any expected with
    | Some l =>
        [ if existsb (fun needle => includes actual needle) l
          then ok ("Response contains one of: " +:+ join ", " (map quoted l))
          else fail ("Response should contain one of: "
                     +:+ join ", " (map quoted l) +:+ " — got: " +:+ dquote
                     +:+ excerpt actual +:+ dquote) ]
    | None => []
    end in
  let r_not :=
    map (fun needle =>
           if negb (includes actual needle)
           then ok ("Response does not contain " +:+ quoted needle)
           else fail ("Response should NOT contain " +:+ quoted needle))
        (truthy_needles (not_contains expected)) in
  let* r_matches :=
    match truthy_string (matches expected) with
    | Some pattern =>
        let* re := RegExp_new pattern in
        Ok [ if re actual
             then ok ("Response matches /" +:+ pattern +:+ "/")
             else fail ("Response should match /" +:+ pattern
                        +:+ "/ — got: " +:+ dquote +:+ substring 0 100 actual
                        +:+ dquote) ]
    | None => Ok []
    end in
  let len := num_of_nat (String.length actual) in
  let r_min :=
    match min_length expected with
    | Some m =>
        [ if num_geb len m
          then ok ("Response length >= " +:+ Number_toString m)
          else fail ("Response too short: " +:+ Number_toString len
                     +:+ " < " +:+ Number_toString m) ]
    | None => []
    end in
  let r_max :=
    match max_length expected with
    | Some m =>
        [ if num_leb len m
          then ok ("Response length <= " +:+ Number_toString m)
          else fail ("Response too long: " +:+ Number_toString len
                     +:+ " > " +:+ Number_toString m) ]
    | None => []
    end in
  Ok (r_contains ++ r_any ++ r_not ++ r_matches ++ r_min ++ r_max).

(** The loop over [expect.tool_calls], spreading each result list. *)
Fixpoint evaluateToolCalls (tcs : list ToolCallAssertion)
         (toolCalls : list ToolCall) : result (list AssertionResult) :=
  match tcs with
  | [] => Ok []
  | tc :: rest =>
      let* rs := evaluateToolCallAssertion tc toolCalls in
      let* rest_rs := evaluateToolCalls rest toolCalls in
      Ok (rs ++ rest_rs)
  end.

Definition evaluateStepAssertions (expect : option StepExpectation)
           (toolCalls : list ToolCall) (response_text : option string)
  : result (list AssertionResult) :=
  match expect with
  | None => Ok []
  | Some expect =>
      let* r_calls :=
        match tool_calls expect with
        | Some tcs => evaluateToolCalls tcs toolCalls
        | None => Ok []
        end in
      let r_not :=
        match tool_calls_not expect with
        | Some nots => evaluateToolCallsNot nots toolCalls
        | None => []
        end in
      let* r_response :=
        match response expect, truthy_string response_text with
        | Some expected, Some text => evaluateResponseAssertion expected text
        | Some _, None => Ok [fail "Expected a text response but got none"]
        | None, _ => Ok []
        end in
      Ok (r_calls ++ r_not ++ r_response)
  end.

(** [names.indexOf(searchElement, fromIndex)]; [None] is [-1]. *)
Fixpoint indexOf_at (pos : nat) (names : list string)
         (searchElement : string) (fromIndex : nat) : option nat :=
  match names with
  | [] => None
  | n :: rest =>
      if (fromIndex <=? pos) && String.eqb n searchElement
      then Some pos
      else indexOf_at (S pos) rest searchElement fromIndex
  end.

Definition indexOf (names : list string) (searchElement : string)
           (fromIndex : nat) : option nat :=
  indexOf_at 0 names searchElement fromIndex.

(** The [tool_order] loop, by the state it is left in: [Unmet] at the
    [break] (with [orderOk] false), [Matched] when it runs to its end. *)
Inductive Scan :=
| Matched (orderIndex : nat)
| Unmet (expected : string) (orderIndex : nat).

Fixpoint toolOrderScan (calledNames : list string) (order : list string)
         (orderIndex : nat) : Scan :=
  match order with
  | [] => Matched orderIndex
  | expected :: rest =>
      match indexOf calledNames expected orderIndex with
      | None => Unmet expected orderIndex
      | Some foundAt => toolOrderScan calledNames rest (foundAt + 1)
      end
  end.

Definition evaluateGlobalAssertions (assert : GlobalAssertion)
           (allToolCalls : list ToolCall) (totalTurns totalTokens : number)
  : list AssertionResult :=
  match tool_order assert with
  | Some order =>
      let calledNames := map (fun c => name (function c)) allToolCalls in
      match toolOrderScan calledNames order 0 with
      | Unmet expected orderIndex =>
          [fail ("Tool order: expected " +:+ expected +:+ " after position "
                 +:+ Number_toString (num_of_nat orderIndex) +:+ ", not found")]
      | Matched _ => [ok ("Tool order: " +:+ join " → " order)]
      end
  | None => []
  end
  ++ match total_tool_calls assert with
     | Some a =>
         checkNumeric (num_of_nat (length allToolCalls)) a "Total tool calls"
     | None => []
     end
  ++ match total_turns assert with
     | Some a => checkNumeric totalTurns a "Total turns"
     | None => []
     end
  ++ match total_tokens assert with
     | Some a => checkNumeric totalTokens a "Total tokens"
     | None => []
     end.
End AssertionEngine.

(** ** Conversation data ([types.ts]) *)

Section Conversation.
Context {N : Num}.

Inductive Role := RSystem | RUser | RAssistant | RTool.

Record ChatMessage := {
  role : Role;
  content : option string;
  msg_tool_calls : option (list ToolCall);
  tool_call_id : option string;
}.

Record Usage := { prompt_tokens : number; completion_tokens : number }.
Record Choice := { choice_message : ChatMessage }.
Record ChatCompletionResponse := {
  choices : list Choice;
  usage : option Usage;
}.

Record PromptmanSource := {
  slug : string;
  stage : option string;
  variables : option (list (string * string));
}.

(** [string | { promptman: PromptmanSource }], and anything else the
    document may have held. *)
Inductive SystemPromptSource :=
| Inline (text : string)
| Promptman (source : PromptmanSource)
| OtherSource.

Record TestStep := {
  user : option string;
  expect : option StepExpectation;
  mock : option (gmap string MockEntry);
  assert : option GlobalAssertion;
}.

Record TestDefinition := {
  test_name : string;
  system_prompt : SystemPromptSource;
  steps : list TestStep;
}.

(** [config.promptman] (present or not) and [config.settings.max_turns],
    a count of turns. *)
Record Config := { promptman : bool; max_turns : nat }.

Record StepResult := {
  stepIndex : nat;
  userMessage : option string;
  assertions : list AssertionResult;
  toolCalls : list ToolCall;
  assistantResponse : option string;
  step_passed : bool;
}.

(** [durationMs] and [estimatedCost] (wall clock and price table) take no
    part in control flow and are not carried. *)
Record TestResult := {
  result_name : string;
  result_file : string;
  test_passed : bool;
  result_steps : list StepResult;
  result_globalAssertions : list AssertionResult;
  totalTokens : number;
  result_error : option string;
}.

Inductive ProgressEvent :=
| test_start (file : string)
| step_start (stepIndex : nat) (userMessage : option string)
| step_llm_call (stepIndex : nat)
| step_tool_calls (stepIndex : nat) (toolNames : list string)
| step_mock_inject (stepIndex : nat)
| step_complete (stepIndex : nat) (step : StepResult).

(** The model boundary and the instruction-resolution boundary.  The
    [nat] is the ordinal of the call within the test (its [totalTurns]),
    so a boundary may answer the same transcript differently over time;
    a network failure, a bad status, an unreadable body and a timeout are
    all a [Throw]. *)
Class Boundaries := {
  callLLM : nat -> list ChatMessage -> result ChatCompletionResponse;
  fetchPrompt : PromptmanSource -> result string;
}.

(** The locals of [executeTest] that outlive a step. *)
Record ExecState := {
  messages : list ChatMessage;
  allToolCalls : list ToolCall;
  stepResults : list StepResult;
  globalAssertions : list AssertionResult;
  totalInputTokens : number;
  totalOutputTokens : number;
  totalTurns : nat;
  events : list ProgressEvent;
}.

(** A computation inside the [try]: it ends normally, or with a fault
    and the locals as they were when it was raised. *)
Inductive outcome (A : Type) :=
| Done (a : A) (s : ExecState)
| Fault (e : error) (s : ExecState).
Arguments Done {A} a s.
Arguments Fault {A} e s.

Definition Exec (A : Type) : Type := ExecState -> outcome A.

Definition ret {A} (a : A) : Exec A := fun s => Done a s.

Definition ebind {A B} (c : Exec A) (k : A -> Exec B) : Exec B :=
  fun s =>
    match c s with
    | Done a s' => k a s'
    | Fault e s' => Fault e s'
    end.

Definition lift {A} (r : result A) : Exec A :=
  fun s =>
    match r with
    | Ok a => Done a s
    | Throw e => Fault e s
    end.

Definition read {A} (f : ExecState -> A) : Exec A := fun s => Done (f s) s.
Definition modify (f : ExecState -> ExecState) : Exec unit :=
  fun s => Done tt (f s).

Definition push_message (m : ChatMessage) (s : ExecState) : ExecState :=
  {| messages := messages s ++ [m]; allToolCalls := allToolCalls s;
     stepResults := stepResults s; globalAssertions := globalAssertions s;
     totalInputTokens := totalInputTokens s;
     totalOutputTokens := totalOutputTokens s;
     totalTurns := totalTurns s; events := events s |}.

Definition push_allToolCalls (cs : list ToolCall) (s : ExecState) : ExecState :=
  {| messages := messages s; allToolCalls := allToolCalls s ++ cs;
     stepResults := stepResults s; globalAssertions := globalAssertions s;
     totalInputTokens := totalInputTokens s;
     totalOutputTokens := totalOutputTokens s;
     totalTurns := totalTurns s; events := events s |}.

Definition push_stepResult (r : StepResult) (s : ExecState) : ExecState :=
  {| messages := messages s; allToolCalls := allToolCalls s;
     stepResults := stepResults s ++ [r];
     globalAssertions := globalAssertions s;
     totalInputTokens := totalInputTokens s;
     totalOutputTokens := totalOutputTokens s;
     totalTurns := totalTurns s; events := events s |}.

Definition push_globalAssertions (rs : list AssertionResult) (s : ExecState)
  : ExecState :=
  {| messages := messages s; allToolCalls := allToolCalls s;
     stepResults := stepResults s;
     globalAssertions := globalAssertions s ++ rs;
     totalInputTokens := totalInputTokens s;
     totalOutputTokens := totalOutputTokens s;
     totalTurns := totalTurns s; events := events s |}.

Definition add_input (n : number) (s : ExecState) : ExecState :=
  {| messages := messages s; allToolCalls := allToolCalls s;
     stepResults := stepResults s; globalAssertions := globalAssertions s;
     totalInputTokens := num_add (totalInputTokens s) n;
     totalOutputTokens := totalOutputTokens s;
     totalTurns := totalTurns s; events := events s |}.

Definition add_output (n : number) (s : ExecState) : ExecState :=
  {| messages := messages s; allToolCalls := allToolCalls s;
     stepResults := stepResults s; globalAssertions := globalAssertions s;
     totalInputTokens := totalInputTokens s;
     totalOutputTokens := num_add (totalOutputTokens s) n;
     totalTurns := totalTurns s; events := events s |}.

Definition incr_turns (s : ExecState) : ExecState :=
  {| messages := messages s; allToolCalls := allToolCalls s;
     stepResults := stepResults s; globalAssertions := globalAssertions s;
     totalInputTokens := totalInputTokens s;
     totalOutputTokens := totalOutputTokens s;
     totalTurns := S (totalTurns s); events := events s |}.

Definition push_event (e : ProgressEvent) (s : ExecState) : ExecState :=
  {| messages := messages s; allToolCalls := allToolCalls s;
     stepResults := stepResults s; globalAssertions := globalAssertions s;
     totalInputTokens := totalInputTokens s;
     totalOutputTokens := totalOutputTokens s;
     totalTurns := totalTurns s; events := events s ++ [e] |}.

(** [emit]: the event is handed to the progress callback, which is taken
    to return; the log records what was emitted, in order. *)
Definition emit (e : ProgressEvent) : Exec unit := modify (push_event e).
End Conversation.

Arguments Done {N A} a s.
Arguments Fault {N A} e s.

Declare Scope exec_scope.
Delimit Scope exec_scope with exec.
Notation "'let!' x ':=' c 'in' k" := (ebind c (fun x => k))
  (at level 10, x name, c at level 100, k at level 200) : exec_scope.
Notation "c ';;!' k" := (ebind c (fun _ => k))
  (at level 100, k at level 200, right associativity) : exec_scope.

(** ** Conversation Executor ([executor.ts], [utils.ts]) *)

Section Executor.
Context {N : Num} {R : Runtime} {B : Boundaries}.
Local Open Scope exec_scope.

(** [Math.ceil(text.length / 4)], [0] for the empty text *)
Definition estimateTokens (text : string) : number :=
  if String.eqb text "" then num_of_nat 0
  else num_of_nat ((String.length text + 3) / 4).

Definition resolveSystemPrompt (source : SystemPromptSource)
           (config : Config) : result string :=
  match source with
  | Inline text => Ok text
  | Promptman src =>
      if promptman config then fetchPrompt src
      else Throw (Error "Promptman config required to fetch remote prompts. Set PROMPTMAN_API_KEY.")
  | OtherSource => Throw (Error "Invalid system_prompt format")
  end.

Definition ToolCall_value (c : ToolCall) : value :=
  VObj [("id", VStr (id c)); ("type", VStr "function");
        ("function", VObj [("name", VStr (name (function c)));
                           ("arguments", VStr (arguments (function c)))])].

(** [mockResults.get(toolCall.id) ?? JSON.stringify({ result: 'ok' })] *)
Definition mockContent (mockResults : gmap string (option string))
           (toolCall : ToolCall) : option string :=
  match mockResults !! id toolCall with
  | Some (Some text) => Some text
  | _ => JSON_stringify (VObj [("result", VStr "ok")])
  end.

Definition tool_message (mockResults : gmap string (option string))
           (toolCall : ToolCall) : ChatMessage :=
  {| role := RTool; content := mockContent mockResults toolCall;
     msg_tool_calls := None; tool_call_id := Some (id toolCall) |}.

Definition push_messages (ms : list ChatMessage) : Exec unit :=
  modify (fun s => fold_left (fun s m => push_message m s) ms s).

(** Token tracking right after the reply arrives. *)
Definition trackTokens (completion : ChatCompletionResponse) : Exec unit :=
  match usage completion with
  | Some u =>
      modify (add_input (prompt_tokens u)) ;;!
      modify (add_output (completion_tokens u))
  | None =>
      let! ms := read messages in
      let msgText :=
        join " " (map (fun m => from_option (fun c => c) "" (content m)) ms) in
      modify (add_input (estimateTokens msgText))
  end.

(** What one iteration of the step loop does with the reply; [continue]
    is the rest of the loop (the [continue] statement), returning is the
    [break]. *)
Definition handleReply
           (continue : list ToolCall -> Exec (list ToolCall * option string))
           (stepIdx : nat) (step : TestStep) (stepToolCalls : list ToolCall)
           (completion : ChatCompletionResponse)
  : Exec (list ToolCall * option string) :=
  trackTokens completion ;;!
  match choices completion with
  | [] => lift (Throw (Error "No response from LLM"))
  | choice :: _ =>
      let msg := choice_message choice in
      match msg_tool_calls msg with
      | Some ((_ :: _) as calls) =>
          modify (push_message
                    {| role := RAssistant; content := content msg;
                       msg_tool_calls := Some calls;
                       tool_call_id := None |}) ;;!
          modify (push_allToolCalls calls) ;;!
          emit (step_tool_calls stepIdx
                  (map (fun tc => name (function tc)) calls)) ;;!
          match usage completion with
          | Some _ =>
              modify (add_output
                        (estimateTokens
                           (from_option (fun t => t) ""
                              (JSON_stringify
                                 (VArr (map ToolCall_value calls))))))
          | None => ret tt
          end ;;!
          let! mockResults := lift (resolveMocks calls (mock step)) in
          push_messages (map (tool_message mockResults) calls) ;;!
          emit (step_mock_inject stepIdx) ;;!
          continue (stepToolCalls ++ calls)
      | _ =>
          match truthy_string (content msg) with
          | Some text =>
              modify (push_message
                        {| role := RAssistant; content := Some text;
                           msg_tool_calls := None;
                           tool_call_id := None |}) ;;!
              match usage completion with
              | Some _ => ret tt
              | None => modify (add_output (estimateTokens text))
              end ;;!
              ret (stepToolCalls, Some text)
          | None => ret (stepToolCalls, None)
          end
      end
  end.

(** The [while (turnCount < config.settings.max_turns)] loop of one
    step; [fuel] is [max_turns - turnCount].  It returns the step's tool
    calls and its text reply, if one was recorded. *)
Fixpoint stepLoop (fuel : nat) (stepIdx : nat) (step : TestStep)
         (stepToolCalls : list ToolCall)
  : Exec (list ToolCall * option string) :=
  match fuel with
  | 0 => ret (stepToolCalls, None)
  | S fuel' =>
      modify incr_turns ;;!
      emit (step_llm_call stepIdx) ;;!
      let! turn := read totalTurns in
      let! ms := read messages in
      let! completion := lift (callLLM turn ms) in
      handleReply (stepLoop fuel' stepIdx step) stepIdx step stepToolCalls
                  completion
  end.

(** A step that only carries a whole-test assertion is skipped by the
    step loop. *)
Definition is_global_only (step : TestStep) : bool :=
  match assert step, truthy_string (user step), expect step with
  | Some _, None, None => true
  | _, _, _ => false
  end.

(** [if (step.user) messages.push(...)] *)
Definition addUserMessage (step : TestStep) : Exec unit :=
  match truthy_string (user step) with
  | Some text =>
      modify (push_message {| role := RUser; content := Some text;
                              msg_tool_calls := None; tool_call_id := None |})
  | None => ret tt
  end.

(** The body of the [for] loop over the steps, for a step that takes part. *)
Definition runStep (config : Config) (stepIdx : nat) (step : TestStep)
  : Exec unit :=
  addUserMessage step ;;!
  emit (step_start stepIdx (user step)) ;;!
  let! looped := stepLoop (max_turns config) stepIdx step [] in
  let '(stepToolCalls, assistantResponse) := looped in
  let! assertions :=
    lift (evaluateStepAssertions (expect step) stepToolCalls assistantResponse) in
  let stepResult :=
    {| stepIndex := stepIdx; userMessage := user step;
       assertions := assertions; toolCalls := stepToolCalls;
       assistantResponse := assistantResponse;
       step_passed := forallb passed assertions |} in
  modify (push_stepResult stepResult) ;;!
  emit (step_complete stepIdx stepResult).

Fixpoint runSteps (config : Config) (stepIdx : nat) (steps : list TestStep)
  : Exec unit :=
  match steps with
  | [] => ret tt
  | step :: rest =>
      (if is_global_only step then ret tt else runStep config stepIdx step) ;;!
      runSteps config (S stepIdx) rest
  end.

(** The second loop: every step with an [assert] is evaluated against
    the accumulated state. *)
Fixpoint runGlobalAssertions (steps : list TestStep) : Exec unit :=
  match steps with
  | [] => ret tt
  | step :: rest =>
      match assert step with
      | Some a =>
          let! s := read (fun s => s) in
          modify (push_globalAssertions
                    (evaluateGlobalAssertions a (allToolCalls s)
                       (num_of_nat (totalTurns s))
                       (num_add (totalInputTokens s) (totalOutputTokens s))))
      | None => ret tt
      end ;;!
      runGlobalAssertions rest
  end.

Definition initialState : ExecState :=
  {| messages := []; allToolCalls := []; stepResults := [];
     globalAssertions := []; totalInputTokens := num_of_nat 0;
     totalOutputTokens := num_of_nat 0; totalTurns := 0; events := [] |}.

(** The [try] block up to the step loop: the transcript starts with the
    resolved instruction text. *)
Definition startTest (test : TestDefinition) (config : Config)
           (filePath : string) : Exec unit :=
  emit (test_start filePath) ;;!
  let! systemPrompt := lift (resolveSystemPrompt (system_prompt test) config) in
  modify (push_message {| role := RSystem; content := Some systemPrompt;
                          msg_tool_calls := None; tool_call_id := None |}).

(** The [try] block. *)
Definition executeTest_try (test : TestDefinition) (config : Config)
           (filePath : string) : Exec TestResult :=
  startTest test config filePath ;;!
  runSteps config 0 (steps test) ;;!
  runGlobalAssertions (steps test) ;;!
  let! s := read (fun s => s) in
  ret {| result_name := test_name test; result_file := filePath;
         test_passed := forallb step_passed (stepResults s)
                        && forallb passed (globalAssertions s);
         result_steps := stepResults s;
         result_globalAssertions := globalAssertions s;
         totalTokens := num_add (totalInputTokens s) (totalOutputTokens s);
         result_error := None |}.

(** [executeTest], with the state it ends in (the events it emitted and
    the turns it took are part of what a caller observes). *)
Definition executeTest_run (test : TestDefinition) (config : Config)
           (filePath : string) : TestResult * ExecState :=
  match executeTest_try test config filePath initialState with
  | Done r s => (r, s)
  | Fault e s =>
      ({| result_name := test_name test; result_file := filePath;
          test_passed := false;
          result_steps := stepResults s;
          result_globalAssertions := globalAssertions s;
          totalTokens := num_add (totalInputTokens s) (totalOutputTokens s);
          result_error := Some (error_message e) |}, s)
  end.

Definition executeTest (test : TestDefinition) (config : Config)
           (filePath : string) : TestResult :=
  fst (executeTest_run test config filePath).
End Executor.

(** ** Deep merge ([utils.ts]) *)

Section Utils.
Context {N : Num} {R : Runtime}.

(** The loop of [deepMerge] over [Object.keys(source)], [res] being the
    object under construction; [body] is the decision of the loop's body
    for one key: the value to assign, if any. *)
Fixpoint mergeLoop (body : value -> value -> result (option value))
         (target : value) (source res : list (string * value))
  : result (list (string * value)) :=
  match source with
  | [] => Ok res
  | (key, srcVal) :: rest =>
      let* tgtVal := get target key in
      let* assigned := body srcVal tgtVal in
      mergeLoop body target rest
                (match assigned with
                 | Some v => assign key v res
                 | None => res
                 end)
  end.

(** The body of the loop for one key: an object in [source] is merged
    into an object (or [null], whose [typeof] is [object] too) in [target],
    by the recursive call; any other value but [undefined] is assigned as
    it is. *)
Fixpoint mergeMember (srcVal tgtVal : value) {struct srcVal}
  : result (option value) :=
  match srcVal with
  | VObj members =>
      match tgtVal with
      | VObj _ | VNull =>
          let* merged := mergeLoop mergeMember tgtVal members (spread tgtVal) in
          Ok (Some (VObj merged))
      | _ => Ok (Some srcVal)
      end
  | VUndefined => Ok None
  | _ => Ok (Some srcVal)
  end.

(** [deepMerge(target, source)], [source] being an object. *)
Definition deepMerge (target : value) (source : list (string * value))
  : result value :=
  let* merged := mergeLoop mergeMember target source (spread target) in
  Ok (VObj merged).
End Utils.

(** ** Test-file parser ([parser.ts]) *)

(** The file system and the YAML library, as the parser calls them. *)
Class Files {N : Num} := {
  readFileSync : string -> result string;
  parseYaml : string -> result value;
}.

Section Parser.
Context {N : Num} {R : Runtime} {F : Files}.

(** [new ParseError(file, message)]: an [Error] whose message names the
    file. *)
Definition ParseError (file message : string) : error :=
  Error ("[" +:+ file +:+ "] " +:+ message).

(** [typeof v === 'object' && v !== null] *)
Definition is_object (v : value) : bool :=
  match v with
  | VObj _ | VArr _ => true
  | _ => false
  end.

(** The condition a [when] item of a conditional array becomes. *)
Definition condition_of (item : value) : value :=
  VObj [("when", member item "when"); ("return", member item "return")].

(** [d?.return ?? d] *)
Definition default_return (d : value) : value :=
  nullish (match d with
           | VUndefined | VNull => VUndefined
           | _ => member d "return"
           end) d.

(** [String(obj.error)] is [ToString]: the [error] member is taken to
    convert to a primitive (see [convertible]). *)
Definition normalizeMock (raw : value) : value :=
  match raw with
  | VNull | VUndefined => VObj [("return", VNull)]
  | VArr items =>
      if existsb (has_key "when") items then
        let conditions :=
          map condition_of (List.filter (has_key "when") items) in
        let defaultItem := find (has_key "default") items in
        VObj [("conditions", VArr conditions);
              ("default",
               match defaultItem with
               | Some defaultItem =>
                   VObj [("return",
                          default_return (member defaultItem "default"))]
               | None => VUndefined
               end)]
      else VObj [("return", raw)]
  | VObj _ =>
      if has_key "error" raw
      then VObj [("error", VStr (ToString (member raw "error")))]
      else if has_key "return" raw then VObj [("return", member raw "return")]
      else VObj [("return", raw)]
  | VBool _ | VNum _ | VStr _ => VObj [("return", raw)]
  end.

(** [normalizeStepMocks]: [undefined] for a falsy [raw], otherwise the
    table with every entry normalised. *)
Definition normalizeStepMocks (raw : value) : value :=
  if falsy raw then VUndefined
  else VObj (fold_left (fun res entry =>
                          assign (fst entry) (normalizeMock (snd entry)) res)
                       (entries raw) []).

Definition validateTool (tool : value) (file : string) (index : nat)
  : result value :=
  if negb (is_object tool)
  then Throw (ParseError file ("tools[" +:+ Number_toString (num_of_nat index)
                               +:+ "] must be an object"))
  else
    let t := tool in
    match member t "name" with
    | VStr n =>
        if String.eqb n ""
        then Throw (ParseError file
                      ("tools[" +:+ Number_toString (num_of_nat index)
                       +:+ "].name is required and must be a string"))
        else Ok (VObj [("name", VStr n);
                       ("description", nullish (member t "description") (VStr ""));
                       ("parameters",
                        nullish (member t "parameters")
                                (VObj [("type", VStr "object");
                                       ("properties", VObj [])]))])
    | _ =>
        Throw (ParseError file
                 ("tools[" +:+ Number_toString (num_of_nat index)
                  +:+ "].name is required and must be a string"))
    end.

Definition validateStep (step : value) (file : string) (index : nat)
  : result value :=
  if negb (is_object step)
  then Throw (ParseError file ("steps[" +:+ Number_toString (num_of_nat index)
                               +:+ "] must be an object"))
  else
    let s := step in
    if falsy (member s "user") && falsy (member s "expect")
       && falsy (member s "assert") && falsy (member s "mock")
    then Throw (ParseError file
                  ("steps[" +:+ Number_toString (num_of_nat index)
                   +:+ "] must have at least one of: user, expect, assert"))
    else Ok (VObj [("user", member s "user");
                   ("expect", member s "expect");
                   ("mock", normalizeStepMocks (member s "mock"));
                   ("assert", member s "assert")]).

(** The loops of [parseTestFile] over the tools and over the steps:
    [validate] is applied to the items in order, with their indices, and
    the first error ends the loop. *)
Fixpoint validateEach (validate : value -> string -> nat -> result value)
         (file : string) (i : nat) (items : list value) : result (list value) :=
  match items with
  | [] => Ok []
  | item :: rest =>
      let* v := validate item file i in
      let* vs := validateEach validate file (S i) rest in
      Ok (v :: vs)
  end.

Definition parseTestFile (filePath : string) : result value :=
  let* content := readFileSync filePath in
  let* raw :=
    match parseYaml content with
    | Ok raw => Ok raw
    | Throw err =>
        Throw (ParseError filePath ("Invalid YAML: " +:+ error_message err))
    end in
  if falsy raw || negb (is_object raw)
  then Throw (ParseError filePath "Test file must be a YAML object")
  else
    match member raw "name" with
    | VStr (String _ _) =>
        if falsy (member raw "system_prompt")
        then Throw (ParseError filePath
                      (dquote +:+ "system_prompt" +:+ dquote +:+ " is required"))
        else
          match member raw "steps" with
          | VArr ((_ :: _) as rawSteps) =>
              let* tools :=
                match member raw "tools" with
                | VArr rawTools => validateEach validateTool filePath 0 rawTools
                | _ => Ok []
                end in
              let* steps := validateEach validateStep filePath 0 rawSteps in
              Ok (VObj [("name", member raw "name");
                        ("provider", member raw "provider");
                        ("system_prompt", member raw "system_prompt");
                        ("tools", VArr tools);
                        ("steps", VArr steps)])
          | _ =>
              Throw (ParseError filePath
                       (dquote +:+ "steps" +:+ dquote
                        +:+ " is required and must be a non-empty array"))
          end
    | _ =>
        Throw (ParseError filePath
                 (dquote +:+ "name" +:+ dquote
                  +:+ " is required and must be a string"))
    end.
End Parser.

(** ** Test runner: the execution loop and the summary ([runner.ts]) *)

Section Runner.
Context {N : Num} {R : Runtime}.

(** The boundaries of a session: the test executed in position [i] talks
    to [session i]. *)
Variable session : nat -> Boundaries.

(** The loop of [run] that executes the parsed tests in order; with
    [bail] it stops after the first Result that is not passed. *)
Fixpoint executeAll (bail : bool) (config : Config) (i : nat)
         (parsed : list (string * TestDefinition)) : list TestResult :=
  match parsed with
  | [] => []
  | (file, test) :: rest =>
      let result := @executeTest N R (session i) test config file in
      result :: (if bail && negb (test_passed result) then []
                 else executeAll bail config (S i) rest)
  end.

Record RunSummary := {
  tests_passed : nat;
  tests_failed : nat;
  tests_total : nat;
  tests_errors : nat;
}.

(** [!!r.error] *)
Definition has_error (r : TestResult) : bool :=
  match truthy_string (result_error r) with Some _ => true | None => false end.

Definition summary (results : list TestResult) : RunSummary :=
  {| tests_passed := length (List.filter test_passed results);
     tests_failed :=
       length (List.filter (fun r => negb (test_passed r) && negb (has_error r))
                           results);
     tests_total := length results;
     tests_errors := length (List.filter has_error results) |}.

(** [results.reduce((sum, r) => sum + r.totalTokens, 0)] *)
Definition tokens_total (results : list TestResult) : number :=
  fold_left (fun sum r => num_add sum (totalTokens r)) results (num_of_nat 0).

(** The status [run] exits with once the tests were executed. *)
Definition exitCode (results : list TestResult) : nat :=
  let s := summary results in
  if (tests_failed s =? 0) && (tests_errors s =? 0) then 0 else 1.
End Runner.

(** ** A reference runtime

    A small executable runtime used to run the code on concrete inputs.
    It implements the interface on a fragment of the language: numbers are
    the integers and NaN; a pattern made of letters and digits is a
    literal that matches anywhere in the subject, any other pattern is
    refused the way an unterminated group is; JSON texts are
    built from [null], [true], [false], integers, strings without escapes,
    arrays and objects.  On this fragment it answers as ECMAScript does. *)

Module Reference.

Inductive num := NaN | Int (z : Z).

Definition isNaN (a : num) : bool :=
  match a with NaN => true | Int _ => false end.

Definition equal (a b : num) : bool :=
  match a, b with
  | Int x, Int y => Z.eqb x y
  | _, _ => false
  end.

Definition lt (a b : num) : option bool :=
  match a, b with
  | Int x, Int y => Some (Z.ltb x y)
  | _, _ => None
  end.

Definition add (a b : num) : num :=
  match a, b with
  | Int x, Int y => Int (x + y)
  | _, _ => NaN
  end.

Lemma lt_undefined a b :
  lt a b = None <-> isNaN a = true \/ isNaN b = true.
Proof.
  destruct a, b; simpl; split; intros H; try tauto; try discriminate.
  destruct H; discriminate.
Qed.

#[export] Instance ints : Num := {|
  number := num;
  num_NaN := NaN;
  num_of_nat n := Int (Z.of_nat n);
  num_isNaN := isNaN;
  num_equal := equal;
  num_lt := lt;
  num_add := add;
  num_lt_undefined := lt_undefined;
|}.

(** *** Decimal numerals *)

Definition digit (n : nat) : ascii := ascii_of_nat (48 + n).

Fixpoint digits (fuel n : nat) (acc : string) : string :=
  match fuel with
  | 0 => acc
  | S fuel' =>
      let acc' := String (digit (n mod 10)) acc in
      if n <? 10 then acc' else digits fuel' (n / 10) acc'
  end.

Definition toString (a : num) : string :=
  match a with
  | NaN => "NaN"
  | Int z =>
      let n := Z.abs_nat z in
      (if (z <? 0)%Z then "-" else "") +:+ digits (S n) n ""
  end.

Definition is_digit (c : ascii) : bool :=
  let n := nat_of_ascii c in (48 <=? n) && (n <=? 57).

Definition is_letter (c : ascii) : bool :=
  let n := nat_of_ascii c in
  ((65 <=? n) && (n <=? 90)) || ((97 <=? n) && (n <=? 122)).

Fixpoint all_chars (p : ascii -> bool) (s : string) : bool :=
  match s with
  | EmptyString => true
  | String c rest => p c && all_chars p rest
  end.

Fixpoint read_digits (acc : Z) (s : string) : Z :=
  match s with
  | EmptyString => acc
  | String c rest =>
      read_digits (10 * acc + Z.of_nat (nat_of_ascii c - 48)) rest
  end.

Definition toNumber (s : string) : num :=
  match s with
  | EmptyString => Int 0
  | String c rest =>
      if Ascii.eqb c "-" && negb (String.eqb rest "") && all_chars is_digit rest
      then Int (- read_digits 0 rest)
      else if all_chars is_digit s then Int (read_digits 0 s)
      else NaN
  end.

(** *** Patterns *)

Definition regExp (pattern : string) : result (string -> bool) :=
  if all_chars (fun c => is_digit c || is_letter c) pattern
  then Ok (fun subject => includes subject pattern)
  else Throw (SyntaxError ("Invalid regular expression: /" +:+ pattern
                           +:+ "/: Unterminated group")).
(** *** JSON texts *)

Definition is_space (c : ascii) : bool :=
  let n := nat_of_ascii c in
  (n =? 32) || (n =? 9) || (n =? 10) || (n =? 13).

Fixpoint skip_ws (s : string) : string :=
  match s with
  | String c rest => if is_space c then skip_ws rest else s
  | EmptyString => s
  end.

Fixpoint drop_chars (n : nat) (s : string) : string :=
  match n, s with
  | S n', String _ rest => drop_chars n' rest
  | _, _ => s
  end.

Definition keyword (lit : string) (v : value) (s : string)
  : option (value * string) :=
  if prefix lit s then Some (v, drop_chars (String.length lit) s) else None.

(** The characters of a string up to its closing quote; an escape is
    outside the fragment. *)
Fixpoint string_body (s : string) : option (string * string) :=
  match s with
  | EmptyString => None
  | String c rest =>
      if Ascii.eqb c (ascii_of_nat 34) then Some (EmptyString, rest)
      else if Ascii.eqb c (ascii_of_nat 92) then None
      else match string_body rest with
           | Some (body, rest') => Some (String c body, rest')
           | None => None
           end
  end.

Fixpoint span_digits (s : string) : string * string :=
  match s with
  | String c rest =>
      if is_digit c
      then let '(ds, rest') := span_digits rest in (String c ds, rest')
      else (EmptyString, s)
  | EmptyString => (EmptyString, s)
  end.

Definition integer (s : string) : option (value * string) :=
  let '(negative, s') :=
    match s with
    | String c rest => if Ascii.eqb c "-" then (true, rest) else (false, s)
    | EmptyString => (false, s)
    end in
  let '(ds, rest) := span_digits s' in
  match ds with
  | EmptyString => None
  | String d more =>
      if Ascii.eqb d "0" && negb (String.eqb more EmptyString) then None
      else
        let z := read_digits 0 ds in
        Some (VNum (Int (if negative then - z else z)), rest)
  end.

(** [o[k] = v] while an object is being built: a repeated key keeps its
    place and takes the later value. *)
Fixpoint set_member (k : string) (v : value) (members : list (string * value))
  : list (string * value) :=
  match members with
  | [] => [(k, v)]
  | (k', v') :: rest =>
      if String.eqb k k' then (k, v) :: rest
      else (k', v') :: set_member k v rest
  end.

Fixpoint json_value (fuel : nat) (s : string) : option (value * string) :=
  match fuel with
  | 0 => None
  | S fuel' =>
      match skip_ws s with
      | EmptyString => None
      | String c rest =>
          if Ascii.eqb c "n" then keyword "null" VNull (String c rest)
          else if Ascii.eqb c "t" then keyword "true" (VBool true) (String c rest)
          else if Ascii.eqb c "f" then keyword "false" (VBool false) (String c rest)
          else if Ascii.eqb c (ascii_of_nat 34) then
            match string_body rest with
            | Some (body, rest') => Some (VStr body, rest')
            | None => None
            end
          else if Ascii.eqb c "[" then
            match skip_ws rest with
            | String c' rest' =>
                if Ascii.eqb c' "]" then Some (VArr [], rest')
                else json_elements fuel' [] rest
            | EmptyString => None
            end
          else if Ascii.eqb c "{" then
            match skip_ws rest with
            | String c' rest' =>
                if Ascii.eqb c' "}" then Some (VObj [], rest')
                else json_members fuel' [] rest
            | EmptyString => None
            end
          else integer (String c rest)
      end
  end
with json_elements (fuel : nat) (acc : list value) (s : string)
  : option (value * string) :=
  match fuel with
  | 0 => None
  | S fuel' =>
      match json_value fuel' s with
      | Some (v, rest) =>
          match skip_ws rest with
          | String c rest' =>
              if Ascii.eqb c "," then json_elements fuel' (acc ++ [v]) rest'
              else if Ascii.eqb c "]" then Some (VArr (acc ++ [v]), rest')
              else None
          | EmptyString => None
          end
      | None => None
      end
  end
with json_members (fuel : nat) (acc : list (string * value)) (s : string)
  : option (value * string) :=
  match fuel with
  | 0 => None
  | S fuel' =>
      match skip_ws s with
      | String q rest =>
          if Ascii.eqb q (ascii_of_nat 34) then
            match string_body rest with
            | Some (key, rest1) =>
                match skip_ws rest1 with
                | String colon rest2 =>
                    if Ascii.eqb colon ":" then
                      match json_value fuel' rest2 with
                      | Some (v, rest3) =>
                          match skip_ws rest3 with
                          | String c rest4 =>
                              if Ascii.eqb c ","
                              then json_members fuel' (set_member key v acc) rest4
                              else if Ascii.eqb c "}"
                              then Some (VObj (set_member key v acc), rest4)
                              else None
                          | EmptyString => None
                          end
                      | None => None
                      end
                    else None
                | EmptyString => None
                end
            | None => None
            end
          else None
      | EmptyString => None
      end
  end.

Definition parse (text : string) : result value :=
  match json_value (S (String.length text)) text with
  | Some (v, rest) =>
      match skip_ws rest with
      | EmptyString => Ok v
      | String _ _ =>
          Throw (SyntaxError "Unexpected non-whitespace character after JSON")
      end
  | None => Throw (SyntaxError "Unexpected token in JSON")
  end.

Definition quote (s : string) : string := dquote +:+ s +:+ dquote.

Fixpoint stringify (v : value) : option string :=
  match v with
  | VUndefined => None
  | VNull => Some "null"
  | VBool true => Some "true"
  | VBool false => Some "false"
  | VNum NaN => Some "null"
  | VNum n => Some (toString n)
  | VStr s => Some (quote s)
  | VArr items =>
      Some ("[" +:+ join "," (map (fun e => from_option (fun t => t) "null"
                                             (stringify e)) items) +:+ "]")
  | VObj members =>
      Some ("{" +:+ join ","
              (omap (fun kv => match stringify (snd kv) with
                               | Some t => Some (quote (fst kv) +:+ ":" +:+ t)
                               | None => None
                               end) members) +:+ "}")
  end.

#[export] Instance node : Runtime := {|
  Number_toString := toString;
  StringToNumber := toNumber;
  RegExp_new := regExp;
  JSON_parse := parse;
  JSON_stringify := stringify;
  TypeError_read o k :=
    "Cannot read properties of "
    +:+ match o with VNull => "null" | _ => "undefined" end
    +:+ " (reading '" +:+ k +:+ "')";
|}.
End Reference.

(** * Properties *)

(** ** Value Matcher *)

(** The verdict of an Outcome-producing check. *)
Definition passes (r : result AssertionResult) : result bool :=
  let* o := r in Ok (passed o).

(** The categories of a structured predicate, in the order the
    specification ranks them. *)
Inductive Category := Equals | Contains | NotContains | Matches | Range.

Section Categories.
Context {N : Num} {R : Runtime}.

Definition in_category (c : Category) (k : string) : bool :=
  match c with
  | Equals => String.eqb k "equals"
  | Contains => String.eqb k "contains"
  | NotContains => String.eqb k "not_contains"
  | Matches => String.eqb k "matches"
  | Range => String.eqb k "gte" || String.eqb k "lte"
  end.

Definition carries (c : Category) (p : value) : bool :=
  match c with
  | Equals => has_key "equals" p
  | Contains => has_key "contains" p
  | NotContains => has_key "not_contains" p
  | Matches => has_key "matches" p
  | Range => has_key "gte" p || has_key "lte" p
  end.

(** The highest-ranked category a predicate carries. *)
Definition category (p : value) : option Category :=
  find (fun c => carries c p) [Equals; Contains; NotContains; Matches; Range].

(** The same, in the order the Mock Resolver tests the categories. *)
Definition category_in_mocks (p : value) : option Category :=
  find (fun c => carries c p) [Equals; Contains; Matches; NotContains; Range].

(** The predicate with the members of one category only. *)
Definition only (c : Category) (p : value) : value :=
  match p with
  | VObj members =>
      VObj (List.filter (fun kv => in_category c (fst kv)) members)
  | _ => p
  end.

(** The values on which the two matchers are meant to give one verdict:
    string scalars and structured predicates, a Range being read against
    operands that are numbers.  A predicate carrying both [not_contains]
    and [matches] is left out. *)
Definition is_number (v : value) : Prop := num_isNaN (ToNumber v) = false.

Definition common_ground (actual expected : value) : Prop :=
  match expected with
  | VStr _ | VArr _ => True
  | VObj _ =>
      match category expected with
      | Some NotContains => has_key "matches" expected = false
      | Some Range =>
          is_number actual
          /\ (has_key "gte" expected = true -> is_number (member expected "gte"))
          /\ (has_key "lte" expected = true -> is_number (member expected "lte"))
      | _ => True
      end
  | VUndefined | VNull | VBool _ | VNum _ => False
  end.
End Categories.

Section ValueMatcherFacts.
Context {N : Num} {R : Runtime}.
#[local] Arguments has_key : simpl never.
#[local] Arguments member : simpl never.

Lemma lookup_member_filter (p : string -> bool) k (members : list (string * value)) :
  lookup_member k (List.filter (fun kv => p (fst kv)) members)
  = if p k then lookup_member k members else None.
Proof.
  induction members as [|[k' v] rest IH]; simpl.
  - by destruct (p k).
  - destruct (p k') eqn:Hk'; simpl.
    + destruct (String.eqb k k') eqn:E.
      * apply String.eqb_eq in E. subst. by rewrite Hk'.
      * exact IH.
    + rewrite IH. destruct (String.eqb k k') eqn:E; [|done].
      apply String.eqb_eq in E. subst. by rewrite Hk'.
Qed.

Lemma has_key_only c k members :
  has_key k (only c (VObj members))
  = in_category c k && has_key k (VObj members).
Proof.
  unfold has_key; simpl. rewrite lookup_member_filter.
  by destruct (in_category c k).
Qed.

Lemma member_only c k members :
  in_category c k = true ->
  member (only c (VObj members)) k = member (VObj members) k.
Proof. intros H. unfold member; simpl. by rewrite lookup_member_filter, H. Qed.




(** In the Assertion Engine a predicate is decided by its highest-ranked
    category alone: the members of the other categories can be dropped. *)
Lemma checkArgValue_single_category actual members path c :
  category (VObj members) = Some c ->
  checkArgValue actual (VObj members) path
  = checkArgValue actual (only c (VObj members)) path.
Proof.
  unfold category, checkArgValue. cbn [find carries].
  change (List.filter _ members) with
    (match only c (VObj members) with VObj m => m | _ => [] end).
  fold (only c (VObj members)).
  intros H.
  assert (K : forall k, has_key k (only c (VObj members))
                        = in_category c k && has_key k (VObj members))
    by (intros; apply has_key_only).
  assert (M : forall k, in_category c k = true ->
                        member (only c (VObj members)) k = member (VObj members) k)
    by (intros; by apply member_only).
  destruct (only c (VObj members)) eqn:Ho; try discriminate Ho.
  rewrite <- Ho in *. clear Ho.
  rewrite !K.
  destruct (has_key "equals" (VObj members)) eqn:E1.
  { injection H as <-. simpl. by rewrite M. }
  destruct (has_key "contains" (VObj members)) eqn:E2.
  { injection H as <-. simpl. by rewrite M. }
  destruct (has_key "not_contains" (VObj members)) eqn:E3.
  { injection H as <-. simpl. by rewrite M. }
  destruct (has_key "matches" (VObj members)) eqn:E4.
  { injection H as <-. simpl. by rewrite M. }
  destruct (has_key "gte" (VObj members) || has_key "lte" (VObj members)) eqn:E5;
    [|discriminate].
  injection H as <-. simpl. rewrite !M by reflexivity.
  by destruct (has_key "gte" (VObj members)), (has_key "lte" (VObj members)).
Qed.

(** The Mock Resolver, too, decides by one category alone, the highest in
    its own order, where Matches comes before NotContains. *)
Lemma matchesArgValue_single_category actual members c :
  category_in_mocks (VObj members) = Some c ->
  matchesArgValue actual (VObj members)
  = matchesArgValue actual (only c (VObj members)).
Proof.
  unfold category_in_mocks, matchesArgValue. cbn [find carries].
  change (List.filter _ members) with
    (match only c (VObj members) with VObj m => m | _ => [] end).
  fold (only c (VObj members)).
  intros H.
  assert (K : forall k, has_key k (only c (VObj members))
                        = in_category c k && has_key k (VObj members))
    by (intros; apply has_key_only).
  assert (M : forall k, in_category c k = true ->
                        member (only c (VObj members)) k = member (VObj members) k)
    by (intros; by apply member_only).
  destruct (only c (VObj members)) eqn:Ho; try discriminate Ho.
  rewrite <- Ho in *. clear Ho.
  rewrite !K.
  destruct (has_key "equals" (VObj members)) eqn:E1.
  { injection H as <-. simpl. by rewrite M. }
  destruct (has_key "contains" (VObj members)) eqn:E2.
  { injection H as <-. simpl. by rewrite M. }
  destruct (has_key "matches" (VObj members)) eqn:E3.
  { injection H as <-. simpl. by rewrite M. }
  destruct (has_key "not_contains" (VObj members)) eqn:E4.
  { injection H as <-. simpl. by rewrite M. }
  destruct (has_key "gte" (VObj members) || has_key "lte" (VObj members)) eqn:E5;
    [|discriminate].
  injection H as <-. simpl. rewrite !M by reflexivity.
  by destruct (has_key "gte" (VObj members)), (has_key "lte" (VObj members)).
Qed.
End ValueMatcherFacts.

Section Verdicts.
Context {N : Num} {R : Runtime}.
#[local] Arguments has_key : simpl never.
#[local] Arguments member : simpl never.

Lemma passes_verdict (b : bool) (m1 m2 : string) :
  passes (Ok (if b then ok m1 else fail m2)) = Ok b.
Proof. by destruct b. Qed.

Lemma num_geb_ltb (a b : number) :
  num_isNaN a = false -> num_isNaN b = false ->
  num_geb a b = negb (num_ltb a b).
Proof.
  intros Ha Hb. unfold num_geb, num_ltb.
  destruct (num_lt a b) as [[]|] eqn:E; try reflexivity.
  apply num_lt_undefined in E. destruct E; congruence.
Qed.

Lemma num_leb_gtb (a b : number) :
  num_isNaN a = false -> num_isNaN b = false ->
  num_leb a b = negb (num_gtb a b).
Proof.
  intros Ha Hb. unfold num_leb, num_gtb.
  destruct (num_lt b a) as [[]|] eqn:E; try reflexivity.
  apply num_lt_undefined in E. destruct E; congruence.
Qed.

(** C7 (amended).  On an actual value that converts to a primitive (any
    value but an object with a member named [toString], or an array holding
    one: on these the matchers raise a TypeError) a string predicate is
    decided by stringified equality in both matchers.  For a number
    predicate the Assertion Engine compares [Number(actual)] with the
    predicate, and for a boolean predicate it asks for strict identity; the
    Mock Resolver compares string forms for all three scalar types. *)
Theorem scalar_predicate_verdicts (actual : value) (path : string) :
  convertible actual = true ->
  (forall e, passes (checkArgValue actual (VStr e) path)
             = Ok (String.eqb (ToString actual) (ToString (VStr e))))
  /\ (forall e, passes (checkArgValue actual (VNum e) path)
                = Ok (num_equal (ToNumber actual) e))
  /\ (forall e, passes (checkArgValue actual (VBool e) path)
                = Ok (strict_eq_bool actual e))
  /\ (forall e, matchesArgValue actual (VStr e)
                = Ok (String.eqb (ToString actual) (ToString (VStr e))))
  /\ (forall e, matchesArgValue actual (VNum e)
                = Ok (String.eqb (ToString actual) (ToString (VNum e))))
  /\ (forall e, matchesArgValue actual (VBool e)
                = Ok (String.eqb (ToString actual) (ToString (VBool e)))).
Proof.
  intros _. repeat split; intros e; try reflexivity;
    unfold checkArgValue; apply passes_verdict.
Qed.

(** C9 (amended).  On string scalars and on structured predicates (one
    that carries [not_contains] not carrying [matches] as well, and a
    Range being read against numbers) the Assertion Engine's check passes
    exactly when the Mock Resolver's matcher matches, and the two raise the
    same fault on a pattern that does not compile. *)
Theorem matchers_agree_on_common_ground (actual expected : value) (path : string) :
  common_ground actual expected ->
  passes (checkArgValue actual expected path) = matchesArgValue actual expected.
Proof.
  destruct expected as [| | | |e|items|members]; simpl; try contradiction.
  - intros _. apply passes_verdict.
  - intros _. reflexivity.
  - unfold category, checkArgValue, matchesArgValue. cbn [find carries].
    set (p := VObj members).
    destruct (has_key "equals" p); [intros _; apply passes_verdict|].
    destruct (has_key "contains" p); [intros _; apply passes_verdict|].
    destruct (has_key "not_contains" p).
    { intros ->. apply passes_verdict. }
    destruct (has_key "matches" p).
    { intros _. destruct (RegExp_new _); [apply passes_verdict|reflexivity]. }
    destruct (has_key "gte" p) eqn:G, (has_key "lte" p) eqn:L; simpl;
      try (intros _; reflexivity); intros (Ha & Hg & Hl).
    + specialize (Hg eq_refl). specialize (Hl eq_refl).
      rewrite <- (negb_involutive (num_ltb _ _)), <- (num_geb_ltb _ _ Ha Hg).
      rewrite <- (negb_involutive (num_gtb _ _)), <- (num_leb_gtb _ _ Ha Hl).
      by destruct (num_geb _ _), (num_leb _ _).
    + specialize (Hg eq_refl).
      rewrite <- (negb_involutive (num_ltb _ _)), <- (num_geb_ltb _ _ Ha Hg).
      by destruct (num_geb _ _).
    + specialize (Hl eq_refl).
      rewrite <- (negb_involutive (num_gtb _ _)), <- (num_leb_gtb _ _ Ha Hl).
      by destruct (num_leb _ _).
Qed.
End Verdicts.

(** ** Whole-test tool order *)

Section ToolOrder.
Context {N : Num} {R : Runtime}.

(** A whole-test assertion that declares [tool_order] only. *)
Definition order_only (order : list string) : GlobalAssertion :=
  {| tool_order := Some order; total_tool_calls := None;
     total_turns := None; total_tokens := None |}.

(** Invocations with the given names (empty arguments). *)
Definition calls_named (names : list string) : list ToolCall :=
  map (fun n => {| id := "call_" +:+ n;
                   function := {| name := n; arguments := "{}" |} |}) names.

Lemma indexOf_at_Some pos names x from f :
  indexOf_at pos names x from = Some f ->
  exists pre suf,
    drop (from - pos) names = pre ++ x :: suf /\ (x ∉ pre)
    /\ f = Nat.max pos from + length pre.
Proof.
  revert pos. induction names as [|n rest IH]; intros pos; simpl; [done|].
  destruct (from <=? pos) eqn:Hle; simpl.
  - apply Nat.leb_le in Hle.
    replace (from - pos) with 0 by lia. simpl.
    destruct (String.eqb n x) eqn:E.
    + apply String.eqb_eq in E. subst n. intros [= <-].
      exists [], rest. repeat split; first [apply not_elem_of_nil | simpl; lia].
    + apply String.eqb_neq in E. intros H.
      destruct (IH _ H) as (pre & suf & Hd & Hn & ->).
      replace (from - S pos) with 0 in Hd by lia. rewrite drop_0 in Hd.
      exists (n :: pre), suf. subst rest. repeat split.
      * intros [->|?]%elem_of_cons; [done|]. by apply Hn.
      * simpl. lia.
  - apply Nat.leb_gt in Hle. intros H.
    destruct (IH _ H) as (pre & suf & Hd & Hn & ->).
    replace (from - pos) with (S (from - S pos)) by lia. simpl.
    exists pre, suf. repeat split; first [done | simpl; lia].
Qed.

Lemma indexOf_at_None pos names x from :
  indexOf_at pos names x from = None -> x ∉ drop (from - pos) names.
Proof.
  revert pos. induction names as [|n rest IH]; intros pos; simpl.
  - intros _. rewrite drop_nil. apply not_elem_of_nil.
  - destruct (from <=? pos) eqn:Hle; simpl.
    + apply Nat.leb_le in Hle. replace (from - pos) with 0 by lia. simpl.
      destruct (String.eqb n x) eqn:E; [done|].
      apply String.eqb_neq in E. intros H. specialize (IH _ H).
      replace (from - S pos) with 0 in IH by lia. rewrite drop_0 in IH.
      intros [->|?]%elem_of_cons; [done|]. by apply IH.
    + apply Nat.leb_gt in Hle. intros H. specialize (IH _ H).
      by replace (from - pos) with (S (from - S pos)) by lia.
Qed.

Lemma indexOf_Some names x from f :
  indexOf names x from = Some f ->
  exists pre suf,
    drop from names = pre ++ x :: suf /\ (x ∉ pre) /\ f = from + length pre.
Proof.
  intros H. apply indexOf_at_Some in H as (pre & suf & Hd & Hn & ->).
  rewrite Nat.sub_0_r in Hd. exists pre, suf.
  repeat split; first [done | simpl; lia].
Qed.

Lemma indexOf_None names x from :
  indexOf names x from = None -> x ∉ drop from names.
Proof.
  intros H. apply indexOf_at_None in H. by rewrite Nat.sub_0_r in H.
Qed.

(** [indexOf] answers the first position at or after [fromIndex] that
    holds the name. *)
Lemma indexOf_first names x from f :
  indexOf names x from = Some f <->
  from <= f /\ names !! f = Some x
  /\ forall k, from <= k < f -> names !! k <> Some x.
Proof.
  split.
  - intros (pre & suf & Hd & Hn & ->)%indexOf_Some. split; [lia|]. split.
    + rewrite <- lookup_drop, Hd. by rewrite list_lookup_middle.
    + intros k [Hk1 Hk2] Hk.
      replace k with (from + (k - from)) in Hk by lia.
      rewrite <- lookup_drop, Hd, lookup_app_l in Hk by lia.
      apply Hn. by eapply list_elem_of_lookup_2.
  - intros (Hle & Hf & Hfirst).
    destruct (indexOf names x from) as [g|] eqn:E.
    + apply indexOf_Some in E as (pre & suf & Hd & Hn & ->).
      f_equal. destruct (Nat.lt_trichotomy (from + length pre) f) as [Hlt|[->|Hgt]].
      * exfalso. apply (Hfirst (from + length pre)); [lia|].
        rewrite <- lookup_drop, Hd. by rewrite list_lookup_middle.
      * done.
      * exfalso. apply Hn.
        replace f with (from + (f - from)) in Hf by lia.
        rewrite <- lookup_drop, Hd, lookup_app_l in Hf by lia.
        by eapply list_elem_of_lookup_2.
    + exfalso. apply indexOf_None in E. apply E.
      replace f with (from + (f - from)) in Hf by lia.
      rewrite <- lookup_drop in Hf. by eapply list_elem_of_lookup_2.
Qed.

Lemma sublist_past_first (x : string) rest pre suf :
  x ∉ pre -> x :: rest `sublist_of` pre ++ x :: suf <-> rest `sublist_of` suf.
Proof.
  intros Hn. split.
  - induction pre as [|p pre IH]; simpl; intros H.
    + inversion H; subst; [done|].
      etrans; [|eassumption]. by apply sublist_cons.
    + inversion H; subst.
      * exfalso. apply Hn. by left.
      * apply IH; [|done]. intros ?. apply Hn. by right.
  - intros H. apply sublist_inserts_l. by apply sublist_skip.
Qed.

(** The scan succeeds exactly on the subsequences of what remains. *)
Lemma toolOrderScan_sublist names order i :
  (exists j, toolOrderScan names order i = Matched j)
  <-> order `sublist_of` drop i names.
Proof.
  revert i. induction order as [|x rest IH]; intros i; simpl.
  - split; [intros _; apply sublist_nil_l|eauto].
  - destruct (indexOf names x i) as [f|] eqn:E.
    + apply indexOf_Some in E as (pre & suf & Hd & Hn & ->).
      rewrite IH, Hd, sublist_past_first by done.
      replace (i + length pre + 1) with (i + (length pre + 1)) by lia.
      rewrite <- drop_drop, Hd, drop_app_add. simpl. by rewrite drop_0.
    + apply indexOf_None in E. split; [by intros [? ?]|].
      intros H. exfalso. apply E. eapply sublist_subseteq; [exact H|]. by left.
Qed.

(** When the scan breaks, the names before the unmet one were matched up
    to the cursor and the unmet name does not occur from the cursor on. *)
Lemma toolOrderScan_unmet names order i e j :
  toolOrderScan names order i = Unmet e j ->
  exists pre post,
    order = pre ++ e :: post
    /\ toolOrderScan names pre i = Matched j
    /\ forall k, j <= k -> names !! k <> Some e.
Proof.
  revert i. induction order as [|x rest IH]; intros i; simpl; [done|].
  destruct (indexOf names x i) as [f|] eqn:E.
  - intros (pre & post & -> & Hm & Hk)%IH.
    exists (x :: pre), post. simpl. by rewrite E.
  - intros [= <- <-]. exists [], rest. repeat split.
    intros k Hk Hl. apply indexOf_None in E. apply E.
    replace k with (i + (k - i)) in Hl by lia.
    rewrite <- lookup_drop in Hl. by eapply list_elem_of_lookup_2.
Qed.
(** C4.  The whole-test [tool_order] check is a greedy left-to-right
    subsequence search.  [indexOf] finds the first invocation with the
    name at or after the cursor and the scan moves the cursor past it.  The
    check yields exactly one Outcome; it passes exactly when the declared
    order is a subsequence of the observed names.  When it fails, the
    message reports the first declared name that could not be met: the
    names before it were matched up to the reported cursor, and the unmet
    name does not occur at or after that cursor.  Observed
    [search, details, book] against expected [search, book] passes;
    observed [book, search] against expected [search, book] fails. *)
Theorem tool_order_greedy_subsequence
        (order : list string) (calls : list ToolCall) (turns tokens : number) :
  let names := map (fun c => name (function c)) calls in
  let outcomes := evaluateGlobalAssertions (order_only order) calls turns tokens in
  (forall x from f,
      indexOf names x from = Some f <->
      from <= f /\ names !! f = Some x
      /\ forall k, from <= k < f -> names !! k <> Some x)
  /\ (forall x rest cursor,
         toolOrderScan names (x :: rest) cursor
         = match indexOf names x cursor with
           | Some foundAt => toolOrderScan names rest (foundAt + 1)
           | None => Unmet x cursor
           end)
  /\ (exists o, outcomes = [o]
                 /\ (passed o = true <-> order `sublist_of` names))
  /\ (order `sublist_of` names ->
       outcomes = [ok ("Tool order: " +:+ join " → " order)])
  /\ (~ order `sublist_of` names ->
       exists pre e post cursor,
         order = pre ++ e :: post
         /\ toolOrderScan names pre 0 = Matched cursor
         /\ (forall k, cursor <= k -> names !! k <> Some e)
         /\ outcomes
            = [fail ("Tool order: expected " +:+ e +:+ " after position "
                     +:+ Number_toString (num_of_nat cursor) +:+ ", not found")])
  /\ map passed (evaluateGlobalAssertions (order_only ["search"; "book"])
                   (calls_named ["search"; "details"; "book"]) turns tokens)
     = [true]
  /\ map passed (evaluateGlobalAssertions (order_only ["search"; "book"])
                   (calls_named ["book"; "search"]) turns tokens)
     = [false].
Proof.
  intros names outcomes.
  assert (Hout : outcomes
                 = match toolOrderScan names order 0 with
                   | Unmet expected orderIndex =>
                       [fail ("Tool order: expected " +:+ expected
                              +:+ " after position "
                              +:+ Number_toString (num_of_nat orderIndex)
                              +:+ ", not found")]
                   | Matched _ => [ok ("Tool order: " +:+ join " → " order)]
                   end).
  { subst outcomes names. unfold evaluateGlobalAssertions; simpl.
    by rewrite app_nil_r. }
  pose proof (toolOrderScan_sublist names order 0) as Hsub.
  rewrite drop_0 in Hsub.
  split; [intros; apply indexOf_first|].
  split; [reflexivity|].
  split; [|split; [|split; [|split; reflexivity]]].
  - rewrite Hout. destruct (toolOrderScan names order 0) as [j|e j] eqn:E.
    + eexists; split; [reflexivity|]. simpl. split; [|done].
      intros _. apply Hsub. eauto.
    + eexists; split; [reflexivity|]. simpl. split; [done|].
      intros [j' ?]%Hsub. discriminate.
  - intros [j E]%Hsub. by rewrite Hout, E.
  - intros Hn. destruct (toolOrderScan names order 0) as [j|e j] eqn:E.
    + exfalso. apply Hn, Hsub. eauto.
    + apply toolOrderScan_unmet in E as (pre & post & -> & Hm & Hk).
      by exists pre, e, post, j.
Qed.
End ToolOrder.

(** ** Mock Resolver *)

Section MockFacts.
Context {N : Num} {R : Runtime}.
#[local] Arguments has_key : simpl never.
#[local] Arguments member : simpl never.












(** *** Totality *)

(** A predicate the Value Matcher evaluates without raising: the members
    it holds convert to primitives and the pattern it names compiles. *)
Definition predicate_evaluates (p : value) : Prop :=
  members_convert p = true
  /\ (has_key "matches" p = true ->
      returns (RegExp_new (ToString (member p "matches")))).

(** A condition whose predicate-map can be enumerated (it is not [null])
    and holds such predicates only. *)
Definition condition_evaluates (c : MockCondition) : Prop :=
  exists w,
    Object_entries (when c) = Ok w
    /\ Forall (fun kp => predicate_evaluates (snd kp)) w.

Definition rule_evaluates (m : MockDefinition) : Prop :=
  match conditions m with
  | Some cs => Forall condition_evaluates cs
  | None => True
  end.

Definition table_evaluates (stepMock : option (gmap string MockEntry)) : Prop :=
  forall table toolName m,
    stepMock = Some table -> table !! toolName = Some (MockDef m) ->
    rule_evaluates m.

(** The arguments of the call, as parsed (or the empty object when the
    text does not parse), are not [null], so that a key can be read, and
    their members convert to primitives. *)
Definition arguments_readable (call : ToolCall) : Prop :=
  match parseArgs (arguments (function call)) with
  | VNull | VUndefined => False
  | args => members_convert args = true
  end.

Lemma arguments_readable_not_null call :
  arguments_readable call ->
  match parseArgs (arguments (function call)) with
  | VNull | VUndefined => False
  | _ => True
  end.
Proof. unfold arguments_readable. by destruct (parseArgs _). Qed.

Lemma matchesArgValue_returns actual p :
  predicate_evaluates p -> returns (matchesArgValue actual p).
Proof.
  intros [_ H]. unfold matchesArgValue, returns.
  destruct p; eauto.
  destruct (has_key "equals" _); eauto.
  destruct (has_key "contains" _); eauto.
  destruct (has_key "matches" _).
  { destruct (H eq_refl) as [re ->]. simpl. eauto. }
  repeat match goal with
         | |- context [if ?b then _ else _] => destruct b; eauto
         end.
Qed.

Lemma argsMatchEntries_returns args w :
  match args with VNull | VUndefined => False | _ => True end ->
  Forall (fun kp => predicate_evaluates (snd kp)) w ->
  returns (argsMatchEntries args w).
Proof.
  intros Ha. induction 1 as [|[k p] rest Hp _ IH]; simpl; [by eexists|].
  assert (get args k = Ok (member args k)) as -> by (by destruct args).
  simpl. destruct (matchesArgValue_returns (member args k) p Hp) as [[] ->];
    simpl; [done|by eexists].
Qed.

Lemma argsMatchCondition_returns args c :
  match args with VNull | VUndefined => False | _ => True end ->
  condition_evaluates c ->
  returns (argsMatchCondition args (when c)).
Proof.
  intros Ha (w & Hw & Hp). unfold argsMatchCondition. rewrite Hw. simpl.
  by apply argsMatchEntries_returns.
Qed.

Lemma firstMatch_returns args cs :
  match args with VNull | VUndefined => False | _ => True end ->
  Forall condition_evaluates cs ->
  returns (firstMatch cs args).
Proof.
  intros Ha. induction 1 as [|c cs Hc _ IH]; simpl; [by eexists|].
  destruct (argsMatchCondition_returns args _ Ha Hc) as [[] ->]; simpl;
    [by eexists|done].
Qed.

Lemma resolveMockDefinition_returns mock args :
  match args with VNull | VUndefined => False | _ => True end ->
  rule_evaluates mock ->
  returns (resolveMockDefinition mock args).
Proof.
  intros Ha Hm. unfold resolveMockDefinition, rule_evaluates in *.
  destruct (truthy_string _); [by eexists|].
  destruct (conditions mock) as [[|c cs]|].
  - destruct (mock_return mock); by eexists.
  - destruct (firstMatch_returns args _ Ha Hm) as [[v|] ->]; simpl;
      [by eexists|]. destruct (default_ mock); by eexists.
  - destruct (mock_return mock); by eexists.
Qed.

Lemma resolveResponse_returns toolName args stepMock :
  match args with VNull | VUndefined => False | _ => True end ->
  table_evaluates stepMock ->
  returns (resolveResponse toolName args stepMock).
Proof.
  intros Ha Ht. unfold resolveResponse.
  destruct stepMock as [table|]; [|by eexists].
  destruct (table !! toolName) as [[m|v]|] eqn:E; try by eexists.
  destruct (is_MockDefinition m); [|by eexists].
  apply resolveMockDefinition_returns; [done|]. by eapply Ht.
Qed.

Lemma resolveCall_returns call stepMock :
  arguments_readable call -> table_evaluates stepMock ->
  exists response,
    resolveResponse (name (function call))
                    (parseArgs (arguments (function call))) stepMock
    = Ok response
    /\ resolveCall call stepMock = Ok (encode response).
Proof.
  intros Ha%arguments_readable_not_null Ht. unfold resolveCall.
  destruct (resolveResponse_returns (name (function call)) _ stepMock Ha Ht)
    as [response ->].
  by exists response.
Qed.

(** The map [resolveMocks] builds holds, for each call, the content
    computed for the last call with that id. *)
Lemma resolveMocks_from_lookup acc toolCalls stepMock results :
  resolveMocks_from acc toolCalls stepMock = Ok results ->
  (forall i call,
      toolCalls !! i = Some call ->
      (forall j later, i < j -> toolCalls !! j = Some later -> id later <> id call) ->
      exists content,
        resolveCall call stepMock = Ok content
        /\ results !! id call = Some content)
  /\ (forall k, (forall c, c ∈ toolCalls -> id c <> k) -> results !! k = acc !! k).
Proof.
  revert acc. induction toolCalls as [|call rest IH]; intros acc; simpl.
  - intros [= <-]. split; [by intros i call; rewrite lookup_nil|done].
  - destruct (resolveCall call stepMock) as [content|] eqn:E; simpl; [|done].
    intros (IH1 & IH2)%IH. split.
    + intros [|i] c Hc Hlater; simpl in Hc.
      * injection Hc as <-. exists content. split; [done|].
        rewrite IH2; [apply lookup_insert_eq|].
        intros later [j Hj]%list_elem_of_lookup_1.
        apply (Hlater (S j)); [lia|done].
      * apply (IH1 i); [done|]. intros j later Hj Hl.
        apply (Hlater (S j)); [lia|done].
    + intros k Hk. rewrite IH2.
      * apply lookup_insert_ne. apply Hk. by left.
      * intros c Hc. apply Hk. by right.
Qed.

Lemma resolveMocks_from_returns acc toolCalls stepMock :
  table_evaluates stepMock -> Forall arguments_readable toolCalls ->
  returns (resolveMocks_from acc toolCalls stepMock).
Proof.
  intros Ht Hc. revert acc.
  induction Hc as [|call rest Ha _ IH]; intros acc; simpl; [by eexists|].
  destruct (resolveCall_returns call stepMock Ha Ht) as (r & _ & ->). simpl.
  apply IH.
Qed.
End MockFacts.

Section MockTotality.
Context {N : Num} {R : Runtime}.

Lemma resolveMocks_one call stepMock :
  resolveMocks [call] stepMock
  = let* content := resolveCall call stepMock in Ok {[ id call := content ]}.
Proof.
  unfold resolveMocks. simpl.
  destruct (resolveCall call stepMock); simpl; [|done].
  by rewrite insert_empty.
Qed.

(** C2 (amended).  [resolveMocks] returns a map and does not raise, for
    every list of invocations and every rule shape, when the conditions of
    the step's mock table can be evaluated (no predicate-map is [null],
    every pattern named compiles, every predicate member converts to a
    primitive) and the arguments can be read (no argument text is the JSON
    text of [null], and the values of the arguments convert to primitives,
    which an object with a member named [toString] does not).  The map
    holds, for each invocation (the last one, among invocations sharing an
    id), the content that resolving that invocation alone gives; and an
    invocation whose argument text does not parse resolves as the same
    invocation with the empty object for arguments. *)
Theorem resolveMocks_total_when_conditions_evaluate
        (toolCalls : list ToolCall) (stepMock : option (gmap string MockEntry)) :
  table_evaluates stepMock ->
  Forall arguments_readable toolCalls ->
  exists results,
    resolveMocks toolCalls stepMock = Ok results
    /\ (forall i call,
           toolCalls !! i = Some call ->
           (forall j later,
               i < j -> toolCalls !! j = Some later -> id later <> id call) ->
           exists content,
             resolveMocks [call] stepMock = Ok {[ id call := content ]}
             /\ results !! id call = Some content)
    /\ (forall call call',
           throws (JSON_parse (arguments (function call))) ->
           JSON_parse (arguments (function call')) = Ok (VObj []) ->
           id call' = id call ->
           name (function call') = name (function call) ->
           resolveMocks [call'] stepMock = resolveMocks [call] stepMock).
Proof.
  intros Ht Hc.
  destruct (resolveMocks_from_returns ∅ toolCalls stepMock Ht Hc)
    as [results Hr].
  exists results. split; [exact Hr|].
  apply resolveMocks_from_lookup in Hr as [Hlook _]. split.
  - intros i call Hi Hlater.
    destruct (Hlook i call Hi Hlater) as (content & Hcall & Hres).
    exists content. split; [|done]. by rewrite resolveMocks_one, Hcall.
  - intros call call' [e He] Hempty Hid Hname.
    rewrite !resolveMocks_one. unfold resolveCall, parseArgs.
    by rewrite He, Hempty, Hid, Hname.
Qed.
End MockTotality.

(** ** Step assertions *)

Section StepAssertions.
Context {N : Num} {R : Runtime}.

(** The Outcomes of the [tool_calls] and [tool_calls_not] expectations. *)
Definition toolCallOutcomes (e : StepExpectation) (toolCalls : list ToolCall)
  : result (list AssertionResult) :=
  let* r_calls :=
    match tool_calls e with
    | Some tcs => evaluateToolCalls tcs toolCalls
    | None => Ok []
    end in
  Ok (r_calls
      ++ match tool_calls_not e with
         | Some nots => evaluateToolCallsNot nots toolCalls
         | None => []
         end).

Lemma evaluateStepAssertions_split e toolCalls reply :
  evaluateStepAssertions (Some e) toolCalls reply
  = let* t := toolCallOutcomes e toolCalls in
    let* r :=
      match response e, truthy_string reply with
      | Some expected, Some text => evaluateResponseAssertion expected text
      | Some _, None => Ok [fail "Expected a text response but got none"]
      | None, _ => Ok []
      end in
    Ok (t ++ r).
Proof.
  unfold evaluateStepAssertions, toolCallOutcomes.
  destruct (match tool_calls e with Some _ => _ | None => _ end); simpl; [|done].
  destruct (match response e with Some _ => _ | None => _ end); simpl; [|done].
  by rewrite app_assoc.
Qed.

(** The expectation [e] with its response expectation taken away. *)
Definition without_response (e : StepExpectation) : StepExpectation :=
  {| tool_calls := tool_calls e; tool_calls_not := tool_calls_not e;
     response := None |}.

(** With no invocation at all, no tool-call expectation can raise. *)
Lemma evaluateToolCalls_no_calls tcs :
  returns (evaluateToolCalls tcs []).
Proof.
  induction tcs as [|tc rest [rs IH]]; simpl; [by eexists|].
  rewrite IH. by eexists.
Qed.

(** Nor can the step's assertions, when there is no reply either. *)
Lemma evaluateStepAssertions_no_calls expect :
  returns (evaluateStepAssertions expect [] None).
Proof.
  destruct expect as [e|]; [|by eexists].
  rewrite evaluateStepAssertions_split. unfold toolCallOutcomes. simpl.
  destruct (tool_calls e) as [tcs|]; simpl.
  - destruct (evaluateToolCalls_no_calls tcs) as [rs ->]. simpl.
    destruct (response e); by eexists.
  - destruct (response e); by eexists.
Qed.

(** Declaring a response expectation adds one failing Outcome when there
    is no reply. *)
Lemma evaluateStepAssertions_without_reply e toolCalls reply checks :
  response e = Some checks -> truthy_string reply = None ->
  evaluateStepAssertions (Some e) toolCalls reply
  = let* others :=
      evaluateStepAssertions (Some (without_response e)) toolCalls reply in
    Ok (others ++ [{| passed := false;
                      message := "Expected a text response but got none" |}]).
Proof.
  intros Hr Ht. rewrite !evaluateStepAssertions_split. simpl.
  rewrite Hr, Ht. unfold toolCallOutcomes. simpl.
  destruct (match tool_calls e with Some _ => _ | None => _ end); simpl;
    [|done].
  by rewrite app_nil_r.
Qed.

(** C8.  With a response expectation declared and no text reply (none,
    or the empty text), [evaluateStepAssertions] answers with the Outcomes
    it gives for the same expectation without the response part, followed
    by exactly one Outcome, which is failed and reads [Expected a text
    response but got none], however many response checks are declared.
    With no response expectation declared the Outcomes are those of the
    [tool_calls] entries, in order, followed by those of [tool_calls_not],
    whatever the reply; an expectation that declares nothing yields no
    Outcome, and so does a step without an expectation. *)
Theorem response_outcome_without_reply
        (e : StepExpectation) (toolCalls : list ToolCall) (reply : option string) :
  (forall checks,
      response e = Some checks -> truthy_string reply = None ->
      evaluateStepAssertions (Some e) toolCalls reply
      = let* others :=
          evaluateStepAssertions (Some (without_response e)) toolCalls reply in
        Ok (others ++ [{| passed := false;
                          message := "Expected a text response but got none" |}]))
  /\ (response e = None ->
      evaluateStepAssertions (Some e) toolCalls reply
      = let* called :=
          match tool_calls e with
          | Some tcs => evaluateToolCalls tcs toolCalls
          | None => Ok []
          end in
        Ok (called ++ match tool_calls_not e with
                      | Some nots => evaluateToolCallsNot nots toolCalls
                      | None => []
                      end))
  /\ (tool_calls e = None -> tool_calls_not e = None -> response e = None ->
      evaluateStepAssertions (Some e) toolCalls reply = Ok [])
  /\ evaluateStepAssertions None toolCalls reply = Ok [].
Proof.
  split; [|split; [|split]].
  - intros checks Hr Ht. by apply (evaluateStepAssertions_without_reply _ _ _ checks).
  - intros Hr. rewrite evaluateStepAssertions_split, Hr. unfold toolCallOutcomes.
    destruct (match tool_calls e with Some _ => _ | None => _ end); simpl;
      [|done].
    by rewrite app_nil_r.
  - intros Hc Hn Hr. unfold evaluateStepAssertions. by rewrite Hc, Hn, Hr.
  - reflexivity.
Qed.
End StepAssertions.

(** ** Conversation Executor *)

Section ExecutorFacts.
Context {N : Num} {R : Runtime} {B : Boundaries}.
Local Open Scope exec_scope.

(** The locals a computation leaves behind, however it ends. *)
Definition final {A} (o : outcome A) : ExecState :=
  match o with Done _ s | Fault _ s => s end.

(** A computation that leaves a component of the state as it found it. *)
Definition keeps {X A} (f : ExecState -> X) (c : Exec A) : Prop :=
  forall s, f (final (c s)) = f s.

Lemma keeps_ret {X A} (f : ExecState -> X) (a : A) : keeps f (ret a).
Proof. by intros s. Qed.

Lemma keeps_lift {X A} (f : ExecState -> X) (r : result A) : keeps f (lift r).
Proof. intros s. by destruct r. Qed.

Lemma keeps_read {X A} (f : ExecState -> X) (g : ExecState -> A) :
  keeps f (read g).
Proof. by intros s. Qed.

Lemma keeps_modify {X} (f : ExecState -> X) (g : ExecState -> ExecState) :
  (forall s, f (g s) = f s) -> keeps f (modify g).
Proof. intros H s. apply H. Qed.

Lemma keeps_bind {X A C} (f : ExecState -> X) (c : Exec A) (k : A -> Exec C) :
  keeps f c -> (forall a, keeps f (k a)) -> keeps f (ebind c k).
Proof.
  intros Hc Hk s. unfold ebind. specialize (Hc s).
  destruct (c s) as [a s'|e s']; simpl in *; [|done].
  by rewrite Hk.
Qed.

Lemma keeps_push_messages {X} (f : ExecState -> X) ms :
  (forall m s, f (push_message m s) = f s) -> keeps f (push_messages ms).
Proof.
  intros H s. unfold push_messages, modify; simpl. revert s.
  induction ms as [|m ms IH]; intros s; simpl; [done|]. by rewrite IH.
Qed.

(** A component that only the end of a step or of the test writes. *)
Definition step_local {X} (f : ExecState -> X) : Prop :=
  (forall m s, f (push_message m s) = f s)
  /\ (forall cs s, f (push_allToolCalls cs s) = f s)
  /\ (forall n s, f (add_input n s) = f s)
  /\ (forall n s, f (add_output n s) = f s)
  /\ (forall s, f (incr_turns s) = f s)
  /\ (forall e s, f (push_event e s) = f s).

Lemma stepResults_step_local : step_local stepResults.
Proof. by repeat split. Qed.

Lemma globalAssertions_step_local : step_local globalAssertions.
Proof. by repeat split. Qed.

Ltac keeps_step :=
  repeat first
    [ apply keeps_ret | apply keeps_lift | apply keeps_read
    | apply keeps_push_messages; solve [auto]
    | apply keeps_modify; solve [auto]
    | apply keeps_bind; [|intros ?] ].

Lemma keeps_trackTokens {X} (f : ExecState -> X) completion :
  step_local f -> keeps f (trackTokens completion).
Proof.
  intros (H1 & H2 & H3 & H4 & H5 & H6). unfold trackTokens.
  destruct (usage completion); keeps_step.
Qed.

Lemma keeps_handleReply {X} (f : ExecState -> X) continue idx step tcs completion :
  step_local f -> (forall tcs', keeps f (continue tcs')) ->
  keeps f (handleReply continue idx step tcs completion).
Proof.
  intros Hf Hk. pose proof Hf as (H1 & H2 & H3 & H4 & H5 & H6).
  unfold handleReply, emit.
  apply keeps_bind; [by apply keeps_trackTokens|intros _].
  destruct (choices completion) as [|choice rest]; [apply keeps_lift|].
  destruct (msg_tool_calls (choice_message choice)) as [[|c cs]|].
  - destruct (truthy_string _); keeps_step. destruct (usage completion); keeps_step.
  - keeps_step; [destruct (usage completion); keeps_step|apply Hk].
  - destruct (truthy_string _); keeps_step. destruct (usage completion); keeps_step.
Qed.

Lemma keeps_stepLoop {X} (f : ExecState -> X) fuel idx step tcs :
  step_local f -> keeps f (stepLoop fuel idx step tcs).
Proof.
  intros Hf. pose proof Hf as (H1 & H2 & H3 & H4 & H5 & H6).
  revert tcs. induction fuel as [|fuel IH]; intros tcs; simpl.
  - apply keeps_ret.
  - unfold emit. do 5 (apply keeps_bind; [keeps_step|intros ?]).
    by apply keeps_handleReply.
Qed.
End ExecutorFacts.

Section Turns.
Context {N : Num} {R : Runtime} {B : Boundaries}.
Local Open Scope exec_scope.

Definition is_llm_call (e : ProgressEvent) : bool :=
  match e with step_llm_call _ => true | _ => false end.

(** The number of calls to the model boundary an event log records. *)
Definition llm_calls (log : list ProgressEvent) : nat :=
  length (List.filter is_llm_call log).

Definition no_tool_calls (m : ChatMessage) : Prop :=
  msg_tool_calls m = None \/ msg_tool_calls m = Some [].

(** The reply with the text of its first choice taken away ([null]). *)
Definition without_text (completion : ChatCompletionResponse)
  : ChatCompletionResponse :=
  {| choices :=
       match choices completion with
       | [] => []
       | choice :: rest =>
           let m := choice_message choice in
           {| choice_message :=
                {| role := role m; content := None;
                   msg_tool_calls := msg_tool_calls m;
                   tool_call_id := tool_call_id m |} |} :: rest
       end;
     usage := usage completion |}.

Lemma trackTokens_done completion s :
  exists s',
    trackTokens completion s = Done tt s'
    /\ messages s' = messages s /\ totalTurns s' = totalTurns s
    /\ events s' = events s /\ stepResults s' = stepResults s.
Proof.
  unfold trackTokens. destruct (usage completion); eexists; by split.
Qed.

Lemma push_messages_done ms s :
  exists s',
    push_messages ms s = Done tt s'
    /\ totalTurns s' = totalTurns s /\ events s' = events s.
Proof.
  unfold push_messages, modify. eexists. split; [reflexivity|].
  revert s. induction ms as [|m ms IH]; intros s; simpl; [done|].
  destruct (IH (push_message m s)) as [-> ->]. done.
Qed.

(** One iteration that receives nothing to record: the loop ends with no
    reply and the transcript as it was. *)
Lemma handleReply_nothing continue idx step tcs completion choice rest s :
  choices completion = choice :: rest ->
  no_tool_calls (choice_message choice) ->
  truthy_string (content (choice_message choice)) = None ->
  exists s',
    handleReply continue idx step tcs completion s = Done (tcs, None) s'
    /\ trackTokens completion s = Done tt s'.
Proof.
  intros Hc Hn Ht. unfold handleReply, ebind.
  destruct (trackTokens_done completion s) as (s' & -> & _).
  rewrite Hc. exists s'. split; [|done].
  destruct Hn as [-> | ->]; by rewrite Ht.
Qed.

End Turns.

Section TurnBound.
Context {N : Num} {R : Runtime} {B : Boundaries}.
Local Open Scope exec_scope.

(** The model boundary answers every call with tool invocations. *)
Definition always_tool_calls : Prop :=
  forall n ms,
  exists completion choice rest c cs,
    callLLM n ms = Ok completion
    /\ choices completion = choice :: rest
    /\ msg_tool_calls (choice_message choice) = Some (c :: cs).

(** The Mock Resolver resolves whatever the boundary asks of this step. *)
Definition mocks_resolve (step : TestStep) : Prop :=
  forall n ms completion choice rest calls,
    callLLM n ms = Ok completion ->
    choices completion = choice :: rest ->
    msg_tool_calls (choice_message choice) = Some calls ->
    returns (resolveMocks calls (mock step)).

Lemma addUserMessage_done step s :
  exists s',
    addUserMessage step s = Done tt s'
    /\ totalTurns s' = totalTurns s /\ events s' = events s
    /\ stepResults s' = stepResults s
    /\ globalAssertions s' = globalAssertions s.
Proof.
  unfold addUserMessage. destruct (truthy_string (user step)); eexists; by split.
Qed.

Lemma llm_calls_app l1 l2 : llm_calls (l1 ++ l2) = llm_calls l1 + llm_calls l2.
Proof. unfold llm_calls. by rewrite List.filter_app, length_app. Qed.

Lemma handleReply_tool_calls continue idx step tcs completion choice rest c cs m s :
  choices completion = choice :: rest ->
  msg_tool_calls (choice_message choice) = Some (c :: cs) ->
  resolveMocks (c :: cs) (mock step) = Ok m ->
  exists s',
    handleReply continue idx step tcs completion s
    = continue (tcs ++ c :: cs) s'
    /\ totalTurns s' = totalTurns s
    /\ llm_calls (events s') = llm_calls (events s)
    /\ stepResults s' = stepResults s.
Proof.
  intros Hc Htc Hm. unfold handleReply, ebind.
  destruct (trackTokens_done completion s) as (s1 & -> & _ & Ht1 & He1 & Hs1).
  rewrite Hc, Htc. unfold emit, modify, ret, lift. rewrite Hm.
  destruct (usage completion);
    match goal with
    | |- context [push_messages ?ms ?s0] =>
        destruct (push_messages_done ms s0) as (s2 & Hp & Ht2 & He2);
        pose proof (keeps_push_messages stepResults ms
                      ltac:(by intros) s0) as Hs2;
        rewrite Hp in *; simpl in Ht2, He2, Hs2
    end;
    (eexists; split; [reflexivity|]; simpl;
     rewrite Ht2, He2, Hs2, Ht1, He1, Hs1; simpl;
     rewrite !llm_calls_app; unfold llm_calls; simpl;
     split; [done|split; [lia|done]]).
Qed.

Lemma stepLoop_bounded idx step :
  always_tool_calls -> mocks_resolve step ->
  forall fuel tcs s,
  exists tcs' s',
    stepLoop fuel idx step tcs s = Done (tcs', None) s'
    /\ totalTurns s' = totalTurns s + fuel
    /\ llm_calls (events s') = llm_calls (events s) + fuel
    /\ stepResults s' = stepResults s.
Proof.
  intros Hllm Hmock. induction fuel as [|fuel IH]; intros tcs s.
  - exists tcs, s. simpl. repeat split; lia.
  - destruct (Hllm (S (totalTurns s)) (messages s))
      as (completion & choice & rest & c & cs & Hcall & Hc & Htc).
    destruct (Hmock _ _ _ _ _ _ Hcall Hc Htc) as [m Hm].
    simpl. unfold ebind at 1 2 3 4 5. simpl. rewrite Hcall. simpl.
    destruct (handleReply_tool_calls (stepLoop fuel idx step) idx step tcs
                completion choice rest c cs m
                (push_event (step_llm_call idx) (incr_turns s)) Hc Htc Hm)
      as (s1 & -> & Ht1 & He1 & Hs1).
    destruct (IH (tcs ++ c :: cs) s1) as (tcs' & s' & -> & Ht & He & Hs).
    exists tcs', s'. split; [done|].
    rewrite Ht, He, Hs, Ht1, He1, Hs1. simpl.
    rewrite llm_calls_app. unfold llm_calls. simpl. repeat split; lia.
Qed.

(** C5 (amended).  With a model boundary that returns tool invocations
    on every call, and provided the Mock Resolver resolves them without a
    fault, the step loop issues exactly [max_turns] calls and then stops
    without a fault and without a recorded reply.  A declared response
    expectation then fails through the Assertion Engine: the step's
    Outcomes end with the single failing response Outcome and the step is
    recorded as failed; the only fault the step can still end in is one
    raised while its tool-call expectations are evaluated. *)
Theorem turn_bound_is_silent (config : Config) (idx : nat) (step : TestStep) :
  always_tool_calls -> mocks_resolve step ->
  (forall tcs s,
      exists tcs' s',
        stepLoop (max_turns config) idx step tcs s = Done (tcs', None) s'
        /\ totalTurns s' = totalTurns s + max_turns config
        /\ llm_calls (events s') = llm_calls (events s) + max_turns config)
  /\ (forall s e checks,
         expect step = Some e -> response e = Some checks ->
         exists tcs s',
           final (runStep config idx step s) = s'
           /\ totalTurns s' = totalTurns s + max_turns config
           /\ llm_calls (events s') = llm_calls (events s) + max_turns config
           /\ match toolCallOutcomes e tcs with
              | Ok t =>
                  runStep config idx step s = Done tt s'
                  /\ stepResults s'
                     = stepResults s
                       ++ [{| stepIndex := idx; userMessage := user step;
                              assertions :=
                                t ++ [fail "Expected a text response but got none"];
                              toolCalls := tcs; assistantResponse := None;
                              step_passed := false |}]
              | Throw err => runStep config idx step s = Fault err s'
              end).
Proof.
  intros Hllm Hmock. split.
  - intros tcs s.
    destruct (stepLoop_bounded idx step Hllm Hmock (max_turns config) tcs s)
      as (tcs' & s' & H1 & H2 & H3 & _).
    by exists tcs', s'.
  - intros s e checks He Hr. unfold runStep, ebind.
    destruct (addUserMessage_done step s) as (s1 & -> & Ht1 & He1 & Hs1 & _).
    simpl.
    destruct (stepLoop_bounded idx step Hllm Hmock (max_turns config) []
                (push_event (step_start idx (user step)) s1))
      as (tcs & s2 & -> & Ht2 & He2 & Hs2).
    simpl in Ht2, He2, Hs2. rewrite llm_calls_app in He2.
    change (llm_calls [step_start idx (user step)]) with 0 in He2.
    exists tcs. rewrite He, evaluateStepAssertions_split, Hr. simpl.
    destruct (toolCallOutcomes e tcs) as [t|err]; simpl.
    + eexists. split; [reflexivity|]. simpl.
      rewrite Ht2, Ht1, llm_calls_app, He2, He1, Hs2, Hs1. simpl.
      assert (Hf : forallb passed
                     (t ++ [fail "Expected a text response but got none"])
                   = false)
        by (rewrite forallb_app; simpl; by rewrite andb_false_r).
      rewrite Hf. change (llm_calls [step_complete ?i ?r]) with 0.
      repeat split; lia.
    + eexists. split; [reflexivity|].
      rewrite Ht2, Ht1, He2, He1. repeat split; lia.
Qed.
End TurnBound.

Section Faults.
Context {N : Num} {R : Runtime} {B : Boundaries}.
Local Open Scope exec_scope.

(** A step writes [stepResults] once, at its very end. *)
Lemma runStep_stepResults config idx step s :
  match runStep config idx step s with
  | Done _ s' =>
      exists r, stepResults s' = stepResults s ++ [r] /\ stepIndex r = idx
  | Fault _ s' => stepResults s' = stepResults s
  end.
Proof.
  unfold runStep, ebind.
  destruct (addUserMessage_done step s) as (s1 & -> & _ & _ & Hs1 & _).
  simpl.
  pose proof (keeps_stepLoop stepResults (max_turns config) idx step []
                stepResults_step_local
                (push_event (step_start idx (user step)) s1)) as Hk.
  destruct (stepLoop _ _ _ _ _) as [[tcs reply] s2|e s2]; simpl in *;
    [|congruence].
  destruct (evaluateStepAssertions _ _ _) as [rs|e]; simpl; [|congruence].
  eexists. split; [by rewrite Hk, Hs1|done].
Qed.



(** The steps that take part in the step loop. *)
Definition taking_part (l : list TestStep) : list TestStep :=
  List.filter (fun step => negb (is_global_only step)) l.


Lemma startTest_outcome test config filePath :
  startTest test config filePath initialState
  = match resolveSystemPrompt (system_prompt test) config with
    | Ok systemPrompt =>
        Done tt (push_message
                   {| role := RSystem; content := Some systemPrompt;
                      msg_tool_calls := None; tool_call_id := None |}
                   (push_event (test_start filePath) initialState))
    | Throw e => Fault e (push_event (test_start filePath) initialState)
    end.
Proof.
  unfold startTest, ebind, emit, modify, lift.
  by destruct (resolveSystemPrompt _ _).
Qed.

End Faults.

(** ** More on the Assertion Engine *)

Section AssertionFacts.
Context {N : Num} {R : Runtime}.
#[local] Arguments has_key : simpl never.
#[local] Arguments member : simpl never.

(** The names of the invocations, in order. *)
Definition called_names (calls : list ToolCall) : list string :=
  map (fun c => name (function c)) calls.

(** The invocations of one tool, in order. *)
Definition named (x : string) (calls : list ToolCall) : list ToolCall :=
  filter (fun c => name (function c) = x) calls.

Lemma existsb_called x calls :
  existsb (fun c => String.eqb (name (function c)) x) calls = true
  <-> x ∈ called_names calls.
Proof.
  induction calls as [|c calls IH]; simpl.
  - split; [done|]. by intros ?%elem_of_nil.
  - rewrite orb_true_iff, IH, elem_of_cons, String.eqb_eq.
    split; (intros [H|H]; [left; by symmetry|by right]).
Qed.

Lemma named_nil x calls : named x calls = [] <-> x ∉ called_names calls.
Proof.
  unfold named. induction calls as [|c calls IH]; simpl.
  - split; [intros _; apply not_elem_of_nil|done].
  - rewrite filter_cons, not_elem_of_cons.
    destruct (decide (name (function c) = x)) as [E|E].
    + split; [done|]. by intros [? _].
    + rewrite IH. split; [intros ?; split; [congruence|done]|by intros [_ ?]].
Qed.

Lemma named_app x l1 l2 : named x (l1 ++ l2) = named x l1 ++ named x l2.
Proof. apply filter_app. Qed.

Lemma named_first x pre c post :
  name (function c) = x -> x ∉ called_names pre ->
  named x (pre ++ c :: post) = c :: named x post.
Proof.
  intros Hc Hpre. apply named_nil in Hpre. rewrite named_app, Hpre. simpl.
  unfold named. rewrite filter_cons. by destruct (decide _).
Qed.

(** X1.  [tool_calls_not] yields one Outcome per forbidden entry, in
    order, and the Outcome of an entry fails exactly when some invocation
    of the step carries its name: the arguments and the [count] an entry
    may declare are not looked at. *)
Theorem forbidden_tool_fails_iff_called
        (notExpected : list ToolCallAssertion) (actualCalls : list ToolCall) :
  let outcomes := evaluateToolCallsNot notExpected actualCalls in
  length outcomes = length notExpected
  /\ forall i forbidden,
       notExpected !! i = Some forbidden ->
       exists o,
         outcomes !! i = Some o
         /\ (passed o = false <-> tc_name forbidden ∈ called_names actualCalls).
Proof.
  intros outcomes. subst outcomes. unfold evaluateToolCallsNot. split.
  - apply length_map.
  - induction notExpected as [|n rest IH]; intros [|i] forbidden; simpl;
      try done.
    + intros [= ->]. eexists. split; [reflexivity|].
      rewrite <- existsb_called. by destruct (existsb _ _).
    + apply IH.
Qed.

(** X2.  An expected tool call yields the single failing Outcome
    [not called] exactly when no invocation of the step carries its name;
    the declared [count] and argument predicates are then not evaluated,
    so nothing can raise. *)
Theorem uncalled_tool_is_one_failing_outcome
        (expected : ToolCallAssertion) (actualCalls : list ToolCall) :
  tc_name expected ∉ called_names actualCalls
  <-> evaluateToolCallAssertion expected actualCalls
      = Ok [{| passed := false;
               message := "Expected tool call: " +:+ tc_name expected
                          +:+ " — not called" |}].
Proof.
  rewrite <- named_nil. unfold evaluateToolCallAssertion, named.
  destruct (filter _ actualCalls) as [|c rest]; [done|].
  split; [done|]. intros H. exfalso.
  destruct (args expected) as [a|]; [|by destruct (count expected)].
  destruct (JSON_parse _) as [parsed|]; [|by destruct (count expected)].
  destruct (checkArgs parsed a); [|done]. by destruct (count expected).
Qed.


(** X4.  When the argument text of the first invocation with the
    expected name is not JSON, the check does not raise: after the
    [Called] Outcome and the one for [count], if declared, it yields one
    failing Outcome and no Outcome per argument key.  When the text is the
    JSON text [null], though, reading the first expected key raises a
    TypeError. *)
Theorem unparsable_arguments_fail_the_check
        (expected : ToolCallAssertion) (c : ToolCall) (pre post : list ToolCall)
        (expectedArgs : list (string * value)) :
  name (function c) = tc_name expected ->
  tc_name expected ∉ called_names pre ->
  args expected = Some expectedArgs ->
  (throws (JSON_parse (arguments (function c))) ->
   exists counted,
     evaluateToolCallAssertion expected (pre ++ c :: post)
     = Ok ({| passed := true; message := "Called " +:+ tc_name expected |}
           :: counted
           ++ [{| passed := false;
                  message := tc_name expected
                             +:+ ": could not parse arguments as JSON" |}])
     /\ length counted = match count expected with Some _ => 1 | None => 0 end)
  /\ (forall key expectedValue rest,
         JSON_parse (arguments (function c)) = Ok VNull ->
         expectedArgs = (key, expectedValue) :: rest ->
         evaluateToolCallAssertion expected (pre ++ c :: post)
         = Throw (TypeError (TypeError_read VNull key))).
Proof.
  intros Hc Hpre Ha. unfold evaluateToolCallAssertion.
  fold (named (tc_name expected) (pre ++ c :: post)).
  rewrite named_first by done. rewrite Ha. split.
  - intros [e ->]. simpl. destruct (count expected); eexists; split; reflexivity.
  - intros key expectedValue rest -> ->. reflexivity.
Qed.

(** X5.  On an actual value and a predicate whose members convert to
    primitives, the only fault either matcher can raise is the one of
    compiling a pattern: [checkArgValue] raises exactly when the predicate
    is decided by [matches] in the Assertion Engine's order and the pattern
    does not compile, [matchesArgValue] exactly when [matches] decides in
    the Mock Resolver's order and the pattern does not compile. *)
Theorem matchers_raise_only_on_a_pattern (actual expected : value) (path : string) :
  convertible actual = true ->
  members_convert expected = true ->
  let pattern := RegExp_new (ToString (member expected "matches")) in
  (throws (checkArgValue actual expected path)
   <-> category expected = Some Matches /\ throws pattern)
  /\ (throws (matchesArgValue actual expected)
      <-> category_in_mocks expected = Some Matches /\ throws pattern).
Proof.
  intros _ _ pattern. subst pattern.
  assert (Hno : forall A (a : A), ~ throws (Ok a)) by (by intros A a [e ?]).
  unfold category, category_in_mocks, checkArgValue, matchesArgValue.
  cbn [find carries].
  destruct expected as [| |b|n|e|items|members];
    try (split; (split; [by intros ?%Hno|by intros [? _]])).
  set (p := VObj members).
  destruct (has_key "equals" p);
    [split; (split; [by intros ?%Hno|by intros [? _]])|].
  destruct (has_key "contains" p);
    [split; (split; [by intros ?%Hno|by intros [? _]])|].
  destruct (has_key "not_contains" p), (has_key "matches" p);
    repeat match goal with
           | |- _ /\ _ => split
           | |- _ <-> _ => split
           end;
    try (by intros ?%Hno); try (by intros [? _]);
    try (intros [e He]; split; [done|];
         destruct (RegExp_new _) as [re|e']; [discriminate|by eexists]);
    try (intros [_ [e ->]]; by eexists).
  all: first
    [ by intros [H _]; destruct (has_key "gte" p || has_key "lte" p)
    | intros H; exfalso; revert H;
      destruct (has_key "gte" p || has_key "lte" p); [|by intros ?%Hno];
      repeat match goal with
             | |- context [if ?b then _ else _] => destruct b
             end;
      by intros ?%Hno ].
Qed.






(** X7.  Evaluating a response expectation raises exactly when it
    declares a non-empty [matches] pattern that does not compile; an empty
    pattern is never compiled. *)
Theorem response_checks_raise_only_on_a_pattern
        (expected : ResponseAssertion) (actual : string) :
  throws (evaluateResponseAssertion expected actual)
  <-> exists pattern,
        truthy_string (matches expected) = Some pattern
        /\ throws (RegExp_new pattern).
Proof.
  unfold evaluateResponseAssertion.
  destruct (truthy_string (matches expected)) as [pattern|]; simpl.
  - destruct (RegExp_new pattern) as [re|e] eqn:E; simpl.
    + split; [by intros [? ?]|]. intros (p & [= <-] & [e He]). congruence.
    + split; [|by eexists]. intros _. exists pattern. split; [done|].
      rewrite E. by eexists.
  - split; [by intros [? ?]|]. by intros (p & ? & _).
Qed.
End AssertionFacts.

(** ** More on the whole-test tool order *)

Section ToolOrderFacts.
Context {N : Num} {R : Runtime}.

(** The verdict of the [tool_order] check: the first Outcome of a
    whole-test assertion that declares one. *)
Definition order_verdict (a : GlobalAssertion) (calls : list ToolCall)
           (turns tokens : number) : option bool :=
  passed <$> head (evaluateGlobalAssertions a calls turns tokens).

Lemma order_verdict_sublist a order calls turns tokens :
  tool_order a = Some order ->
  exists b, order_verdict a calls turns tokens = Some b
            /\ (b = true <-> order `sublist_of` called_names calls).
Proof.
  intros Ho. unfold order_verdict, evaluateGlobalAssertions. rewrite Ho.
  pose proof (toolOrderScan_sublist (map (fun c => name (function c)) calls)
                                    order 0) as Hsub.
  rewrite drop_0 in Hsub. unfold called_names.
  destruct (toolOrderScan _ order 0) as [j|e j] eqn:E; simpl;
    eexists; (split; [reflexivity|]).
  - split; [|done]. intros _. apply Hsub. eauto.
  - split; [done|]. intros [j' ?]%Hsub. discriminate.
Qed.

(** X8.  The [tool_order] verdict tolerates extra invocations: if it
    passes on a list of invocations it passes on every list that has those
    names as a subsequence, whatever the turn and token totals; it fails
    when fewer invocations were made than names are declared; and the
    empty order always passes. *)
Theorem tool_order_tolerates_extra_calls
        (a : GlobalAssertion) (order : list string) :
  tool_order a = Some order ->
  (forall calls calls' turns tokens turns' tokens',
      called_names calls `sublist_of` called_names calls' ->
      order_verdict a calls turns tokens = Some true ->
      order_verdict a calls' turns' tokens' = Some true)
  /\ (forall calls turns tokens,
         length calls < length order ->
         order_verdict a calls turns tokens = Some false)
  /\ (forall calls turns tokens,
         order = [] -> order_verdict a calls turns tokens = Some true).
Proof.
  intros Ho. repeat split.
  - intros calls calls' turns tokens turns' tokens' Hsub Hv.
    destruct (order_verdict_sublist a order calls turns tokens Ho)
      as (b & Hb & Hiff).
    destruct (order_verdict_sublist a order calls' turns' tokens' Ho)
      as (b' & -> & Hiff').
    f_equal. apply Hiff'. etrans; [|exact Hsub]. apply Hiff. congruence.
  - intros calls turns tokens Hlen.
    destruct (order_verdict_sublist a order calls turns tokens Ho)
      as (b & -> & Hiff).
    f_equal. destruct b; [|done]. exfalso.
    pose proof (sublist_length _ _ (proj1 Hiff eq_refl)) as Hl.
    unfold called_names in Hl. rewrite length_map in Hl. lia.
  - intros calls turns tokens ->.
    destruct (order_verdict_sublist a [] calls turns tokens Ho)
      as (b & -> & Hiff).
    f_equal. apply Hiff, sublist_nil_l.
Qed.
End ToolOrderFacts.

(** ** More on the Mock Resolver *)

Section MockKeys.
Context {N : Num} {R : Runtime}.

Lemma resolveMocks_from_keys acc toolCalls stepMock results k :
  resolveMocks_from acc toolCalls stepMock = Ok results ->
  is_Some (results !! k) <-> is_Some (acc !! k) \/ k ∈ map id toolCalls.
Proof.
  revert acc. induction toolCalls as [|call rest IH]; intros acc; simpl.
  - intros [= <-]. split; [by left|]. intros [?|?%elem_of_nil]; done.
  - destruct (resolveCall call stepMock) as [content|]; simpl; [|done].
    intros H. rewrite (IH _ H), lookup_insert_is_Some, elem_of_cons.
    destruct (decide (id call = k)) as [E|E]; split; intros Hk.
    + right. by left.
    + left. by left.
    + destruct Hk as [[?|[_ ?]]|?]; [done|by left|right; by right].
    + destruct Hk as [?|[?|?]]; [left; by right|congruence|by right].
Qed.

(** X9.  When [resolveMocks] returns, the map has an entry for the id
    of every invocation and for nothing else; so the executor's fallback
    content [{result: ok}] is used only for an invocation whose payload has
    no JSON text, never for a missing entry. *)
Theorem resolveMocks_answers_exactly_the_calls
        (toolCalls : list ToolCall) (stepMock : option (gmap string MockEntry))
        (results : gmap string (option string)) :
  resolveMocks toolCalls stepMock = Ok results ->
  (forall k, is_Some (results !! k) <-> k ∈ map id toolCalls)
  /\ (forall call,
         call ∈ toolCalls ->
         exists content,
           results !! id call = Some content
           /\ mockContent results call
              = match content with
                | Some text => Some text
                | None => JSON_stringify (VObj [("result", VStr "ok")])
                end).
Proof.
  intros H.
  assert (Hk : forall k, is_Some (results !! k) <-> k ∈ map id toolCalls).
  { intros k. rewrite (resolveMocks_from_keys _ _ _ _ k H), lookup_empty.
    split; [intros [[? ?]|?]; done|by right]. }
  split; [exact Hk|]. intros call Hc.
  destruct (proj2 (Hk (id call))) as [content Hcontent].
  { apply list_elem_of_fmap. by exists call. }
  exists content. split; [done|]. unfold mockContent. by rewrite Hcontent.
Qed.

(** A rule the arguments have no part in: one with an error message, or
    without conditions. *)
Definition unconditional (m : MockDefinition) : Prop :=
  truthy_string (mock_error m) <> None
  \/ conditions m = None \/ conditions m = Some [].

Definition table_unconditional (stepMock : option (gmap string MockEntry))
  : Prop :=
  forall table toolName m,
    stepMock = Some table -> table !! toolName = Some (MockDef m) ->
    unconditional m.

Lemma resolveResponse_unconditional toolName stepMock :
  table_unconditional stepMock ->
  exists response,
    forall args', resolveResponse toolName args' stepMock = Ok response.
Proof.
  intros Ht. unfold resolveResponse.
  destruct stepMock as [table|]; [|by eexists].
  destruct (table !! toolName) as [[m|v]|] eqn:E; try by eexists.
  destruct (is_MockDefinition m); [|by eexists].
  unfold resolveMockDefinition.
  destruct (Ht table toolName m eq_refl E) as [He|[Hc|Hc]].
  - destruct (truthy_string (mock_error m)); [by eexists|done].
  - rewrite Hc. destruct (truthy_string _), (mock_return m); by eexists.
  - rewrite Hc. destruct (truthy_string _), (mock_return m); by eexists.
Qed.

Lemma resolveMocks_from_unconditional acc calls calls' stepMock :
  table_unconditional stepMock ->
  map (fun c => (id c, name (function c))) calls
  = map (fun c => (id c, name (function c))) calls' ->
  returns (resolveMocks_from acc calls stepMock)
  /\ resolveMocks_from acc calls stepMock
     = resolveMocks_from acc calls' stepMock.
Proof.
  intros Ht. revert acc calls'.
  induction calls as [|c calls IH]; intros acc [|c' calls']; simpl; try done.
  - intros _. split; [by eexists|done].
  - intros [= Hid Hname Hrest]. unfold resolveCall. rewrite <- Hname, <- Hid.
    destruct (resolveResponse_unconditional (name (function c)) stepMock Ht)
      as [response Hr].
    rewrite !Hr. simpl. by apply IH.
Qed.

(** X10.  When no rule of the step's mock table has conditions to
    evaluate (each has an error message, or no condition list, or an empty
    one), [resolveMocks] never raises and its result does not depend on the
    argument texts: two call lists with the same ids and names resolve
    alike.  Without a table this holds for every call list. *)
Theorem unconditional_rules_ignore_arguments
        (stepMock : option (gmap string MockEntry))
        (calls calls' : list ToolCall) :
  table_unconditional stepMock ->
  map (fun c => (id c, name (function c))) calls
  = map (fun c => (id c, name (function c))) calls' ->
  returns (resolveMocks calls stepMock)
  /\ resolveMocks calls stepMock = resolveMocks calls' stepMock.
Proof. apply resolveMocks_from_unconditional. Qed.

(** X11.  Payloads of the rules that do not look at arguments, for the
    last invocation with a given id: a tool without an entry gets the
    [Mock not defined] payload, when there is no table at all or the
    tool's name is not one that every object inherits; a raw value (not an
    object with a [return], [error] or [conditions] member) gets itself
    encoded, a string as is; a rule with a non-empty error message gets the
    error payload whatever else it declares; a rule with a string [return]
    and no condition list gets that string as is. *)
Theorem payloads_of_direct_rules
        (toolCalls : list ToolCall) (stepMock : option (gmap string MockEntry))
        (results : gmap string (option string)) (i : nat) (call : ToolCall) :
  resolveMocks toolCalls stepMock = Ok results ->
  toolCalls !! i = Some call ->
  (forall j later, i < j -> toolCalls !! j = Some later -> id later <> id call) ->
  let entry := table ← stepMock; table !! name (function call) in
  (entry = None ->
   stepMock = None \/ inherited (name (function call)) = false ->
   results !! id call
   = Some (JSON_stringify
             (VObj [("result", VStr ("Mock not defined for tool: "
                                     +:+ name (function call)))])))
  /\ (forall v,
         entry = Some (MockRaw v) ->
         has_key "return" v || has_key "error" v || has_key "conditions" v
         = false ->
         results !! id call = Some (encode v))
  /\ (forall m e,
         entry = Some (MockDef m) -> truthy_string (mock_error m) = Some e ->
         results !! id call = Some (JSON_stringify (VObj [("error", VStr e)])))
  /\ (forall m text,
         entry = Some (MockDef m) -> truthy_string (mock_error m) = None ->
         conditions m = None -> mock_return m = Some (VStr text) ->
         results !! id call = Some (Some text)).
Proof.
  intros Hr Hi Hlater entry.
  destruct (proj1 (resolveMocks_from_lookup _ _ _ _ Hr) i call Hi Hlater)
    as (content & Hcall & ->).
  unfold resolveCall, resolveResponse in Hcall. subst entry.
  destruct stepMock as [table|]; simpl.
  - destruct (table !! name (function call)) as [[m|v]|]; simpl in *.
    + split; [done|]. split; [done|]. split.
      * intros m' e [= <-] He. unfold is_MockDefinition, resolveMockDefinition in Hcall.
        rewrite He in Hcall.
        destruct (mock_error m) as [e'|]; [|done].
        rewrite orb_true_r in Hcall. simpl in Hcall. congruence.
      * intros m' text [= <-] He Hc Hret.
        unfold is_MockDefinition, resolveMockDefinition in Hcall.
        rewrite He, Hc, Hret in Hcall. simpl in Hcall. congruence.
    + split; [done|]. split; [|split; done].
      intros v' [= <-] _. simpl in Hcall. congruence.
    + split; [|split; [done|split; done]]. intros _ _. simpl in Hcall. congruence.
  - split; [|split; [done|split; done]]. intros _ _. simpl in Hcall. congruence.
Qed.
End MockKeys.

(** ** More on the Conversation Executor *)

Section Progress.
Context {N : Num} {R : Runtime} {B : Boundaries}.
Local Open Scope exec_scope.

(** What a stretch of the executor may do to its locals: it takes at most
    [n] turns, each one an announced call to the model boundary, and it only
    appends to the transcript (no system entry), the call list, the step
    results, the whole-test Outcomes and the event log. *)
Definition progress (n : nat) (s s' : ExecState) : Prop :=
  exists k,
    k <= n
    /\ totalTurns s' = totalTurns s + k
    /\ llm_calls (events s') = llm_calls (events s) + k
    /\ (exists added,
           messages s' = messages s ++ added
           /\ Forall (fun m => role m <> RSystem) added)
    /\ allToolCalls s `prefix_of` allToolCalls s'
    /\ stepResults s `prefix_of` stepResults s'
    /\ globalAssertions s `prefix_of` globalAssertions s'
    /\ events s `prefix_of` events s'.

Definition advances {A} (n : nat) (c : Exec A) : Prop :=
  forall s, progress n s (final (c s)).

Lemma progress_refl s : progress 0 s s.
Proof.
  exists 0. repeat split; first [lia | done | idtac].
  exists []. by rewrite app_nil_r.
Qed.

Lemma progress_trans n m s s' s'' :
  progress n s s' -> progress m s' s'' -> progress (n + m) s s''.
Proof.
  intros (k & Hk & Ht & Hl & (a & Ha & Hr) & H2 & H3 & H4 & H5)
         (k' & Hk' & Ht' & Hl' & (a' & Ha' & Hr') & H2' & H3' & H4' & H5').
  exists (k + k'). repeat split; first [lia | by etrans | idtac].
  exists (a ++ a'). split; [by rewrite Ha', Ha, app_assoc|by apply Forall_app].
Qed.

Lemma progress_weaken n m s s' : n <= m -> progress n s s' -> progress m s s'.
Proof.
  intros Hle (k & Hk & H). exists k. split; [lia|exact H].
Qed.

Lemma advances_ret {A} (a : A) : advances 0 (ret a).
Proof. intros s. apply progress_refl. Qed.

Lemma advances_lift {A} (r : result A) : advances 0 (lift r).
Proof. intros s. destruct r; apply progress_refl. Qed.

Lemma advances_read {A} (g : ExecState -> A) : advances 0 (read g).
Proof. intros s. apply progress_refl. Qed.

Lemma advances_modify (g : ExecState -> ExecState) :
  (forall s, progress 0 s (g s)) -> advances 0 (modify g).
Proof. intros H s. apply H. Qed.

Lemma advances_bind {A C} n m (c : Exec A) (k : A -> Exec C) :
  advances n c -> (forall a, advances m (k a)) -> advances (n + m) (ebind c k).
Proof.
  intros Hc Hk s. unfold ebind. specialize (Hc s).
  destruct (c s) as [a s'|e s']; simpl in *.
  - eapply progress_trans; [exact Hc|apply Hk].
  - eapply progress_weaken; [|exact Hc]. lia.
Qed.

Lemma advances_weaken {A} n m (c : Exec A) :
  n <= m -> advances n c -> advances m c.
Proof. intros Hle Hc s. by eapply progress_weaken. Qed.

Lemma advances_then {A C} n (c : Exec A) (k : A -> Exec C) :
  advances n c -> (forall a, advances 0 (k a)) -> advances n (ebind c k).
Proof.
  intros Hc Hk. apply (advances_weaken (n + 0)); [lia|]. by apply advances_bind.
Qed.

Lemma llm_calls_snoc log e :
  llm_calls (log ++ [e]) = llm_calls log + (if is_llm_call e then 1 else 0).
Proof. rewrite llm_calls_app. unfold llm_calls; simpl. by destruct (is_llm_call e). Qed.

Ltac appended :=
  exists 0; simpl; repeat split;
  first [ lia | done | by apply prefix_app_r
        | rewrite llm_calls_snoc; simpl; lia
        | by exists []; rewrite app_nil_r ].

Lemma progress_push_message m s :
  role m <> RSystem -> progress 0 s (push_message m s).
Proof.
  intros Hm. exists 0; simpl. repeat split; first [lia | done | idtac].
  exists [m]. split; [done|by constructor].
Qed.

Lemma progress_push_allToolCalls cs s : progress 0 s (push_allToolCalls cs s).
Proof. appended. Qed.

Lemma progress_push_stepResult r s : progress 0 s (push_stepResult r s).
Proof. appended. Qed.

Lemma progress_push_globalAssertions rs s :
  progress 0 s (push_globalAssertions rs s).
Proof. appended. Qed.

Lemma progress_add_input n s : progress 0 s (add_input n s).
Proof. appended. Qed.

Lemma progress_add_output n s : progress 0 s (add_output n s).
Proof. appended. Qed.

Lemma progress_push_event e s :
  is_llm_call e = false -> progress 0 s (push_event e s).
Proof.
  intros He. exists 0; simpl. rewrite llm_calls_snoc, He.
  repeat split;
    first [lia | done | by apply prefix_app_r | by exists []; rewrite app_nil_r].
Qed.

Lemma progress_turn idx s :
  progress 1 s (push_event (step_llm_call idx) (incr_turns s)).
Proof.
  exists 1; simpl. rewrite llm_calls_snoc. simpl.
  repeat split;
    first [lia | done | by apply prefix_app_r | by exists []; rewrite app_nil_r].
Qed.

Create HintDb progress.
#[local] Hint Resolve progress_push_allToolCalls
  progress_push_stepResult progress_push_globalAssertions progress_add_input
  progress_add_output : progress.

Ltac advances_step :=
  repeat first
    [ apply advances_ret | apply advances_lift | apply advances_read
    | apply advances_modify; intros ?;
      first [ solve [auto with progress] | by apply progress_push_event
            | by apply progress_push_message ]
    | apply (advances_bind 0); [|intros ?] ].

Lemma advances_push_messages ms :
  Forall (fun m => role m <> RSystem) ms -> advances 0 (push_messages ms).
Proof.
  intros Hms s. unfold push_messages, modify; simpl. revert s.
  induction Hms as [|m ms Hm _ IH]; intros s; simpl; [apply progress_refl|].
  apply (progress_trans 0 0 _ (push_message m s));
    [by apply progress_push_message|apply IH].
Qed.

Lemma advances_trackTokens completion : advances 0 (trackTokens completion).
Proof. unfold trackTokens. destruct (usage completion); advances_step. Qed.

Lemma advances_handleReply n continue idx step tcs completion :
  (forall tcs', advances n (continue tcs')) ->
  advances n (handleReply continue idx step tcs completion).
Proof.
  intros Hk. unfold handleReply, emit.
  apply (advances_bind 0); [apply advances_trackTokens|intros _].
  destruct (choices completion) as [|choice rest];
    [eapply advances_weaken; [|apply advances_lift]; lia|].
  destruct (msg_tool_calls (choice_message choice)) as [[|c cs]|].
  - eapply advances_weaken; [apply Nat.le_0_l|].
    destruct (truthy_string _); advances_step.
    destruct (usage completion); advances_step.
  - do 4 (apply (advances_bind 0); [advances_step|intros ?]).
    + destruct (usage completion); advances_step.
    + apply (advances_bind 0); [apply advances_lift|intros ?].
      apply (advances_bind 0);
        [apply advances_push_messages, Forall_fmap, Forall_true; by intros|
         intros ?].
      apply (advances_bind 0); [advances_step|intros ?]. apply Hk.
  - eapply advances_weaken; [apply Nat.le_0_l|].
    destruct (truthy_string _); advances_step.
    destruct (usage completion); advances_step.
Qed.

Lemma advances_stepLoop fuel idx step tcs :
  advances fuel (stepLoop fuel idx step tcs).
Proof.
  revert tcs. induction fuel as [|fuel IH]; intros tcs; simpl.
  - apply advances_ret.
  - intros s. unfold ebind at 1 2. simpl.
    apply (progress_trans 1 fuel _ _ _ (progress_turn idx s)).
    revert s.
    assert (H : advances fuel
                  (let! turn := read totalTurns in
                   let! ms := read messages in
                   let! completion := lift (callLLM turn ms) in
                   handleReply (stepLoop fuel idx step) idx step tcs completion)).
    { do 3 (apply (advances_bind 0); [advances_step|intros ?]).
      by apply advances_handleReply. }
    intros s. apply H.
Qed.

Lemma advances_runStep config idx step :
  advances (max_turns config) (runStep config idx step).
Proof.
  unfold runStep, emit.
  apply (advances_bind 0).
  { unfold addUserMessage. destruct (truthy_string _); advances_step. }
  intros _. apply (advances_bind 0); [advances_step|intros _].
  apply advances_then; [apply advances_stepLoop|intros [tcs reply]].
  advances_step.
Qed.

Lemma advances_runSteps config idx l :
  advances (max_turns config * length (taking_part l)) (runSteps config idx l).
Proof.
  revert idx. induction l as [|step l IH]; intros idx; simpl.
  - rewrite Nat.mul_0_r. apply advances_ret.
  - unfold taking_part in *. simpl.
    destruct (is_global_only step); simpl.
    + apply (advances_bind 0); [apply advances_ret|intros _; apply IH].
    + rewrite Nat.mul_succ_r, Nat.add_comm.
      apply advances_bind; [apply advances_runStep|intros _; apply IH].
Qed.

Lemma advances_runGlobalAssertions l : advances 0 (runGlobalAssertions l).
Proof.
  induction l as [|step l IH]; simpl; [apply advances_ret|].
  apply (advances_bind 0); [|intros _; apply IH].
  destruct (assert step); advances_step.
Qed.

(** The part of the [try] block that follows the resolution of the
    instruction text. *)
Definition afterStart (test : TestDefinition) (config : Config)
           (filePath : string) : Exec TestResult :=
  runSteps config 0 (steps test) ;;!
  runGlobalAssertions (steps test) ;;!
  let! s := read (fun s => s) in
  ret {| result_name := test_name test; result_file := filePath;
         test_passed := forallb step_passed (stepResults s)
                        && forallb passed (globalAssertions s);
         result_steps := stepResults s;
         result_globalAssertions := globalAssertions s;
         totalTokens := num_add (totalInputTokens s) (totalOutputTokens s);
         result_error := None |}.

Lemma advances_afterStart test config filePath :
  advances (max_turns config * length (taking_part (steps test)))
           (afterStart test config filePath).
Proof.
  unfold afterStart.
  apply advances_then; [apply advances_runSteps|intros _].
  apply (advances_bind 0); [apply advances_runGlobalAssertions|intros _].
  advances_step.
Qed.

Lemma executeTest_try_start test config filePath :
  executeTest_try test config filePath initialState
  = match resolveSystemPrompt (system_prompt test) config with
    | Ok systemPrompt =>
        afterStart test config filePath
          (push_message {| role := RSystem; content := Some systemPrompt;
                           msg_tool_calls := None; tool_call_id := None |}
                        (push_event (test_start filePath) initialState))
    | Throw e => Fault e (push_event (test_start filePath) initialState)
    end.
Proof.
  unfold executeTest_try. unfold ebind at 1. rewrite startTest_outcome.
  by destruct (resolveSystemPrompt _ _).
Qed.

(** The state a test ends in: the one the resolution of the instruction
    text faulted in, or one reached from the transcript that holds the
    system entry alone. *)
Lemma executeTest_try_final test config filePath :
  let s0 := push_event (test_start filePath) initialState in
  match resolveSystemPrompt (system_prompt test) config with
  | Ok systemPrompt =>
      progress (max_turns config * length (taking_part (steps test)))
               (push_message {| role := RSystem; content := Some systemPrompt;
                                msg_tool_calls := None; tool_call_id := None |}
                             s0)
               (final (executeTest_try test config filePath initialState))
  | Throw _ => final (executeTest_try test config filePath initialState) = s0
  end.
Proof.
  intros s0. subst s0. rewrite executeTest_try_start.
  destruct (resolveSystemPrompt _ _) as [systemPrompt|]; [|reflexivity].
  apply advances_afterStart.
Qed.

Lemma executeTest_run_final test config filePath :
  snd (executeTest_run test config filePath)
  = final (executeTest_try test config filePath initialState).
Proof.
  unfold executeTest_run. by destruct (executeTest_try _ _ _ _).
Qed.

(** X12.  Over a whole test, however it ends, the turn counter equals
    the number of calls to the model boundary that were announced, and it
    is at most [max_turns] times the number of steps that take part; a
    test whose steps only carry whole-test assertions makes no call. *)
Theorem model_calls_are_bounded
        (test : TestDefinition) (config : Config) (filePath : string) :
  let s := snd (executeTest_run test config filePath) in
  totalTurns s = llm_calls (events s)
  /\ totalTurns s <= max_turns config * length (taking_part (steps test)).
Proof.
  intros s. subst s. rewrite executeTest_run_final.
  pose proof (executeTest_try_final test config filePath) as H. simpl in H.
  destruct (resolveSystemPrompt _ _) as [systemPrompt|].
  - destruct H as (k & Hk & Ht & Hl & _).
    rewrite Ht, Hl. simpl. split; [done|lia].
  - rewrite H. simpl. split; [done|lia].
Qed.

(** X13.  A step, however it ends, only appends to the transcript, to
    the list of tool calls, to the step results and to the event log, and
    it takes between zero and [max_turns] turns. *)
Theorem step_only_appends (config : Config) (idx : nat) (step : TestStep)
        (s : ExecState) :
  let s' := final (runStep config idx step s) in
  totalTurns s <= totalTurns s' <= totalTurns s + max_turns config
  /\ messages s `prefix_of` messages s'
  /\ allToolCalls s `prefix_of` allToolCalls s'
  /\ stepResults s `prefix_of` stepResults s'
  /\ events s `prefix_of` events s'.
Proof.
  intros s'. subst s'.
  destruct (advances_runStep config idx step s)
    as (k & Hk & Ht & _ & (added & H1 & _) & H2 & H3 & _ & H5).
  repeat split; first [lia | done | by exists added].
Qed.

(** X27.  When the instruction text resolves, the transcript of the
    test begins with the system entry that holds it, however the test
    ends, and no other system entry follows. *)
Theorem transcript_starts_with_the_instruction
        (test : TestDefinition) (config : Config) (filePath : string)
        (systemPrompt : string) :
  resolveSystemPrompt (system_prompt test) config = Ok systemPrompt ->
  exists rest,
    messages (snd (executeTest_run test config filePath))
    = {| role := RSystem; content := Some systemPrompt;
         msg_tool_calls := None; tool_call_id := None |} :: rest
    /\ Forall (fun m => role m <> RSystem) rest.
Proof.
  intros Hp. rewrite executeTest_run_final.
  pose proof (executeTest_try_final test config filePath) as H. simpl in H.
  rewrite Hp in H. destruct H as (k & _ & _ & _ & (added & -> & Hadded) & _).
  by exists added.
Qed.
End Progress.

Section Transitions.
Context {N : Num} {R : Runtime} {B : Boundaries}.
Local Open Scope exec_scope.

(** Two states with the same history: they may differ in the token
    counters only. *)
Definition same_history (s s' : ExecState) : Prop :=
  messages s' = messages s /\ allToolCalls s' = allToolCalls s
  /\ stepResults s' = stepResults s /\ globalAssertions s' = globalAssertions s
  /\ totalTurns s' = totalTurns s /\ events s' = events s.

Lemma trackTokens_quiet completion s :
  exists s', trackTokens completion s = Done tt s' /\ same_history s s'.
Proof.
  unfold trackTokens, same_history.
  destruct (usage completion); eexists; by split.
Qed.

Lemma push_messages_spec ms s :
  exists s',
    push_messages ms s = Done tt s'
    /\ messages s' = messages s ++ ms /\ allToolCalls s' = allToolCalls s
    /\ stepResults s' = stepResults s /\ globalAssertions s' = globalAssertions s
    /\ totalTurns s' = totalTurns s /\ events s' = events s.
Proof.
  unfold push_messages, modify. eexists. split; [reflexivity|].
  revert s. induction ms as [|m ms IH]; intros s; simpl.
  - by rewrite app_nil_r.
  - destruct (IH (push_message m s)) as (-> & -> & -> & -> & -> & ->).
    simpl. by rewrite <- app_assoc.
Qed.

(** One iteration of the step loop, from the state it starts in. *)
Lemma stepLoop_turn fuel idx step tcs s :
  stepLoop (S fuel) idx step tcs s
  = match callLLM (S (totalTurns s)) (messages s) with
    | Ok completion =>
        handleReply (stepLoop fuel idx step) idx step tcs completion
                    (push_event (step_llm_call idx) (incr_turns s))
    | Throw e => Fault e (push_event (step_llm_call idx) (incr_turns s))
    end.
Proof. simpl. unfold ebind at 1 2 3 4 5. simpl. by destruct (callLLM _ _). Qed.

(** The entry the transcript gets for a reply that carries invocations. *)
Definition assistant_calls (msg : ChatMessage) (calls : list ToolCall)
  : ChatMessage :=
  {| role := RAssistant; content := content msg;
     msg_tool_calls := Some calls; tool_call_id := None |}.

(** The entry the transcript gets for a text reply. *)
Definition assistant_text (text : string) : ChatMessage :=
  {| role := RAssistant; content := Some text; msg_tool_calls := None;
     tool_call_id := None |}.

Lemma handleReply_tool_turn continue idx step tcs completion choice rest c cs m s :
  choices completion = choice :: rest ->
  msg_tool_calls (choice_message choice) = Some (c :: cs) ->
  resolveMocks (c :: cs) (mock step) = Ok m ->
  exists s',
    handleReply continue idx step tcs completion s
    = continue (tcs ++ c :: cs) s'
    /\ messages s'
       = messages s ++ assistant_calls (choice_message choice) (c :: cs)
                       :: map (tool_message m) (c :: cs)
    /\ allToolCalls s' = allToolCalls s ++ c :: cs
    /\ stepResults s' = stepResults s
    /\ globalAssertions s' = globalAssertions s
    /\ totalTurns s' = totalTurns s
    /\ events s' = events s ++ [step_tool_calls idx (called_names (c :: cs));
                                step_mock_inject idx].
Proof.
  intros Hc Htc Hm. unfold handleReply, ebind.
  destruct (trackTokens_quiet completion s)
    as (s1 & -> & Hm1 & Ha1 & Hs1 & Hg1 & Ht1 & He1).
  rewrite Hc, Htc. unfold emit, modify, ret, lift. rewrite Hm.
  destruct (usage completion);
    match goal with
    | |- context [push_messages ?ms ?s0] =>
        destruct (push_messages_spec ms s0)
          as (s2 & -> & Hm2 & Ha2 & Hs2 & Hg2 & Ht2 & He2)
    end;
    (eexists; split; [reflexivity|]; simpl;
     rewrite Hm2, Ha2, Hs2, Hg2, Ht2, He2; simpl;
     rewrite Hm1, Ha1, Hs1, Hg1, Ht1, He1;
     rewrite <- !app_assoc; by repeat split).
Qed.

Lemma handleReply_mock_fault continue idx step tcs completion choice rest c cs e s :
  choices completion = choice :: rest ->
  msg_tool_calls (choice_message choice) = Some (c :: cs) ->
  resolveMocks (c :: cs) (mock step) = Throw e ->
  exists s', handleReply continue idx step tcs completion s = Fault e s'.
Proof.
  intros Hc Htc Hm. unfold handleReply, ebind.
  destruct (trackTokens_quiet completion s) as (s1 & -> & _).
  rewrite Hc, Htc. unfold emit, modify, ret, lift. rewrite Hm.
  destruct (usage completion); by eexists.
Qed.

Lemma handleReply_text continue idx step tcs completion choice rest text s :
  choices completion = choice :: rest ->
  no_tool_calls (choice_message choice) ->
  truthy_string (content (choice_message choice)) = Some text ->
  exists s',
    handleReply continue idx step tcs completion s = Done (tcs, Some text) s'
    /\ messages s' = messages s ++ [assistant_text text]
    /\ allToolCalls s' = allToolCalls s
    /\ stepResults s' = stepResults s
    /\ globalAssertions s' = globalAssertions s
    /\ totalTurns s' = totalTurns s
    /\ events s' = events s.
Proof.
  intros Hc Hn Ht. unfold handleReply, ebind.
  destruct (trackTokens_quiet completion s)
    as (s1 & -> & Hm1 & Ha1 & Hs1 & Hg1 & Ht1 & He1).
  rewrite Hc.
  destruct Hn as [-> | ->]; rewrite Ht; unfold modify, ret;
    destruct (usage completion); (eexists; split; [reflexivity|]); simpl;
    by rewrite Hm1, Ha1, Hs1, Hg1, Ht1, He1.
Qed.

(** How an iteration that ends normally went: through the rest of the
    loop after a reply with invocations, or straight out of it. *)
Lemma handleReply_done continue idx step tcs completion s tcs' reply s' :
  handleReply continue idx step tcs completion s = Done (tcs', reply) s' ->
  (exists calls s1,
      continue (tcs ++ calls) s1 = Done (tcs', reply) s'
      /\ allToolCalls s1 = allToolCalls s ++ calls)
  \/ (tcs' = tcs /\ allToolCalls s' = allToolCalls s).
Proof.
  intros H.
  destruct (choices completion) as [|choice rest] eqn:Hc.
  { unfold handleReply, ebind in H.
    destruct (trackTokens_quiet completion s) as (s1 & Htr & _).
    rewrite Htr, Hc in H. discriminate. }
  destruct (msg_tool_calls (choice_message choice)) as [[|c cs]|] eqn:Htc.
  2:{ destruct (resolveMocks (c :: cs) (mock step)) as [m|e] eqn:Hm.
      - destruct (handleReply_tool_turn continue idx step tcs completion choice
                    rest c cs m s Hc Htc Hm) as (s1 & Hk & _ & Ha & _).
        left. exists (c :: cs), s1. split; [congruence|done].
      - destruct (handleReply_mock_fault continue idx step tcs completion choice
                    rest c cs e s Hc Htc Hm) as (s1 & Hk).
        congruence. }
  all: assert (Hn : no_tool_calls (choice_message choice))
         by (unfold no_tool_calls; auto);
       right;
       destruct (truthy_string (content (choice_message choice)))
         as [text|] eqn:Ht;
       [ destruct (handleReply_text continue idx step tcs completion choice
                     rest text s Hc Hn Ht) as (s1 & Hk & _ & Ha & _);
         rewrite Hk in H; injection H as <- <- <-; by split
       | destruct (handleReply_nothing continue idx step tcs completion choice
                     rest s Hc Hn Ht) as (s1 & Hk & Htr);
         destruct (trackTokens_quiet completion s) as (s2 & Htr' & _ & Ha & _);
         rewrite Hk in H; injection H as <- <- <-;
         split; [done|congruence] ].
Qed.

(** A step's own call list is what it added to the list of the test. *)
Lemma stepLoop_done fuel idx step tcs s tcs' reply s' :
  stepLoop fuel idx step tcs s = Done (tcs', reply) s' ->
  exists delta,
    tcs' = tcs ++ delta /\ allToolCalls s' = allToolCalls s ++ delta.
Proof.
  revert tcs s. induction fuel as [|fuel IH]; intros tcs s.
  - simpl. intros [= <- <- <-]. exists []. by rewrite !app_nil_r.
  - rewrite stepLoop_turn.
    destruct (callLLM _ _) as [completion|]; [|done].
    intros [(calls & s1 & Hk & Ha)|[-> Ha]]%handleReply_done.
    + apply IH in Hk as (delta & -> & ->). exists (calls ++ delta).
      rewrite Ha. simpl. by rewrite !app_assoc.
    + exists []. rewrite Ha. simpl. by rewrite !app_nil_r.
Qed.

Lemma addUserMessage_quiet step s :
  exists s',
    addUserMessage step s = Done tt s'
    /\ allToolCalls s' = allToolCalls s /\ stepResults s' = stepResults s
    /\ globalAssertions s' = globalAssertions s.
Proof.
  unfold addUserMessage. destruct (truthy_string (user step)); eexists; by split.
Qed.

(** What a step that ends normally leaves behind. *)
Lemma runStep_done config idx step s s' :
  runStep config idx step s = Done tt s' ->
  exists tcs reply rs,
    evaluateStepAssertions (expect step) tcs reply = Ok rs
    /\ stepResults s'
       = stepResults s
         ++ [{| stepIndex := idx; userMessage := user step; assertions := rs;
                toolCalls := tcs; assistantResponse := reply;
                step_passed := forallb passed rs |}]
    /\ allToolCalls s' = allToolCalls s ++ tcs
    /\ globalAssertions s' = globalAssertions s.
Proof.
  unfold runStep, ebind.
  destruct (addUserMessage_quiet step s) as (s1 & -> & Ha1 & Hs1 & Hg1).
  simpl.
  pose proof (keeps_stepLoop stepResults (max_turns config) idx step []
                stepResults_step_local
                (push_event (step_start idx (user step)) s1)) as Hks.
  pose proof (keeps_stepLoop globalAssertions (max_turns config) idx step []
                globalAssertions_step_local
                (push_event (step_start idx (user step)) s1)) as Hkg.
  destruct (stepLoop _ _ _ _ _) as [[tcs reply] s2|e s2] eqn:Hloop; [|done].
  apply stepLoop_done in Hloop as (delta & Hd & Ha2). simpl in Hd, Ha2, Hks, Hkg.
  subst tcs.
  destruct (evaluateStepAssertions _ _ _) as [rs|e] eqn:Hrs; simpl; [|done].
  intros [= <-]. exists delta, reply, rs. simpl.
  rewrite Hks, Hkg, Ha2, Hs1, Hg1, Ha1. by repeat split.
Qed.
End Transitions.

Section Results.
Context {N : Num} {R : Runtime} {B : Boundaries}.
Local Open Scope exec_scope.

(** The indices of the steps that take part in the step loop, counted
    from [idx]. *)
Fixpoint participants (idx : nat) (l : list TestStep) : list nat :=
  match l with
  | [] => []
  | step :: rest =>
      (if is_global_only step then [] else [idx]) ++ participants (S idx) rest
  end.

(** The Outcomes of the whole-test assertions of the steps, in step
    order, on given totals. *)
Definition wholeTestOutcomes (l : list TestStep) (calls : list ToolCall)
           (turns tokens : number) : list AssertionResult :=
  flat_map (fun step => match assert step with
                        | Some a => evaluateGlobalAssertions a calls turns tokens
                        | None => []
                        end) l.

Definition sound_record (st : StepResult) : Prop :=
  step_passed st = forallb passed (assertions st).

Lemma forallb_Forall {A} (f : A -> bool) (l : list A) :
  forallb f l = true <-> Forall (fun x => f x = true) l.
Proof.
  induction l as [|x l IH]; simpl; [by split|].
  by rewrite andb_true_iff, Forall_cons, IH.
Qed.

Lemma runSteps_calls config idx l s s' :
  runSteps config idx l s = Done tt s' ->
  allToolCalls s = concat (map toolCalls (stepResults s)) ->
  allToolCalls s' = concat (map toolCalls (stepResults s'))
  /\ map stepIndex (stepResults s')
     = map stepIndex (stepResults s) ++ participants idx l
  /\ globalAssertions s' = globalAssertions s.
Proof.
  revert idx s. induction l as [|step l IH]; intros idx s; simpl.
  - intros [= <-] H. by rewrite app_nil_r.
  - unfold ebind. destruct (is_global_only step); simpl.
    + apply IH.
    + destruct (runStep config idx step s) as [[] s1|e s1] eqn:Hrun; [|done].
      apply runStep_done in Hrun as (tcs & reply & rs & _ & Hs & Ha & Hg).
      intros Hrest Hinv.
      destruct (IH _ _ Hrest) as (H1 & H2 & H3).
      { rewrite Ha, Hs, Hinv, map_app, concat_app. simpl. by rewrite app_nil_r. }
      rewrite H1, H2, H3, Hs, Hg, map_app, <- app_assoc. by repeat split.
Qed.

Lemma runSteps_records config idx l s :
  Forall sound_record (stepResults s) ->
  Forall sound_record (stepResults (final (runSteps config idx l s))).
Proof.
  revert idx s. induction l as [|step l IH]; intros idx s; simpl; [done|].
  unfold ebind. destruct (is_global_only step); simpl; [apply IH|].
  pose proof (runStep_stepResults config idx step s) as Hf.
  destruct (runStep config idx step s) as [[] s1|e s1] eqn:Hrun.
  - apply runStep_done in Hrun as (tcs & reply & rs & _ & Hs & _).
    intros H. apply IH. rewrite Hs. apply Forall_app. split; [done|].
    by repeat constructor.
  - simpl. by rewrite Hf.
Qed.

Lemma push_globalAssertions_twice rs1 rs2 s :
  push_globalAssertions rs2 (push_globalAssertions rs1 s)
  = push_globalAssertions (rs1 ++ rs2) s.
Proof. unfold push_globalAssertions; simpl. by rewrite app_assoc. Qed.

Lemma runGlobalAssertions_spec l s :
  exists s',
    runGlobalAssertions l s = Done tt s'
    /\ globalAssertions s'
       = globalAssertions s
         ++ wholeTestOutcomes l (allToolCalls s) (num_of_nat (totalTurns s))
              (num_add (totalInputTokens s) (totalOutputTokens s))
    /\ messages s' = messages s /\ allToolCalls s' = allToolCalls s
    /\ stepResults s' = stepResults s /\ totalTurns s' = totalTurns s
    /\ totalInputTokens s' = totalInputTokens s
    /\ totalOutputTokens s' = totalOutputTokens s
    /\ events s' = events s.
Proof.
  revert s. induction l as [|step l IH]; intros s; simpl.
  - exists s. unfold wholeTestOutcomes; simpl. by rewrite app_nil_r.
  - unfold ebind, wholeTestOutcomes. simpl. destruct (assert step) as [a|]; simpl.
    + destruct (IH (push_globalAssertions
                      (evaluateGlobalAssertions a (allToolCalls s)
                         (num_of_nat (totalTurns s))
                         (num_add (totalInputTokens s) (totalOutputTokens s)))
                      s))
        as (s' & -> & Hg & H). simpl in Hg, H.
      exists s'. split; [done|]. split; [|exact H].
      rewrite Hg. by rewrite <- app_assoc.
    + apply IH.
Qed.

Lemma executeTest_try_done test config filePath r s :
  executeTest_try test config filePath initialState = Done r s ->
  allToolCalls s = concat (map toolCalls (result_steps r))
  /\ result_globalAssertions r
     = wholeTestOutcomes (steps test) (allToolCalls s)
         (num_of_nat (totalTurns s)) (totalTokens r)
  /\ map stepIndex (result_steps r) = participants 0 (steps test)
  /\ result_error r = None.
Proof.
  unfold executeTest_try, ebind. rewrite startTest_outcome.
  destruct (resolveSystemPrompt _ _) as [systemPrompt|]; [|done].
  destruct (runSteps config 0 (steps test) _) as [[] s1|] eqn:Hrun; [|done].
  apply runSteps_calls in Hrun as (Hcalls & Hidx & Hg); [|done].
  simpl in Hidx, Hg.
  destruct (runGlobalAssertions_spec (steps test) s1)
    as (s2 & -> & Hg2 & Hm2 & Ha2 & Hs2 & Ht2 & Hi2 & Ho2 & He2).
  unfold read, ret. intros [= <- <-]. simpl.
  rewrite Hg2, Hg, Ha2, Hs2, Ht2, Hi2, Ho2. by repeat split.
Qed.

(** X14.  In a run without fault the Result has one step entry for
    each step that takes part, carrying the step's index in the test; the
    list of tool calls is the concatenation of the steps' lists; and every
    whole-test assertion, whichever step declares it, is evaluated after
    all steps, against that list, the final turn count and the token total
    of the Result. *)
Theorem whole_test_assertions_see_the_whole_test
        (test : TestDefinition) (config : Config) (filePath : string) :
  let r := fst (executeTest_run test config filePath) in
  let s := snd (executeTest_run test config filePath) in
  result_error r = None ->
  map stepIndex (result_steps r) = participants 0 (steps test)
  /\ allToolCalls s = concat (map toolCalls (result_steps r))
  /\ result_globalAssertions r
     = wholeTestOutcomes (steps test)
         (concat (map toolCalls (result_steps r)))
         (num_of_nat (totalTurns s)) (totalTokens r).
Proof.
  unfold executeTest_run.
  destruct (executeTest_try test config filePath initialState)
    as [r' s'|e s'] eqn:Htry; simpl; [|done].
  intros _.
  apply executeTest_try_done in Htry as (Ha & Hg & Hi & _).
  rewrite <- Ha. by repeat split.
Qed.

Lemma executeTest_records test config filePath :
  Forall sound_record (result_steps (executeTest test config filePath)).
Proof.
  unfold executeTest, executeTest_run.
  assert (H : Forall sound_record
                (stepResults
                   (final (executeTest_try test config filePath initialState)))).
  { unfold executeTest_try, ebind. rewrite startTest_outcome.
    destruct (resolveSystemPrompt _ _) as [systemPrompt|]; [|by constructor].
    match goal with
    | |- context [runSteps config 0 (steps test) ?s0] =>
        pose proof (runSteps_records config 0 (steps test) s0
                      ltac:(by constructor)) as Hrec;
        destruct (runSteps config 0 (steps test) s0) as [[] s1|e s1]
    end; simpl in *; [|done].
    destruct (runGlobalAssertions_spec (steps test) s1)
      as (s2 & -> & _ & _ & _ & Hs2 & _).
    simpl. by rewrite Hs2. }
  destruct (executeTest_try test config filePath initialState) as [r s|e s] eqn:E;
    simpl in *; [|done].
  unfold executeTest_try, ebind in E.
  destruct (startTest _ _ _ _) as [[] s0|]; [|done].
  destruct (runSteps _ _ _ _) as [[] s1|]; [|done].
  destruct (runGlobalAssertions _ _) as [[] s2|]; [|done].
  unfold read, ret in E. injection E as <- <-. done.
Qed.

(** X15.  A Result is passed exactly when the run had no fault and
    every Outcome of every step and every whole-test Outcome passed (a
    test without Outcomes passes if it does not fault); and each step
    entry is passed exactly when all its Outcomes passed. *)
Theorem test_passes_iff_every_outcome_passes
        (test : TestDefinition) (config : Config) (filePath : string) :
  let r := executeTest test config filePath in
  (test_passed r = true
   <-> result_error r = None
       /\ Forall (fun st => Forall (fun o => passed o = true) (assertions st))
                 (result_steps r)
       /\ Forall (fun o => passed o = true) (result_globalAssertions r))
  /\ Forall (fun st => step_passed st = true
                       <-> Forall (fun o => passed o = true) (assertions st))
            (result_steps r).
Proof.
  intros r.
  assert (Hrec : Forall (fun st => step_passed st = true
                                   <-> Forall (fun o => passed o = true)
                                              (assertions st))
                        (result_steps r)).
  { eapply Forall_impl; [apply executeTest_records|].
    intros st Hst. by rewrite Hst, forallb_Forall. }
  split; [|exact Hrec].
  assert (Hsteps : forallb step_passed (result_steps r) = true
                   <-> Forall (fun st => Forall (fun o => passed o = true)
                                                (assertions st))
                              (result_steps r)).
  { rewrite forallb_Forall. clear -Hrec.
    induction Hrec as [|st l Hst _ IH]; [by split|].
    by rewrite !Forall_cons, IH, Hst. }
  revert Hsteps. subst r. unfold executeTest, executeTest_run.
  destruct (executeTest_try test config filePath initialState) as [r s|e s] eqn:E;
    simpl.
  - unfold executeTest_try, ebind in E.
    destruct (startTest _ _ _ _) as [[] s0|]; [|done].
    destruct (runSteps _ _ _ _) as [[] s1|]; [|done].
    destruct (runGlobalAssertions _ _) as [[] s2|]; [|done].
    unfold read, ret in E. injection E as <- <-. simpl.
    intros Hsteps. rewrite andb_true_iff, Hsteps, forallb_Forall. tauto.
  - intros _. split; [done|]. by intros [? _].
Qed.
End Results.

Section OneTurn.
Context {N : Num} {R : Runtime} {B : Boundaries}.
Local Open Scope exec_scope.

(** X16.  A reply with a non-empty text and no invocations ends the
    step at once, whatever turns remain: the text is the step's reply, the
    transcript gets one assistant entry, and one turn was taken. *)
Theorem text_reply_ends_the_step
        (fuel idx : nat) (step : TestStep) (tcs : list ToolCall)
        (s : ExecState) (completion : ChatCompletionResponse)
        (choice : Choice) (rest : list Choice) (text : string) :
  callLLM (S (totalTurns s)) (messages s) = Ok completion ->
  choices completion = choice :: rest ->
  no_tool_calls (choice_message choice) ->
  truthy_string (content (choice_message choice)) = Some text ->
  exists s',
    stepLoop (S fuel) idx step tcs s = Done (tcs, Some text) s'
    /\ messages s' = messages s ++ [assistant_text text]
    /\ allToolCalls s' = allToolCalls s
    /\ totalTurns s' = S (totalTurns s)
    /\ events s' = events s ++ [step_llm_call idx].
Proof.
  intros Hcall Hc Hn Ht. rewrite stepLoop_turn, Hcall.
  destruct (handleReply_text (stepLoop fuel idx step) idx step tcs completion
              choice rest text (push_event (step_llm_call idx) (incr_turns s))
              Hc Hn Ht)
    as (s' & -> & Hm & Ha & _ & _ & Hturn & He).
  exists s'. by repeat split.
Qed.

(** X17.  A reply that carries invocations is a tool turn even if it
    also carries a text: the transcript gets the assistant entry followed
    by one tool entry per invocation, in order, each with the invocation's
    id and its resolved content; the loop goes on with the remaining
    turns, and if none remains the step ends without a reply. *)
Theorem tool_reply_continues_the_step
        (fuel idx : nat) (step : TestStep) (tcs : list ToolCall)
        (s : ExecState) (completion : ChatCompletionResponse)
        (choice : Choice) (rest : list Choice)
        (c : ToolCall) (cs : list ToolCall)
        (m : gmap string (option string)) :
  callLLM (S (totalTurns s)) (messages s) = Ok completion ->
  choices completion = choice :: rest ->
  msg_tool_calls (choice_message choice) = Some (c :: cs) ->
  resolveMocks (c :: cs) (mock step) = Ok m ->
  exists s1,
    stepLoop (S fuel) idx step tcs s
    = stepLoop fuel idx step (tcs ++ c :: cs) s1
    /\ (fuel = 0 ->
        stepLoop (S fuel) idx step tcs s = Done (tcs ++ c :: cs, None) s1)
    /\ messages s1
       = messages s
         ++ {| role := RAssistant; content := content (choice_message choice);
               msg_tool_calls := Some (c :: cs); tool_call_id := None |}
            :: map (fun call => {| role := RTool;
                                   content := mockContent m call;
                                   msg_tool_calls := None;
                                   tool_call_id := Some (id call) |})
                   (c :: cs)
    /\ allToolCalls s1 = allToolCalls s ++ c :: cs
    /\ totalTurns s1 = S (totalTurns s)
    /\ events s1
       = events s ++ [step_llm_call idx;
                      step_tool_calls idx (called_names (c :: cs));
                      step_mock_inject idx].
Proof.
  intros Hcall Hc Htc Hm. rewrite stepLoop_turn, Hcall.
  destruct (handleReply_tool_turn (stepLoop fuel idx step) idx step tcs
              completion choice rest c cs m
              (push_event (step_llm_call idx) (incr_turns s)) Hc Htc Hm)
    as (s1 & -> & Hmsg & Ha & _ & _ & Hturn & He).
  exists s1. split; [done|]. split; [by intros ->|].
  rewrite Hmsg, Ha, Hturn, He. simpl. rewrite <- app_assoc. by repeat split.
Qed.

(** X18.  The turn is counted and announced before the model boundary
    is called: when the boundary raises, or returns no choice, the step
    ends in a fault (the boundary's own, or [No response from LLM]) in a
    state where the turn is counted and the transcript is as it was. *)
Theorem faults_at_the_boundary_count_the_turn
        (fuel idx : nat) (step : TestStep) (tcs : list ToolCall) (s : ExecState) :
  let called := push_event (step_llm_call idx) (incr_turns s) in
  (forall e,
      callLLM (S (totalTurns s)) (messages s) = Throw e ->
      stepLoop (S fuel) idx step tcs s = Fault e called)
  /\ (forall completion,
         callLLM (S (totalTurns s)) (messages s) = Ok completion ->
         choices completion = [] ->
         exists s',
           stepLoop (S fuel) idx step tcs s
           = Fault (Error "No response from LLM") s'
           /\ trackTokens completion called = Done tt s'
           /\ same_history called s')
  /\ totalTurns called = S (totalTurns s)
  /\ messages called = messages s.
Proof.
  intros called. subst called. split; [|split; [|done]].
  - intros e He. by rewrite stepLoop_turn, He.
  - intros completion Hcall Hc. rewrite stepLoop_turn, Hcall.
    unfold handleReply, ebind.
    destruct (trackTokens_quiet completion
                (push_event (step_llm_call idx) (incr_turns s)))
      as (s' & -> & Hsame).
    rewrite Hc. by exists s'.
Qed.
End OneTurn.

(** ** A reply with the empty text *)

Section EmptyReply.
Context {N : Num} {R : Runtime} {B : Boundaries}.
Local Open Scope exec_scope.

(** The transcript entry of a step's user message. *)
Definition user_message (text : string) : ChatMessage :=
  {| role := RUser; content := Some text; msg_tool_calls := None;
     tool_call_id := None |}.

(** The transcript the first call of a step sends to the model boundary:
    the one the step found, followed by its user message if it has one. *)
Definition asked (step : TestStep) (s : ExecState) : list ChatMessage :=
  messages s ++ match truthy_string (user step) with
                | Some text => [user_message text]
                | None => []
                end.

(** The state in which the step loop of a step starts: the user message
    is in the transcript and the start of the step is announced. *)
Definition started (idx : nat) (step : TestStep) (s : ExecState) : ExecState :=
  push_event (step_start idx (user step))
             (match truthy_string (user step) with
              | Some text => push_message (user_message text) s
              | None => s
              end).

Lemma runStep_start config idx step s :
  runStep config idx step s
  = (let! looped := stepLoop (max_turns config) idx step [] in
     let '(stepToolCalls, assistantResponse) := looped in
     let! assertions :=
       lift (evaluateStepAssertions (expect step) stepToolCalls
                                    assistantResponse) in
     let stepResult :=
       {| stepIndex := idx; userMessage := user step;
          assertions := assertions; toolCalls := stepToolCalls;
          assistantResponse := assistantResponse;
          step_passed := forallb passed assertions |} in
     modify (push_stepResult stepResult) ;;!
     emit (step_complete idx stepResult)) (started idx step s).
Proof.
  unfold runStep, addUserMessage, started.
  by destruct (truthy_string (user step)).
Qed.

Lemma started_spec idx step s :
  messages (started idx step s) = asked step s
  /\ totalTurns (started idx step s) = totalTurns s
  /\ stepResults (started idx step s) = stepResults s.
Proof.
  unfold started, asked.
  destruct (truthy_string (user step)); simpl; by rewrite ?app_nil_r.
Qed.

(** What a step records once its loop has ended. *)
Lemma runStep_records config idx step s tcs reply s2 :
  stepLoop (max_turns config) idx step [] (started idx step s)
  = Done (tcs, reply) s2 ->
  stepResults s2 = stepResults s
  /\ runStep config idx step s
     = match evaluateStepAssertions (expect step) tcs reply with
       | Ok outcomes =>
           let stepResult :=
             {| stepIndex := idx; userMessage := user step;
                assertions := outcomes; toolCalls := tcs;
                assistantResponse := reply;
                step_passed := forallb passed outcomes |} in
           Done tt (push_event (step_complete idx stepResult)
                               (push_stepResult stepResult s2))
       | Throw e => Fault e s2
       end.
Proof.
  intros Hloop. split.
  - pose proof (keeps_stepLoop stepResults (max_turns config) idx step []
                  stepResults_step_local (started idx step s)) as Hk.
    rewrite Hloop in Hk. etrans; [exact Hk|]. apply started_spec.
  - rewrite runStep_start. unfold ebind at 1. rewrite Hloop.
    unfold ebind, lift. by destruct (evaluateStepAssertions _ _ _).
Qed.

(** C10.  A reply whose text is the empty string, with no tool
    invocations, is handled exactly like the same reply with no text at
    all, at whatever iteration of the step's loop it arrives (the first
    hypothesis says that the loop of the step has come to an iteration
    with the invocations [tcs] made so far, in state [s1]): the loop ends,
    the transcript gets no assistant entry, and the step is recorded with
    the invocations made so far and without a reply.  The step's
    assertions are evaluated against no reply: if that raises the step ends
    in that fault; otherwise a declared response expectation yields, after
    the Outcomes of the expectation without its response part, the single
    Outcome that is failed and reads [Expected a text response but got
    none], and the step is recorded as not passed. *)
Theorem empty_text_reply_is_no_reply
        (config : Config) (idx : nat) (step : TestStep) (s : ExecState)
        (fuel : nat) (tcs : list ToolCall) (s1 : ExecState)
        (completion : ChatCompletionResponse)
        (choice : Choice) (rest : list Choice) :
  stepLoop (max_turns config) idx step [] (started idx step s)
  = stepLoop (S fuel) idx step tcs s1 ->
  callLLM (S (totalTurns s1)) (messages s1) = Ok completion ->
  choices completion = choice :: rest ->
  no_tool_calls (choice_message choice) ->
  content (choice_message choice) = Some "" ->
  (forall continue s0,
      handleReply continue idx step tcs completion s0
      = handleReply continue idx step tcs (without_text completion) s0)
  /\ exists s2,
       stepLoop (S fuel) idx step tcs s1 = Done (tcs, None) s2
       /\ messages s2 = messages s1
       /\ totalTurns s2 = S (totalTurns s1)
       /\ match evaluateStepAssertions (expect step) tcs None with
          | Ok outcomes =>
              exists s',
                runStep config idx step s = Done tt s'
                /\ messages s' = messages s1
                /\ stepResults s'
                   = stepResults s
                     ++ [{| stepIndex := idx; userMessage := user step;
                            assertions := outcomes; toolCalls := tcs;
                            assistantResponse := None;
                            step_passed := forallb passed outcomes |}]
                /\ (forall e checks,
                       expect step = Some e -> response e = Some checks ->
                       exists others,
                         evaluateStepAssertions (Some (without_response e))
                                                tcs None
                         = Ok others
                         /\ outcomes
                            = others
                              ++ [{| passed := false;
                                     message :=
                                       "Expected a text response but got none" |}]
                         /\ forallb passed outcomes = false)
          | Throw e => runStep config idx step s = Fault e s2
          end.
Proof.
  intros Hat Hcall Hc Hn Htext.
  assert (Ht : truthy_string (content (choice_message choice)) = None)
    by (by rewrite Htext).
  split.
  { intros continue s0.
    destruct (handleReply_nothing continue idx step tcs completion choice rest
                                  s0 Hc Hn Ht) as (sa & -> & Htr).
    destruct (handleReply_nothing continue idx step tcs (without_text completion)
                _ rest s0 ltac:(unfold without_text; by rewrite Hc)
                ltac:(exact Hn) eq_refl) as (sb & -> & Htr').
    unfold trackTokens in Htr, Htr'. simpl in Htr'. congruence. }
  remember (push_event (step_llm_call idx) (incr_turns s1)) as called
    eqn:Hcalled.
  assert (Hloop : exists s2,
             stepLoop (S fuel) idx step tcs s1 = Done (tcs, None) s2
             /\ messages s2 = messages s1
             /\ totalTurns s2 = S (totalTurns s1)).
  { rewrite stepLoop_turn, Hcall, <- Hcalled.
    destruct (handleReply_nothing (stepLoop fuel idx step) idx step tcs
                completion choice rest called Hc Hn Ht) as (s2 & -> & Htr).
    destruct (trackTokens_quiet completion called)
      as (s2' & Htr' & Hm2 & _ & _ & _ & Ht2 & _).
    rewrite Htr in Htr'. injection Htr' as <-.
    exists s2. by rewrite Hm2, Ht2, Hcalled. }
  destruct Hloop as (s2 & Hloop & Hm2 & Ht2).
  exists s2. split; [exact Hloop|]. split; [exact Hm2|]. split; [exact Ht2|].
  rewrite Hloop in Hat.
  destruct (runStep_records config idx step s tcs None s2 Hat) as [Hs2 Hrun].
  destruct (evaluateStepAssertions (expect step) tcs None) as [outcomes|e]
    eqn:Hout; [|exact Hrun].
  eexists. split; [exact Hrun|]. split; [simpl; exact Hm2|].
  split; [simpl; by rewrite Hs2|].
  intros e checks He Hr. rewrite He in Hout.
  rewrite (evaluateStepAssertions_without_reply e tcs None checks Hr eq_refl)
    in Hout.
  destruct (evaluateStepAssertions (Some (without_response e)) tcs None)
    as [others|err]; simpl in Hout; [|done].
  injection Hout as <-. exists others. split; [done|]. split; [done|].
  rewrite forallb_app. simpl. apply andb_false_r.
Qed.
End EmptyReply.

(** ** Response expectations *)

Section ResponseFacts.
Context {N : Num} {R : Runtime}.

Lemma forallb_verdicts {A} (f : A -> bool) (yes no : A -> string) (l : list A) :
  forallb passed (map (fun x => if f x then ok (yes x) else fail (no x)) l)
  = forallb f l.
Proof.
  induction l as [|x l IH]; simpl; [done|]. rewrite IH. by destruct (f x).
Qed.

Lemma forallb_false_Forall {A} (f : A -> bool) (l : list A) :
  forallb (fun x => negb (f x)) l = true <-> Forall (fun x => f x = false) l.
Proof.
  rewrite forallb_Forall. apply Forall_iff. intros x. apply negb_true_iff.
Qed.

(** The number of Outcomes a declared bound gives. *)
Definition declared {A} (o : option A) : nat :=
  match o with Some _ => 1 | None => 0 end.

(** X30.  A response expectation is the conjunction of its declared
    checks, each reported by an Outcome of its own: one per needle of
    [contains] and of [not_contains], one for [contains_any], one for a
    non-empty [matches], one per length bound.  The Outcomes all pass
    exactly when the text contains every needle, one of the alternatives,
    none of the excluded needles, matches the pattern and has a length
    within the bounds; an empty list of alternatives therefore never
    passes, and an empty needle or pattern is not checked. *)
Theorem response_expectation_is_a_conjunction
        (expected : ResponseAssertion) (actual : string)
        (rs : list AssertionResult) :
  evaluateResponseAssertion expected actual = Ok rs ->
  length rs
  = length (truthy_needles (contains expected))
    + declared (contains_any expected)
    + length (truthy_needles (not_contains expected))
    + declared (truthy_string (matches expected))
    + declared (min_length expected) + declared (max_length expected)
  /\ (forallb passed rs = true
      <-> Forall (fun needle => includes actual needle = true)
                 (truthy_needles (contains expected))
          /\ (forall l, contains_any expected = Some l ->
                        existsb (fun needle => includes actual needle) l = true)
          /\ Forall (fun needle => includes actual needle = false)
                    (truthy_needles (not_contains expected))
          /\ (forall pattern re,
                 truthy_string (matches expected) = Some pattern ->
                 RegExp_new pattern = Ok re -> re actual = true)
          /\ (forall m, min_length expected = Some m ->
                        num_geb (num_of_nat (String.length actual)) m = true)
          /\ (forall m, max_length expected = Some m ->
                        num_leb (num_of_nat (String.length actual)) m = true)).
Proof.
  unfold evaluateResponseAssertion.
  destruct (match truthy_string (matches expected) with
            | Some _ => _ | None => _ end) as [r_matches|] eqn:Hm; simpl; [|done].
  intros [= <-].
  assert (Hmatch :
            length r_matches = declared (truthy_string (matches expected))
            /\ (forallb passed r_matches = true
                <-> forall pattern re,
                      truthy_string (matches expected) = Some pattern ->
                      RegExp_new pattern = Ok re -> re actual = true)).
  { destruct (truthy_string (matches expected)) as [pattern|].
    - destruct (RegExp_new pattern) as [re|] eqn:Hre; simpl in Hm; [|done].
      injection Hm as <-. split; [done|]. simpl. rewrite andb_true_r. split.
      + intros H p re' [= <-] Hp. rewrite Hre in Hp. injection Hp as <-.
        by destruct (re actual).
      + intros H. by rewrite (H pattern re eq_refl Hre).
    - injection Hm as <-. split; [done|]. by split. }
  destruct Hmatch as [Hlen Hpass]. split.
  - rewrite !length_app, !length_map, Hlen.
    destruct (contains_any expected), (min_length expected),
      (max_length expected); simpl; lia.
  - rewrite !forallb_app, !andb_true_iff, !forallb_verdicts, Hpass.
    rewrite forallb_Forall, forallb_false_Forall.
    assert (Hany : forallb passed
                     match contains_any expected with
                     | Some l =>
                         [if existsb (fun needle => includes actual needle) l
                          then ok ("Response contains one of: "
                                   +:+ join ", " (map quoted l))
                          else fail ("Response should contain one of: "
                                     +:+ join ", " (map quoted l) +:+ " — got: "
                                     +:+ dquote +:+ excerpt actual +:+ dquote)]
                     | None => []
                     end = true
                   <-> forall l, contains_any expected = Some l ->
                                 existsb (fun needle => includes actual needle) l
                                 = true).
    { destruct (contains_any expected) as [l|]; simpl.
      - rewrite andb_true_r. split.
        + intros H l' [= <-]. by destruct (existsb _ l).
        + intros H. by rewrite (H l eq_refl).
      - by split. }
    assert (Hmin : forallb passed
                     match min_length expected with
                     | Some m =>
                         [if num_geb (num_of_nat (String.length actual)) m
                          then ok ("Response length >= " +:+ Number_toString m)
                          else fail ("Response too short: "
                                     +:+ Number_toString
                                           (num_of_nat (String.length actual))
                                     +:+ " < " +:+ Number_toString m)]
                     | None => []
                     end = true
                   <-> forall m, min_length expected = Some m ->
                                 num_geb (num_of_nat (String.length actual)) m
                                 = true).
    { destruct (min_length expected) as [m|]; simpl.
      - rewrite andb_true_r. split.
        + intros H m' [= <-]. by destruct (num_geb _ m).
        + intros H. by rewrite (H m eq_refl).
      - by split. }
    assert (Hmax : forallb passed
                     match max_length expected with
                     | Some m =>
                         [if num_leb (num_of_nat (String.length actual)) m
                          then ok ("Response length <= " +:+ Number_toString m)
                          else fail ("Response too long: "
                                     +:+ Number_toString
                                           (num_of_nat (String.length actual))
                                     +:+ " > " +:+ Number_toString m)]
                     | None => []
                     end = true
                   <-> forall m, max_length expected = Some m ->
                                 num_leb (num_of_nat (String.length actual)) m
                                 = true).
    { destruct (max_length expected) as [m|]; simpl.
      - rewrite andb_true_r. split.
        + intros H m' [= <-]. by destruct (num_leb _ m).
        + intros H. by rewrite (H m eq_refl).
      - by split. }
    rewrite Hany, Hmin, Hmax. tauto.
Qed.
End ResponseFacts.

(** ** Mock normalisation *)

Section ParserFacts.
Context {N : Num} {R : Runtime}.
#[local] Arguments has_key : simpl never.
#[local] Arguments member : simpl never.

(** What [resolveMocks] asks of a table entry before it treats it as a
    rule. *)
Definition rule_shaped (v : value) : bool :=
  has_key "return" v || has_key "error" v || has_key "conditions" v.

(** A value the parser takes for the payload itself. *)
Definition direct (raw : value) : bool :=
  match raw with
  | VArr items => negb (existsb (has_key "when") items)
  | VObj _ => negb (has_key "error" raw) && negb (has_key "return" raw)
  | _ => true
  end.

(** The [error] member of a raw entry, if it has one, converts to a
    primitive, so that [String(obj.error)] returns. *)
Definition error_converts (raw : value) : bool :=
  match raw with
  | VObj _ => negb (has_key "error" raw) || convertible (member raw "error")
  | _ => true
  end.

(** Every entry of a raw mock table is such. *)
Definition errors_convert (raw : value) : bool :=
  forallb (fun entry => error_converts (snd entry)) (entries raw).

(** No tool name of a raw mock table is one that every object inherits. *)
Definition own_names (raw : value) : bool :=
  forallb (fun entry => negb (inherited (fst entry))) (entries raw).

(** The rule that returns [v]. *)
Definition returning (v : value) : MockDefinition :=
  {| mock_return := Some v; mock_error := None; conditions := None;
     default_ := None |}.

(** The rule that answers with the error message [msg]. *)
Definition failing (msg : string) : MockDefinition :=
  {| mock_return := None; mock_error := Some msg; conditions := None;
     default_ := None |}.

Lemma normalizeMock_rule_shaped raw : rule_shaped (normalizeMock raw) = true.
Proof.
  unfold rule_shaped, normalizeMock.
  destruct raw as [| |b|n|s|items|members]; try reflexivity.
  - destruct (existsb _ items); reflexivity.
  - destruct (has_key "error" (VObj members)); [reflexivity|].
    destruct (has_key "return" (VObj members)); reflexivity.
Qed.

Lemma lookup_assign k k' v l :
  lookup_member k (assign k' v l)
  = if String.eqb k k' then Some v else lookup_member k l.
Proof.
  induction l as [|[k'' v''] l IH]; simpl.
  - by destruct (String.eqb k k').
  - destruct (String.eqb k' k'') eqn:E1; simpl.
    + apply String.eqb_eq in E1. subst k''.
      by destruct (String.eqb k k').
    + destruct (String.eqb k k'') eqn:E2.
      * apply String.eqb_eq in E2. subst k''.
        rewrite String.eqb_sym in E1. by rewrite E1.
      * exact IH.
Qed.

Lemma lookup_member_Some k v l :
  lookup_member k l = Some v -> (k, v) ∈ l.
Proof.
  induction l as [|[k' v'] l IH]; simpl; [done|].
  destruct (String.eqb k k') eqn:E.
  - apply String.eqb_eq in E. intros [= ->]. subst. by left.
  - intros H. right. by apply IH.
Qed.


(** The table [normalizeStepMocks] builds from the entries of [raw]. *)
Lemma normalised_table entries0 acc k :
  let table := fold_left (fun res entry =>
                            assign (fst entry) (normalizeMock (snd entry)) res)
                         entries0 acc in
  match lookup_member k table with
  | Some v =>
      lookup_member k acc = Some v
      \/ exists mockValue, (k, mockValue) ∈ entries0 /\ v = normalizeMock mockValue
  | None => lookup_member k acc = None /\ k ∉ map fst entries0
  end.
Proof.
  revert acc. induction entries0 as [|[k' v'] rest IH]; intros acc; simpl.
  - destruct (lookup_member k acc); [by left|]. split; [done|apply not_elem_of_nil].
  - specialize (IH (assign k' (normalizeMock v') acc)). simpl in IH.
    destruct (lookup_member k (fold_left _ rest _)) as [v|].
    + destruct IH as [IH|(mockValue & Hin & ->)].
      * rewrite lookup_assign in IH. destruct (String.eqb k k') eqn:E.
        -- apply String.eqb_eq in E. subst k'. injection IH as <-.
           right. exists v'. split; [by left|done].
        -- by left.
      * right. exists mockValue. split; [by right|done].
    + destruct IH as [IH Hn]. rewrite lookup_assign in IH.
      destruct (String.eqb k k') eqn:E; [done|].
      apply String.eqb_neq in E. split; [done|].
      rewrite not_elem_of_cons. by split.
Qed.

(** X19.  What [normalizeMock] builds from a raw entry whose [error]
    member, if any, converts to a primitive is an object with a [return],
    [error] or [conditions] member.  [normalizeStepMocks] answers
    [undefined] for a falsy table; for any other table whose entries are
    such and whose tool names are not names that every object inherits, it
    answers a table with exactly the tool names of the raw one (among the
    names that are not inherited), each entry being the normalisation of a
    raw entry of that name and having one of the three members. *)
Theorem parsed_mocks_are_rules (raw : value) :
  (error_converts raw = true -> rule_shaped (normalizeMock raw) = true)
  /\ (falsy raw = true -> normalizeStepMocks raw = VUndefined)
  /\ (falsy raw = false ->
      errors_convert raw = true -> own_names raw = true ->
      forall toolName,
        inherited toolName = false ->
        let table := normalizeStepMocks raw in
        (has_key toolName table = true <-> toolName ∈ map fst (entries raw))
        /\ (has_key toolName table = true ->
            exists mockValue,
              (toolName, mockValue) ∈ entries raw
              /\ member table toolName = normalizeMock mockValue
              /\ rule_shaped (member table toolName) = true)).
Proof.
  split; [intros _; apply normalizeMock_rule_shaped|].
  unfold normalizeStepMocks. split; [by intros ->|].
  intros -> _ _ toolName _.
  pose proof (normalised_table (entries raw) [] toolName) as H.
  unfold has_key, member. simpl in *.
  destruct (lookup_member toolName (fold_left _ _ _)) as [v|].
  - destruct H as [H|(mockValue & Hin & ->)]; [done|]. split.
    + split; [intros _|done]. apply list_elem_of_fmap. by exists (toolName, mockValue).
    + intros _. exists mockValue. simpl.
      split; [done|]. split; [done|apply normalizeMock_rule_shaped].
  - destruct H as [_ Hn]. split; [|done]. split; [done|]. intros ?. by destruct Hn.
Qed.

(** X20.  A direct value of the test file (a scalar, [null], an array
    without a [when] item, an object without [error] and [return]) is
    normalised to the rule that returns it, [null] standing for an absent
    value; and the Mock Resolver answers an invocation of a tool with that
    rule with the value encoded, whatever the argument text. *)
Theorem direct_values_resolve_verbatim (raw : value) (call : ToolCall) :
  direct raw = true ->
  let payload := nullish raw VNull in
  normalizeMock raw = MockDefinition_value (returning payload)
  /\ resolveMocks [call]
       (Some {[ name (function call) := MockDef (returning payload) ]})
     = Ok {[ id call := encode payload ]}.
Proof.
  intros Hd payload. subst payload. split.
  - unfold normalizeMock, direct in *.
    destruct raw as [| |b|n|s|items|members]; try reflexivity.
    + destruct (existsb _ items); [discriminate|reflexivity].
    + destruct (has_key "error" (VObj members)); [discriminate|].
      destruct (has_key "return" (VObj members)); [discriminate|reflexivity].
  - unfold resolveMocks; simpl. unfold resolveCall, resolveResponse.
    rewrite lookup_singleton_eq. simpl. by rewrite insert_empty.
Qed.

(** X21.  In an object that has an [error] member which converts to a
    primitive, the error wins over everything else: the rule carries that
    member converted to a string and nothing more; it resolves to the error
    payload, and to [null] when the string is empty. *)
Theorem error_key_wins_in_normalisation
        (members : list (string * value)) (args : value) :
  has_key "error" (VObj members) = true ->
  convertible (member (VObj members) "error") = true ->
  let msg := ToString (member (VObj members) "error") in
  normalizeMock (VObj members) = MockDefinition_value (failing msg)
  /\ is_MockDefinition (failing msg) = true
  /\ resolveMockDefinition (failing msg) args
     = Ok (if String.eqb msg "" then VNull else VObj [("error", VStr msg)]).
Proof.
  intros He _ msg. unfold normalizeMock. rewrite He. split; [reflexivity|].
  split; [reflexivity|]. unfold resolveMockDefinition; simpl.
  by destruct (String.eqb msg "").
Qed.

(** X22.  An array with at least one [when] item becomes a conditional
    rule: its conditions are the [when] items in file order, the other
    items being dropped; it has no [return] and no [error]; its default is
    taken from the first item with a [default] member; and the default's
    payload is the [return] of that member unless that is [null] or absent,
    in which case it is the member itself. *)
Theorem conditional_array_keeps_when_items_in_order (items : list value) :
  existsb (has_key "when") items = true ->
  let rule := normalizeMock (VArr items) in
  let whens := List.filter (has_key "when") items in
  member rule "conditions" = VArr (map condition_of whens)
  /\ whens <> []
  /\ has_key "return" rule = false
  /\ has_key "error" rule = false
  /\ member rule "default"
     = match find (has_key "default") items with
       | Some defaultItem =>
           VObj [("return", default_return (member defaultItem "default"))]
       | None => VUndefined
       end
  /\ (forall d,
         default_return d
         = match d with
           | VObj members =>
               match lookup_member "return" members with
               | Some VNull | Some VUndefined | None => d
               | Some v => v
               end
           | _ => d
           end).
Proof.
  intros Hw rule whens. subst rule whens. unfold normalizeMock. rewrite Hw.
  repeat split.
  - intros Hnil. apply existsb_exists in Hw as (item & Hin & Hitem).
    assert (Hf : In item (List.filter (has_key "when") items))
      by (apply filter_In; by split).
    rewrite Hnil in Hf. destruct Hf.
  - intros d. unfold default_return, member.
    destruct d as [| |b|n|s|l|members]; try reflexivity.
    simpl. by destruct (lookup_member "return" members) as [[]|].
Qed.

Section Validation.
Context {F : Files}.

Lemma validateEach_Ok validate file i items vs :
  validateEach validate file i items = Ok vs ->
  length vs = length items
  /\ forall j v,
       vs !! j = Some v ->
       exists item, items !! j = Some item /\ validate item file (i + j) = Ok v.
Proof.
  revert i vs. induction items as [|item rest IH]; intros i vs; simpl.
  - intros [= <-]. split; [done|]. by intros j v; rewrite lookup_nil.
  - destruct (validate item file i) as [v0|] eqn:Hv; simpl; [|done].
    destruct (validateEach validate file (S i) rest) as [vs0|] eqn:Hvs;
      simpl; [|done].
    intros [= <-]. destruct (IH _ _ Hvs) as [Hlen Hitems].
    split; [simpl; by rewrite Hlen|].
    intros [|j] v; simpl.
    + intros [= <-]. exists item. by rewrite Nat.add_0_r.
    + intros Hj. destruct (Hitems j v Hj) as (it & Hit & Hval).
      exists it. split; [done|]. by rewrite Nat.add_succ_r.
Qed.

Lemma validateEach_Throw validate file i items e :
  validateEach validate file i items = Throw e ->
  exists j item, items !! j = Some item /\ validate item file (i + j) = Throw e.
Proof.
  revert i. induction items as [|item rest IH]; intros i; simpl; [done|].
  destruct (validate item file i) as [v0|e0] eqn:Hv; simpl.
  - destruct (validateEach validate file (S i) rest) as [vs0|e0] eqn:Hvs;
      simpl; [done|].
    intros [= <-]. destruct (IH _ Hvs) as (j & it & Hit & Hval).
    exists (S j), it. split; [done|]. by rewrite Nat.add_succ_r.
  - intros [= <-]. exists 0, item. by rewrite Nat.add_0_r.
Qed.

Lemma validateTool_Throw tool file index e :
  validateTool tool file index = Throw e -> exists msg, e = ParseError file msg.
Proof.
  unfold validateTool. destruct (negb (is_object tool)); [intros [= <-]; by eexists|].
  destruct (member tool "name") as [| | | |n| |]; try (intros [= <-]; by eexists).
  destruct (String.eqb n ""); [intros [= <-]; by eexists|done].
Qed.

Lemma validateStep_Throw step file index e :
  validateStep step file index = Throw e ->
  exists msg,
    e = ParseError file ("steps[" +:+ Number_toString (num_of_nat index)
                         +:+ "] " +:+ msg).
Proof.
  unfold validateStep.
  destruct (negb (is_object step)); [intros [= <-]; by eexists|].
  destruct (_ && _); [intros [= <-]; by eexists|done].
Qed.

(** X28.  On a step whose mock entries have [error] members that
    convert to primitives, [validateStep] accepts exactly the objects
    (arrays among them) that declare a truthy [user], [expect], [assert] or
    [mock]: a step with a mock table alone is accepted, though the message
    of the rejection does not list it.  What it returns carries the members
    of the step, the mock table normalised; a rejection is a ParseError
    naming the file and the index of the step. *)
Theorem validateStep_accepts_any_declared_part
        (step : value) (file : string) (index : nat) :
  errors_convert (member step "mock") = true ->
  let declares k := negb (falsy (member step k)) in
  (returns (validateStep step file index)
   <-> is_object step = true
       /\ (declares "user" || declares "expect" || declares "assert"
           || declares "mock") = true)
  /\ (forall v,
         validateStep step file index = Ok v ->
         member v "user" = member step "user"
         /\ member v "expect" = member step "expect"
         /\ member v "assert" = member step "assert"
         /\ member v "mock" = normalizeStepMocks (member step "mock"))
  /\ (forall e,
         validateStep step file index = Throw e ->
         exists msg,
           e = ParseError file ("steps[" +:+ Number_toString (num_of_nat index)
                                +:+ "] " +:+ msg)).
Proof.
  intros _ declares. subst declares. split; [|split].
  - unfold validateStep. destruct (is_object step); simpl.
    + destruct (falsy (member step "user")), (falsy (member step "expect")),
        (falsy (member step "assert")), (falsy (member step "mock")); simpl;
        (split; [intros [v Hv]; first [done|by split]
                |intros [_ H]; first [done|by eexists]]).
    + split; [by intros [v ?]|by intros [? _]].
  - unfold validateStep. destruct (negb (is_object step)); [done|].
    destruct (_ && _); [done|]. by intros v [= <-].
  - apply validateStep_Throw.
Qed.

(** X29.  On a document whose mock entries have [error] members that
    convert to primitives, [parseTestFile] passes on an error raised while
    the file is read as it is, and every other rejection is a ParseError
    naming the file.  A document it accepts has a non-empty string for a
    name, a truthy [system_prompt] and at least one step, and the steps of
    the result are the raw steps validated, in order. *)
Theorem parsed_tests_are_well_formed (filePath : string) :
  (forall content raw rawSteps,
      readFileSync filePath = Ok content -> parseYaml content = Ok raw ->
      member raw "steps" = VArr rawSteps ->
      Forall (fun step => errors_convert (member step "mock") = true) rawSteps) ->
  (forall e, readFileSync filePath = Throw e -> parseTestFile filePath = Throw e)
  /\ (forall content e,
         readFileSync filePath = Ok content ->
         parseTestFile filePath = Throw e ->
         exists msg, e = ParseError filePath msg)
  /\ (forall doc,
         parseTestFile filePath = Ok doc ->
         exists content raw rawSteps steps,
           readFileSync filePath = Ok content
           /\ parseYaml content = Ok raw
           /\ member doc "name" = member raw "name"
           /\ (exists c n, member raw "name" = VStr (String c n))
           /\ falsy (member raw "system_prompt") = false
           /\ member raw "steps" = VArr rawSteps
           /\ rawSteps <> []
           /\ member doc "steps" = VArr steps
           /\ length steps = length rawSteps
           /\ forall i step,
                steps !! i = Some step ->
                exists rawStep,
                  rawSteps !! i = Some rawStep
                  /\ validateStep rawStep filePath i = Ok step).
Proof.
  intros _. unfold parseTestFile. split; [by intros e ->|]. split.
  - intros content e -> . simpl.
    destruct (parseYaml content) as [raw|err]; simpl; [|intros [= <-]; by eexists].
    destruct (_ || _); [intros [= <-]; by eexists|].
    destruct (member raw "name") as [| | | |[|c n]| |];
      try (intros [= <-]; by eexists).
    destruct (falsy _); [intros [= <-]; by eexists|].
    destruct (member raw "steps") as [| | | | |[|s ss]|];
      try (intros [= <-]; by eexists).
    remember (s :: ss) as rawSteps eqn:HrawSteps.
    destruct (match member raw "tools" with VArr _ => _ | _ => _ end)
      as [tools|e0] eqn:Ht; simpl.
    + destruct (validateEach validateStep filePath 0 rawSteps) as [steps|e0] eqn:Hs;
        simpl; [done|].
      intros [= <-]. apply validateEach_Throw in Hs as (j & item & _ & Hv).
      apply validateStep_Throw in Hv as [msg ->]. by eexists.
    + intros [= <-].
      destruct (member raw "tools") as [| | | | |rawTools|]; try done.
      apply validateEach_Throw in Ht as (j & item & _ & Hv).
      by apply validateTool_Throw in Hv.
  - intros doc.
    destruct (readFileSync filePath) as [content|] eqn:Hread; simpl; [|done].
    destruct (parseYaml content) as [raw|err] eqn:Hyaml; simpl; [|done].
    destruct (_ || _); [done|].
    destruct (member raw "name") as [| | | |[|c n]| |] eqn:Hname; try done.
    destruct (falsy _) eqn:Hprompt; [done|].
    destruct (member raw "steps") as [| | | | |[|s ss]|] eqn:Hsteps; try done.
    remember (s :: ss) as rawSteps eqn:HrawSteps.
    destruct (match member raw "tools" with VArr _ => _ | _ => _ end)
      as [tools|e0]; simpl; [|done].
    destruct (validateEach validateStep filePath 0 rawSteps) as [steps|e0] eqn:Hs;
      simpl; [|done].
    intros [= <-]. apply validateEach_Ok in Hs as [Hlen Hitems].
    exists content, raw, rawSteps, steps.
    repeat split; try done; first [by eauto | by subst rawSteps].
Qed.
End Validation.
End ParserFacts.

(** ** Deep merge *)

Section MergeFacts.
Context {N : Num} {R : Runtime}.
#[local] Arguments member : simpl never.





Lemma mergeLoop_null_clash target source res key m ms :
  match target with VNull | VUndefined => False | _ => True end ->
  member target key = VNull ->
  lookup_member key source = Some (VObj (m :: ms)) ->
  throws (mergeLoop mergeMember target source res).
Proof.
  intros Ht Hnull. revert res.
  induction source as [|[k v] rest IH]; intros res; simpl; [done|].
  assert (get target k = Ok (member target k)) as -> by (by destruct target).
  simpl. destruct (String.eqb key k) eqn:E.
  - apply String.eqb_eq in E. subst k. intros [= ->]. rewrite Hnull.
    destruct m as [k0 v0]. simpl. by eexists.
  - intros Hl. destruct (mergeMember v (member target k)); simpl; [|by eexists].
    by apply IH.
Qed.

(** X24.  [deepMerge] raises when an object with at least one member
    in [source] faces [null] in [target]: the recursive call reads a member
    of [null], a TypeError.  Merging the empty object into [null] gives the
    empty object. *)
Theorem deepMerge_faults_on_null_against_object
        (target : list (string * value)) (source : list (string * value))
        (key : string) (m : string * value) (ms : list (string * value)) :
  lookup_member key target = Some VNull ->
  lookup_member key source = Some (VObj (m :: ms)) ->
  throws (deepMerge (VObj target) source)
  /\ deepMerge VNull (m :: ms) = Throw (TypeError (TypeError_read VNull (fst m)))
  /\ deepMerge VNull [] = Ok (VObj []).
Proof.
  intros Ht Hs. split; [|split; [by destruct m|done]].
  unfold deepMerge.
  destruct (mergeLoop_null_clash (VObj target) source (spread (VObj target))
              key m ms I) as [e ->]; [|done|by eexists].
  unfold member. by rewrite Ht.
Qed.
End MergeFacts.

(** ** Test runner *)

Section RunnerFacts.
Context {N : Num} {R : Runtime}.
Variable session : nat -> Boundaries.

Lemma executeTest_passed_no_fault (B : Boundaries) test config filePath :
  test_passed (@executeTest N R B test config filePath) = true ->
  result_error (executeTest test config filePath) = None.
Proof.
  unfold executeTest, executeTest_run.
  destruct (executeTest_try test config filePath initialState) as [r s|e s] eqn:E;
    simpl; [|done].
  intros _. unfold executeTest_try, ebind in E.
  destruct (startTest _ _ _ _) as [[] s0|]; [|done].
  destruct (runSteps _ _ _ _) as [[] s1|]; [|done].
  destruct (runGlobalAssertions _ _) as [[] s2|]; [|done].
  unfold read, ret in E. by injection E as <- <-.
Qed.

(** A Result that is passed carries no error. *)
Definition coherent (r : TestResult) : Prop :=
  test_passed r = true -> has_error r = false.

Lemma executeAll_coherent bail config i parsed :
  Forall coherent (executeAll session bail config i parsed).
Proof.
  revert i. induction parsed as [|[file test] rest IH]; intros i; simpl;
    [constructor|].
  constructor.
  - intros Hp. unfold has_error.
    by rewrite (executeTest_passed_no_fault _ _ _ _ Hp).
  - destruct (bail && negb _); [constructor|apply IH].
Qed.

Lemma summary_partition results :
  Forall coherent results ->
  tests_passed (summary results) + tests_failed (summary results)
  + tests_errors (summary results) = tests_total (summary results).
Proof.
  unfold summary; simpl. induction 1 as [|r results Hr _ IH]; simpl; [done|].
  unfold coherent in Hr.
  destruct (test_passed r); simpl.
  - rewrite Hr by done. simpl. lia.
  - destruct (has_error r); simpl; lia.
Qed.

Lemma filter_length_0 {A} (f : A -> bool) l :
  length (List.filter f l) = 0 <-> Forall (fun x => f x = false) l.
Proof.
  induction l as [|x l IH]; simpl; [by split|].
  rewrite Forall_cons. destruct (f x); simpl.
  - split; [done|]. by intros [? _].
  - rewrite IH. split; [by split|by intros [_ ?]].
Qed.

(** X25.  The summary of a run counts every Result once: passed,
    failed and errors add up to the total, which is the number of Results;
    and the exit status is 0 exactly when every Result is passed, 1
    otherwise. *)
Theorem summary_counts_every_result_once
        (bail : bool) (config : Config)
        (parsed : list (string * TestDefinition)) :
  let results := executeAll session bail config 0 parsed in
  let s := summary results in
  tests_passed s + tests_failed s + tests_errors s = tests_total s
  /\ tests_total s = length results
  /\ (exitCode results = 0 <-> Forall (fun r => test_passed r = true) results)
  /\ (exitCode results = 0 \/ exitCode results = 1).
Proof.
  intros results s. subst s.
  pose proof (executeAll_coherent bail config 0 parsed) as Hc.
  fold results in Hc. split; [by apply summary_partition|]. split; [done|].
  unfold exitCode. split.
  - cbv zeta. destruct (_ && _) eqn:E.
    + split; [intros _|done].
      apply andb_true_iff in E as [E1 E2].
      apply Nat.eqb_eq, filter_length_0 in E1.
      apply Nat.eqb_eq, filter_length_0 in E2.
      clear Hc. induction results as [|r rs IH]; [constructor|].
      apply Forall_cons in E1 as [E1 E1'], E2 as [E2 E2'].
      constructor; [|by apply IH].
      rewrite E2 in E1. simpl in E1. rewrite andb_true_r in E1.
      by apply negb_false_iff.
    + split; [done|]. intros H. exfalso.
      assert (E1 : tests_failed (summary results) = 0).
      { apply filter_length_0. eapply Forall_impl; [exact H|].
        by intros r ->. }
      assert (E2 : tests_errors (summary results) = 0).
      { apply filter_length_0.
        eapply Forall_impl; [apply Forall_and; split; [exact H|exact Hc]|].
        intros r [Hp Hr]. by apply Hr. }
      by rewrite E1, E2 in E.
  - cbv zeta. destruct (_ && _); auto.
Qed.

(** X26.  Without [bail] every parsed test is executed, in order, and
    each Result carries the file of its test.  With [bail] the Results are
    a prefix of those: every Result but the last is passed, and when the
    run was cut short the last Result is not passed. *)
Theorem bail_stops_after_the_first_failure
        (config : Config) (parsed : list (string * TestDefinition)) :
  let all := executeAll session false config 0 parsed in
  let stopped := executeAll session true config 0 parsed in
  length all = length parsed
  /\ map result_file all = map fst parsed
  /\ stopped `prefix_of` all
  /\ (forall k r,
         stopped !! k = Some r -> S k < length stopped -> test_passed r = true)
  /\ (length stopped < length all ->
      exists r, last stopped = Some r /\ test_passed r = false).
Proof.
  intros all stopped. subst all stopped. generalize 0 as i.
  induction parsed as [|[file test] rest IH]; intros i; simpl.
  - repeat split; first [done | intros; lia | by intros k r; rewrite lookup_nil].
  - destruct (IH (S i)) as (H1 & H2 & H3 & H4 & H5).
    assert (Hfile : result_file (@executeTest N R (session i) test config file)
                    = file).
    { unfold executeTest, executeTest_run.
      destruct (executeTest_try test config file initialState) as [r s|e s] eqn:E;
        simpl; [|done].
      unfold executeTest_try, ebind in E.
      destruct (startTest _ _ _ _) as [[] s0|]; [|done].
      destruct (runSteps _ _ _ _) as [[] s1|]; [|done].
      destruct (runGlobalAssertions _ _) as [[] s2|]; [|done].
      unfold read, ret in E. by injection E as <- <-. }
    split; [by rewrite H1|]. split; [by rewrite Hfile, H2|].
    destruct (test_passed (executeTest test config file)) eqn:Hp; simpl.
    + split; [by apply prefix_cons|]. split.
      * intros [|k] r; simpl.
        -- by intros [= <-].
        -- intros Hk Hlen. apply (H4 k r Hk). lia.
      * intros Hlen. destruct H5 as (r & Hr & Hf); [lia|].
        exists r. split; [|done].
        destruct (executeAll session true config (S i) rest); [done|].
        by rewrite last_cons, Hr.
    + split; [apply prefix_cons, prefix_nil|]. split.
      * intros [|k] r; simpl; [intros _ ?; lia|by rewrite lookup_nil].
      * intros _. eexists. split; [reflexivity|done].
Qed.
End RunnerFacts.

(** * Concrete runs on the reference runtime *)

Module Runs.
Import Reference.

(** ** Value Matcher *)

(** A predicate carrying both [not_contains] and [matches]. *)
Definition both_categories : value :=
  VObj [("not_contains", VStr "b"); ("matches", VStr "b")].

(** C1 (failing input).  On the actual value [abc] and the predicate
    [{not_contains: b, matches: b}] the Assertion Engine decides by
    NotContains and fails, as NotContains alone does; the Mock Resolver
    tests [matches] first and matches. *)
Lemma matchesArgValue_ranks_matches_first :
  category both_categories = Some NotContains
  /\ passes (checkArgValue (VStr "abc") both_categories "arg") = Ok false
  /\ matchesArgValue (VStr "abc") (only NotContains both_categories) = Ok false
  /\ matchesArgValue (VStr "abc") both_categories = Ok true.
Proof. repeat split; reflexivity. Qed.

(** C7 (counterexample).  Scalar predicates of the Assertion Engine are
    not all stringified equality: the string [true] does not pass the
    boolean predicate [true] though their string forms are equal, and
    [null] passes the number predicate [0] though their string forms
    differ. *)
Lemma scalar_predicate_not_stringified :
  passes (checkArgValue (VStr "true") (VBool true) "flag") = Ok false
  /\ String.eqb (ToString (VStr "true")) (ToString (VBool true)) = true
  /\ passes (checkArgValue VNull (VNum (Int 0)) "count") = Ok true
  /\ String.eqb (ToString VNull) (ToString (VNum (Int 0))) = false.
Proof. repeat split; reflexivity. Qed.

(** Values that do not convert to a primitive, and one that does: an
    own [valueOf] member leaves the inherited [toString] in place. *)
Example toString_member_does_not_convert :
  convertible (VObj [("toString", VNum (Int 1))]) = false
  /\ convertible (VArr [VStr "a"; VObj [("toString", VNull)]]) = false
  /\ convertible (VObj [("valueOf", VNum (Int 1))]) = true
  /\ members_convert (VObj [("q", VObj [("toString", VNum (Int 1))])]) = false.
Proof. repeat split; reflexivity. Qed.

(** C7 (witness): the string [5] against the number predicate [5], where
    the Assertion Engine compares numbers and the Mock Resolver strings;
    and the string [05], which passes the first and not the second. *)
Lemma scalar_verdicts_on_numerals :
  passes (checkArgValue (VStr "5") (VNum (Int 5)) "guests") = Ok true
  /\ matchesArgValue (VStr "5") (VNum (Int 5)) = Ok true
  /\ passes (checkArgValue (VStr "05") (VNum (Int 5)) "guests") = Ok true
  /\ matchesArgValue (VStr "05") (VNum (Int 5)) = Ok false.
Proof.
  destruct (scalar_predicate_verdicts (VStr "5") "guests" eq_refl)
    as (_ & Hcheck & _ & _ & Hmatch & _).
  destruct (scalar_predicate_verdicts (VStr "05") "guests" eq_refl)
    as (_ & Hcheck' & _ & _ & Hmatch' & _).
  rewrite Hcheck, Hmatch, Hcheck', Hmatch'. by repeat split.
Defined.

(** C9 (counterexample).  The two matchers disagree on a null predicate
    and on a boolean predicate. *)
Lemma matchers_disagree :
  passes (checkArgValue (VStr "Berlin") VNull "city") = Ok false
  /\ matchesArgValue (VStr "Berlin") VNull = Ok true
  /\ passes (checkArgValue (VStr "true") (VBool true) "flag") = Ok false
  /\ matchesArgValue (VStr "true") (VBool true) = Ok true.
Proof. repeat split; reflexivity. Qed.

(** C9 (witness): a Range read against numbers. *)
Lemma matchers_agree_on_a_range :
  passes (checkArgValue (VNum (Int 3))
            (VObj [("gte", VNum (Int 1)); ("lte", VNum (Int 5))]) "guests")
  = matchesArgValue (VNum (Int 3))
      (VObj [("gte", VNum (Int 1)); ("lte", VNum (Int 5))]).
Proof.
  apply matchers_agree_on_common_ground. simpl. repeat split; reflexivity.
Defined.

(** ** Mock Resolver *)

Definition search_call (text : string) : ToolCall :=
  {| id := "tc_1"; function := {| name := "search"; arguments := text |} |}.

Definition conditional (cs : list MockCondition) (d : option value)
  : MockDefinition :=
  {| mock_return := None; mock_error := None; conditions := Some cs;
     default_ := d |}.

(** A condition that names the pattern [(]. *)
Definition unterminated : MockCondition :=
  {| when := VObj [("q", VObj [("matches", VStr "(")])];
     cond_return := VStr "hit" |}.

(** A conditional rule whose only condition names the pattern [(]. *)
Definition unterminated_group : gmap string MockEntry :=
  {[ "search" := MockDef (conditional [unterminated] None) ]}.

(** C2 (counterexample).  The argument text does not parse, the
    arguments are taken to be empty, and the rule's pattern does not
    compile: [resolveMocks] raises. *)
Lemma resolveMocks_raises :
  throws (JSON_parse "oops")
  /\ resolveMocks [search_call "oops"] (Some unterminated_group)
     = Throw (SyntaxError "Invalid regular expression: /(/: Unterminated group").
Proof. split; [by eexists|]. vm_compute. reflexivity. Qed.

(** The argument text [null] parses, and reading a key of it raises. *)
Example null_arguments_raise :
  resolveMocks [search_call "null"] (Some unterminated_group)
  = Throw (TypeError "Cannot read properties of null (reading 'q')").
Proof. vm_compute. reflexivity. Qed.

(** A conditional rule as the parser builds it from an item [- when:]
    with nothing after the colon: the predicate-map is [null]. *)
Definition null_when : gmap string MockEntry :=
  {[ "search" :=
       MockDef (conditional [{| when := VNull; cond_return := VStr "hit" |}]
                            None) ]}.

(** Enumerating a predicate-map that is [null] raises. *)
Example null_predicate_map_raises :
  resolveMocks [search_call "{}"] (Some null_when)
  = Throw (TypeError "Cannot convert undefined or null to object").
Proof. vm_compute. reflexivity. Qed.

(** Three overlapping conditions on the destination. *)
Definition paris : MockCondition :=
  {| when := VObj [("destination", VObj [("contains", VStr "Paris")])];
     cond_return := VStr "paris" |}.
Definition mal : MockCondition :=
  {| when := VObj [("destination", VObj [("contains", VStr "Mal")])];
     cond_return := VStr "first" |}.
Definition maldives : MockCondition :=
  {| when := VObj [("destination", VObj [("matches", VStr "Maldives")])];
     cond_return := VStr "later" |}.




Definition by_destination : gmap string MockEntry :=
  {[ "search" := MockDef (conditional [paris; mal; maldives] (Some (VArr []))) ]}.

(** C2 (witness): with conditions that can be evaluated, an unparsable
    argument text resolves as the empty object does (here to the
    default). *)
Lemma unparsable_arguments_resolve_as_empty :
  resolveMocks [search_call "oops"] (Some by_destination)
  = Ok {[ "tc_1" := Some "[]" ]}
  /\ resolveMocks [search_call "{}"] (Some by_destination)
     = resolveMocks [search_call "oops"] (Some by_destination).
Proof.
  destruct (resolveMocks_total_when_conditions_evaluate
              [search_call "oops"] (Some by_destination))
    as (results & Hr & Hone & Hempty).
  - intros table toolName m [= <-] Hm. unfold by_destination in Hm.
    apply lookup_singleton_Some in Hm as [_ [= <-]].
    repeat constructor;
      (eexists; split; [reflexivity|]); repeat constructor; try discriminate.
    intros _. by eexists.
  - repeat constructor.
  - split.
    + destruct (Hone 0 (search_call "oops") eq_refl) as (content & Hcall & _).
      { intros [|j] later Hj Hl; [lia|discriminate]. }
      rewrite Hcall. vm_compute in Hcall. by injection Hcall as <-.
    + apply (Hempty (search_call "oops") (search_call "{}"));
        [by eexists|reflexivity|reflexivity|reflexivity].
Defined.
(** ** Conversation Executor *)

Definition reply (text : option string) (calls : option (list ToolCall))
  : ChatCompletionResponse :=
  {| choices := [{| choice_message :=
                      {| role := RAssistant; content := text;
                         msg_tool_calls := calls; tool_call_id := None |} |}];
     usage := None |}.

(** A model boundary that answers every call with one tool invocation. *)
Definition tool_caller : Boundaries :=
  {| callLLM := fun _ _ => Ok (reply None (Some [search_call "{}"]));
     fetchPrompt := fun _ => Throw (Error "offline") |}.

(** A model boundary that answers every call with the empty text. *)
Definition empty_texter : Boundaries :=
  {| callLLM := fun _ _ => Ok (reply (Some "") None);
     fetchPrompt := fun _ => Throw (Error "offline") |}.

(** A model boundary that answers its first call with a text and is
    unreachable afterwards. *)
Definition failing_second : Boundaries :=
  {| callLLM := fun turn _ =>
       match turn with
       | 1 => Ok (reply (Some "Sunny.") None)
       | _ => Throw (Error "LLM API error: 503 Service Unavailable")
       end;
     fetchPrompt := fun _ => Throw (Error "offline") |}.

Definition expects_text : StepExpectation :=
  {| tool_calls := None; tool_calls_not := None;
     response := Some {| contains := Some (One "12"); contains_any := None;
                         not_contains := None; matches := None;
                         min_length := None; max_length := None |} |}.

Definition ask (text : string) (m : option (gmap string MockEntry)) : TestStep :=
  {| user := Some text; expect := Some expects_text; mock := m; assert := None |}.

Definition two_turns : Config := {| promptman := false; max_turns := 2 |}.

(** C5 (counterexample).  The boundary returns tool invocations on every
    call and the maximum is two turns, but the step's mock rule names a
    pattern that does not compile: the loop makes one call and the test
    ends in a fault. *)
Lemma turn_loop_faults_in_mock_resolution :
  @always_tool_calls _ tool_caller
  /\ let run := @executeTest_run _ _ tool_caller
                  {| test_name := "weather"; system_prompt := Inline "Be brief.";
                     steps := [ask "Weather in Berlin?" (Some unterminated_group)] |}
                  two_turns "weather.test.yaml" in
     result_error (fst run)
     = Some "Invalid regular expression: /(/: Unterminated group"
     /\ result_steps (fst run) = []
     /\ totalTurns (snd run) = 1
     /\ llm_calls (events (snd run)) = 1.
Proof.
  split.
  - intros n ms. by repeat eexists.
  - vm_compute. by repeat split.
Qed.

(** C5 (witness): without a mock table the same boundary is called
    exactly twice and the step is recorded as failed. *)
Lemma two_turns_then_failing_outcome :
  exists s',
    @runStep _ _ tool_caller two_turns 0 (ask "Weather in Berlin?" None)
             initialState = Done tt s'
    /\ totalTurns s' = 2
    /\ llm_calls (events s') = 2
    /\ map (fun r => (map passed (assertions r), assistantResponse r))
           (stepResults s')
       = [([false], None)].
Proof.
  destruct (@turn_bound_is_silent _ _ tool_caller two_turns 0
              (ask "Weather in Berlin?" None)) as [_ Hstep].
  - intros n ms. by repeat eexists.
  - intros n ms completion choice rest calls [= <-] [= <- <-] [= <-].
    vm_compute. by eexists.
  - destruct (Hstep initialState expects_text _ eq_refl eq_refl)
      as (tcs & s' & _ & Hturns & Hcalls & Hout).
    simpl in Hout. destruct Hout as [Hrun Hres].
    exists s'. repeat split; [exact Hrun|exact Hturns|exact Hcalls|].
    by rewrite Hres.
Defined.

(** A model boundary that answers its first call with a tool invocation
    and every later call with the empty text. *)
Definition calls_then_empty : Boundaries :=
  {| callLLM := fun turn _ =>
       match turn with
       | 1 => Ok (reply None (Some [search_call "{}"]))
       | _ => Ok (reply (Some "") None)
       end;
     fetchPrompt := fun _ => Throw (Error "offline") |}.

(** What the runs below show of a recorded step: the Outcomes, the names
    of the invocations, the reply and the verdict. *)
Definition recorded (r : StepResult)
  : list (bool * string) * list string * option string * bool :=
  (map (fun o => (passed o, message o)) (assertions r),
   map (fun c => name (function c)) (toolCalls r),
   assistantResponse r, step_passed r).

(** C10 (witness): the boundary answers with the empty text, at once or
    after a tool turn; the step is recorded without a reply and with the
    one failing Outcome, and the transcript gets no assistant text. *)
Lemma empty_text_records_nothing :
  (exists s',
      @runStep _ _ empty_texter two_turns 0 (ask "Weather in Berlin?" None)
               initialState = Done tt s'
      /\ map (fun m => (role m, content m)) (messages s')
         = [(RUser, Some "Weather in Berlin?")]
      /\ map recorded (stepResults s')
         = [([(false, "Expected a text response but got none")], [], None,
             false)])
  /\ (exists s',
         @runStep _ _ calls_then_empty two_turns 0
                  (ask "Weather in Berlin?" None) initialState = Done tt s'
         /\ map role (messages s') = [RUser; RAssistant; RTool]
         /\ map recorded (stepResults s')
            = [([(false, "Expected a text response but got none")],
                ["search"], None, false)]).
Proof.
  split.
  - destruct (@empty_text_reply_is_no_reply _ _ empty_texter two_turns 0
                (ask "Weather in Berlin?" None) initialState 1 []
                (started 0 (ask "Weather in Berlin?" None) initialState)
                (reply (Some "") None) _ [] eq_refl eq_refl eq_refl
                (or_introl eq_refl) eq_refl)
      as (_ & s2 & _ & _ & _ & Hrun).
    change (evaluateStepAssertions (expect (ask "Weather in Berlin?" None))
                                   [] None)
      with (Ok [{| passed := false;
                   message := "Expected a text response but got none" |}])
      in Hrun.
    destruct Hrun as (s' & Hrun & Hm & Hs & _).
    exists s'. split; [exact Hrun|]. by rewrite Hm, Hs.
  - destruct (@handleReply_tool_turn _ _
                (@stepLoop _ _ calls_then_empty 1 0
                           (ask "Weather in Berlin?" None))
                0 (ask "Weather in Berlin?" None) []
                (reply None (Some [search_call "{}"])) _ []
                (search_call "{}") [] _
                (push_event (step_llm_call 0)
                   (incr_turns
                      (started 0 (ask "Weather in Berlin?" None) initialState)))
                eq_refl eq_refl eq_refl)
      as (s1 & Hturn & Hm1 & _ & _ & _ & Ht1 & _).
    destruct (@empty_text_reply_is_no_reply _ _ calls_then_empty two_turns 0
                (ask "Weather in Berlin?" None) initialState 0
                [search_call "{}"] s1
                (reply (Some "") None)
                {| choice_message :=
                     {| role := RAssistant; content := Some "";
                        msg_tool_calls := None; tool_call_id := None |} |} [])
      as (_ & s2 & _ & _ & _ & Hrun).
    + etrans; [apply (@stepLoop_turn _ _ calls_then_empty 1)|exact Hturn].
    + by rewrite Ht1.
    + reflexivity.
    + by left.
    + reflexivity.
    + change (evaluateStepAssertions (expect (ask "Weather in Berlin?" None))
                                     [search_call "{}"] None)
        with (Ok [{| passed := false;
                     message := "Expected a text response but got none" |}])
        in Hrun.
      destruct Hrun as (s' & Hrun & Hm & Hs & _).
      exists s'. split; [exact Hrun|]. by rewrite Hm, Hm1, Hs.
Defined.

(** The steps of Scenario C: the second step's call to the model
    boundary raises. *)
Definition first_step : TestStep :=
  {| user := Some "Weather in Berlin?"; expect := None; mock := None;
     assert := None |}.

Definition scenario_c : TestDefinition :=
  {| test_name := "scenario C"; system_prompt := Inline "Be brief.";
     steps := [first_step; ask "And tomorrow?" None] |}.

(** ** The repository's own tests, run on the embedding *)

Definition call (n : string) (text : string) (i : string) : ToolCall :=
  {| id := i; function := {| name := n; arguments := text |} |}.

Definition simple (v : value) : MockDefinition :=
  {| mock_return := Some v; mock_error := None; conditions := None;
     default_ := None |}.

(** [mocks.test.ts]: handles raw value as return. *)
Example raw_value_is_returned :
  (let* m := resolveMocks [call "get_time" "{}" "tc_1"]
               (Some {[ "get_time" := MockRaw (VStr "14:30") ]}) in
   Ok (m !! "tc_1"))
  = Ok (Some (Some "14:30")).
Proof. vm_compute. reflexivity. Qed.

(** [mocks.test.ts]: falls through to default in conditional mocks. *)
Example conditional_default :
  (let* m := resolveMocks
               [call "search" ("{" +:+ quote "destination" +:+ ":"
                               +:+ quote "Tokyo" +:+ "}") "tc_1"]
               (Some by_destination) in
   Ok (m !! "tc_1"))
  = Ok (Some (Some "[]")).
Proof. vm_compute. reflexivity. Qed.

(** [mocks.test.ts]: returns error mock; returns default for undefined mock. *)
Example error_and_unmocked :
  (let* m := resolveMocks [call "search" "{}" "tc_1"; call "other" "{}" "tc_2"]
               (Some {[ "search" :=
                          MockDef {| mock_return := None;
                                     mock_error := Some "Service unavailable";
                                     conditions := None; default_ := None |} ]}) in
   Ok (m !! "tc_1", m !! "tc_2"))
  = Ok (Some (Some ("{" +:+ quote "error" +:+ ":"
                    +:+ quote "Service unavailable" +:+ "}")),
        Some (Some ("{" +:+ quote "result" +:+ ":"
                    +:+ quote "Mock not defined for tool: other" +:+ "}"))).
Proof. vm_compute. reflexivity. Qed.

Definition expects_call (n : string) (a : list (string * value))
  : option StepExpectation :=
  Some {| tool_calls := Some [{| tc_name := n; args := Some a; count := None |}];
          tool_calls_not := None; response := None |}.

(** [assertions.test.ts]: checks numeric range; fails numeric range out
    of bounds; checks contains arg match. *)
Example argument_checks :
  let range := VObj [("gte", VNum (Int 1)); ("lte", VNum (Int 5))] in
  let verdicts e cs := let* rs := evaluateStepAssertions e cs None in
                       Ok (map passed rs) in
  verdicts (expects_call "search" [("guests", range)])
           [call "search" ("{" +:+ quote "guests" +:+ ":3}") "tc_1"]
  = Ok [true; true]
  /\ verdicts (expects_call "search" [("guests", range)])
              [call "search" ("{" +:+ quote "guests" +:+ ":10}") "tc_1"]
     = Ok [true; false]
  /\ verdicts (expects_call "search"
                 [("destination", VObj [("contains", VStr "Maldives")])])
              [call "search" ("{" +:+ quote "destination" +:+ ":"
                              +:+ quote "Maldives Islands" +:+ "}") "tc_1"]
     = Ok [true; true].
Proof. vm_compute. by repeat split. Qed.

Definition three_checks : StepExpectation :=
  {| tool_calls := None;
     tool_calls_not := Some [{| tc_name := "book"; args := None; count := None |}];
     response := Some {| contains := Some (Many ["12"; "guests"]);
                         contains_any := None; not_contains := None;
                         matches := Some "confirmed";
                         min_length := Some (Int 10); max_length := None |} |}.

(** C8 (witness): four response checks are declared and the reply is the
    empty text; after the Outcome of the forbidden call there is one
    failing Outcome, not four. *)
Lemma one_outcome_for_a_missing_reply :
  evaluateStepAssertions (Some three_checks) [search_call "{}"] (Some "")
  = Ok [{| passed := true; message := "Tool book was not called (correct)" |};
        {| passed := false; message := "Expected a text response but got none" |}].
Proof.
  destruct (response_outcome_without_reply three_checks [search_call "{}"]
                                           (Some "")) as [Hnone _].
  rewrite (Hnone _ eq_refl eq_refl). reflexivity.
Defined.

(** [assertions.test.ts]: fails when no response but response expected. *)
Example response_expected_but_none :
  evaluateStepAssertions (Some expects_text) [] None
  = Ok [fail "Expected a text response but got none"].
Proof. reflexivity. Qed.
End Runs.

(** * More concrete runs *)

Module MoreRuns.
Import Reference.
Import Runs.

(** ** Assertion Engine *)

(** The expectation that [search] is called with the query [a]. *)
Definition expects_query : ToolCallAssertion :=
  {| tc_name := "search"; args := Some [("q", VStr "a")]; count := None |}.



(** X4 (witness): the argument text [oops] gives the failing Outcome,
    the argument text [null] a fault. *)
Lemma unparsable_search_arguments :
  (exists counted,
      evaluateToolCallAssertion expects_query
        ([] ++ call "search" "oops" "tc_1" :: [])
      = Ok ({| passed := true; message := "Called search" |} :: counted
            ++ [{| passed := false;
                   message := "search: could not parse arguments as JSON" |}])
      /\ length counted = 0)
  /\ evaluateToolCallAssertion expects_query
       ([] ++ call "search" "null" "tc_1" :: [])
     = Throw (TypeError "Cannot read properties of null (reading 'q')").
Proof.
  split.
  - destruct (unparsable_arguments_fail_the_check expects_query
                (call "search" "oops" "tc_1") [] [] [("q", VStr "a")]
                eq_refl (proj1 (named_nil "search" []) eq_refl) eq_refl)
      as [Hsoft _].
    apply Hsoft. by eexists.
  - destruct (unparsable_arguments_fail_the_check expects_query
                (call "search" "null" "tc_1") [] [] [("q", VStr "a")]
                eq_refl (proj1 (named_nil "search" []) eq_refl) eq_refl)
      as [_ Hnull].
    apply (Hnull "q" (VStr "a") []); reflexivity.
Defined.

(** X5 (witness): the pattern [(] raises in both matchers; beside
    [not_contains] it raises in the Mock Resolver only, where [matches] is
    tested first. *)
Lemma unterminated_pattern_raises :
  throws (checkArgValue (VStr "abc") (VObj [("matches", VStr "(")]) "q")
  /\ throws (matchesArgValue (VStr "abc") (VObj [("matches", VStr "(")]))
  /\ ~ throws (checkArgValue (VStr "abc")
                 (VObj [("not_contains", VStr "b"); ("matches", VStr "(")]) "q")
  /\ throws (matchesArgValue (VStr "abc")
               (VObj [("not_contains", VStr "b"); ("matches", VStr "(")])).
Proof.
  destruct (matchers_raise_only_on_a_pattern
              (VStr "abc") (VObj [("matches", VStr "(")]) "q" eq_refl eq_refl)
    as [Hcheck Hmatch].
  destruct (matchers_raise_only_on_a_pattern
              (VStr "abc")
              (VObj [("not_contains", VStr "b"); ("matches", VStr "(")]) "q"
              eq_refl eq_refl)
    as [Hcheck' Hmatch'].
  split; [apply Hcheck; split; [reflexivity|by eexists]|].
  split; [apply Hmatch; split; [reflexivity|by eexists]|].
  split; [intros [Hcat _]%Hcheck'; discriminate Hcat|].
  apply Hmatch'. split; [reflexivity|by eexists].
Defined.


(** X8 (witness): a [details] call between [search] and [book]. *)
Lemma extra_call_keeps_the_order :
  order_verdict (order_only ["search"; "book"])
                (calls_named ["search"; "details"; "book"]) (Int 3) (Int 0)
  = Some true.
Proof.
  destruct (tool_order_tolerates_extra_calls
              (order_only ["search"; "book"]) ["search"; "book"] eq_refl)
    as [Hextra _].
  apply (Hextra (calls_named ["search"; "book"]) _ (Int 2) (Int 0));
    [|reflexivity].
  apply sublist_skip, sublist_cons, sublist_skip, sublist_nil.
Defined.

(** A response expectation with a needle, no alternative to choose from
    and an empty pattern. *)
Definition twelve_or_nothing : ResponseAssertion :=
  {| contains := Some (One "12"); contains_any := Some [];
     not_contains := None; matches := Some ""; min_length := None;
     max_length := None |}.

(** X30 (witness): an empty list of alternatives fails, an empty pattern
    is skipped. *)
Lemma empty_alternatives_never_pass :
  exists rs,
    evaluateResponseAssertion twelve_or_nothing "It is 12 degrees" = Ok rs
    /\ length rs = 2
    /\ forallb passed rs = false.
Proof.
  pose proof (response_expectation_is_a_conjunction twelve_or_nothing
                "It is 12 degrees") as H.
  destruct (evaluateResponseAssertion _ _) as [rs|e] eqn:E;
    [|vm_compute in E; discriminate E].
  destruct (H rs eq_refl) as [Hlen Hpass].
  exists rs. split; [reflexivity|]. split; [exact Hlen|].
  destruct (forallb passed rs); [|reflexivity].
  destruct (proj1 Hpass eq_refl) as (_ & Hany & _).
  discriminate (Hany [] eq_refl).
Defined.

(** ** Mock Resolver *)

(** X9 (witness): one invocation, one entry. *)
Lemma one_entry_per_call :
  exists results,
    resolveMocks [search_call "{}"] None = Ok results
    /\ (is_Some (results !! "tc_1") <-> "tc_1" ∈ map id [search_call "{}"]).
Proof.
  pose proof (resolveMocks_answers_exactly_the_calls [search_call "{}"] None)
    as H.
  destruct (resolveMocks [search_call "{}"] None) as [results|e] eqn:E.
  - exists results. split; [reflexivity|]. apply (H results eq_refl).
  - vm_compute in E. discriminate E.
Defined.

(** A table whose only rule returns a fixed text. *)
Definition fixed_answer : gmap string MockEntry :=
  {[ "search" := MockDef (simple (VStr "sunny")) ]}.

(** X10 (witness): the argument text [null], which a conditional rule would
    fault on, resolves like [{}]. *)
Lemma fixed_answer_whatever_the_arguments :
  returns (resolveMocks [search_call "null"] (Some fixed_answer))
  /\ resolveMocks [search_call "null"] (Some fixed_answer)
     = resolveMocks [search_call "{}"] (Some fixed_answer).
Proof.
  apply unconditional_rules_ignore_arguments; [|reflexivity].
  intros table toolName m [= <-] Hm. unfold fixed_answer in Hm.
  apply lookup_singleton_Some in Hm as [_ [= <-]]. right. by left.
Defined.

(** X11 (witness): the raw string [14:30] is not quoted. *)
Lemma raw_string_is_passed_as_is :
  exists results,
    resolveMocks [call "get_time" "{}" "tc_1"]
                 (Some {[ "get_time" := MockRaw (VStr "14:30") ]})
    = Ok results
    /\ results !! "tc_1" = Some (Some "14:30").
Proof.
  pose proof (payloads_of_direct_rules
                [call "get_time" "{}" "tc_1"]
                (Some {[ "get_time" := MockRaw (VStr "14:30") ]})) as H.
  destruct (resolveMocks _ _) as [results|e] eqn:E.
  - exists results. split; [reflexivity|].
    destruct (H results 0 (call "get_time" "{}" "tc_1") eq_refl eq_refl)
      as (_ & Hraw & _).
    + intros [|j] later Hj Hl; [lia|discriminate].
    + apply (Hraw (VStr "14:30")); [|reflexivity].
      change (({[ "get_time" := MockRaw (VStr "14:30") ]}
                : gmap string MockEntry) !! "get_time"
              = Some (MockRaw (VStr "14:30"))).
      apply lookup_singleton_eq.
  - vm_compute in E. discriminate E.
Defined.

(** ** Conversation Executor *)

(** A test whose second step only carries whole-test assertions. *)
Definition totals : TestDefinition :=
  {| test_name := "totals"; system_prompt := Inline "Be brief.";
     steps := [ first_step;
                {| user := None; expect := None; mock := None;
                   assert := Some {| tool_order := Some [];
                                     total_tool_calls :=
                                       Some {| gte := None; lte := None;
                                               equals := Some (Int 0) |};
                                     total_turns := None;
                                     total_tokens := None |} |} ] |}.

Local Notation "'totals_run'" :=
  (@executeTest_run _ _ failing_second totals two_turns "totals.test.yaml").

(** X14 (witness): the assertions of the second step see the one step that
    took part and no tool call. *)
Lemma totals_are_checked_at_the_end :
  map stepIndex (result_steps (fst totals_run)) = participants 0 (steps totals)
  /\ allToolCalls (snd totals_run)
     = concat (map toolCalls (result_steps (fst totals_run)))
  /\ result_globalAssertions (fst totals_run)
     = wholeTestOutcomes (steps totals)
         (concat (map toolCalls (result_steps (fst totals_run))))
         (num_of_nat (totalTurns (snd totals_run)))
         (totalTokens (fst totals_run)).
Proof.
  apply (@whole_test_assertions_see_the_whole_test _ _ failing_second
           totals two_turns "totals.test.yaml").
  vm_compute. reflexivity.
Defined.

(** The run itself: the step that took part, and the two whole-test
    Outcomes, on no tool call. *)
Example totals_outcomes :
  map stepIndex (result_steps (fst totals_run)) = [0]
  /\ map passed (result_globalAssertions (fst totals_run)) = [true; true].
Proof. vm_compute. by split. Qed.

(** X16 (witness): two turns allowed, one taken. *)
Lemma text_ends_the_step_at_once :
  exists s',
    @stepLoop _ _ failing_second 2 0 first_step [] initialState
    = Done ([], Some "Sunny.") s'
    /\ totalTurns s' = 1.
Proof.
  destruct (@text_reply_ends_the_step _ _ failing_second 1 0 first_step []
              initialState (reply (Some "Sunny.") None) _ [] "Sunny."
              eq_refl eq_refl (or_introl eq_refl) eq_refl)
    as (s' & Hloop & _ & _ & Hturn & _).
  exists s'. by split.
Defined.

(** A model boundary that answers every call with a text and one tool
    invocation. *)
Definition chatty_caller : Boundaries :=
  {| callLLM := fun _ _ =>
       Ok (reply (Some "Searching...") (Some [search_call "{}"]));
     fetchPrompt := fun _ => Throw (Error "offline") |}.

(** X17 (witness): the text [Searching...] that comes with an invocation
    is not the step's reply. *)
Lemma text_beside_calls_is_no_reply :
  exists s1,
    @stepLoop _ _ chatty_caller 1 0 first_step [] initialState
    = Done ([search_call "{}"], None) s1
    /\ totalTurns s1 = 1
    /\ length (messages s1) = 2.
Proof.
  pose proof (@tool_reply_continues_the_step _ _ chatty_caller 0 0 first_step []
                initialState
                (reply (Some "Searching...") (Some [search_call "{}"]))
                {| choice_message :=
                     {| role := RAssistant; content := Some "Searching...";
                        msg_tool_calls := Some [search_call "{}"];
                        tool_call_id := None |} |}
                [] (search_call "{}") []) as H.
  destruct (resolveMocks [search_call "{}"] (mock first_step)) as [m|e] eqn:E.
  - destruct (H m eq_refl eq_refl eq_refl eq_refl)
      as (s1 & _ & Hend & Hm & _ & Ht & _).
    exists s1. split; [by apply Hend|]. split; [done|]. by rewrite Hm.
  - vm_compute in E. discriminate E.
Defined.

(** X27 (witness): Scenario C, which ends in a fault. *)
Lemma scenario_c_starts_with_the_instruction :
  exists rest,
    messages (snd (@executeTest_run _ _ failing_second scenario_c two_turns
                                    "c.test.yaml"))
    = {| role := RSystem; content := Some "Be brief."; msg_tool_calls := None;
         tool_call_id := None |} :: rest
    /\ Forall (fun m => role m <> RSystem) rest.
Proof. apply transcript_starts_with_the_instruction. reflexivity. Defined.

(** ** Parser and utilities *)

(** X20 (witness): a time of day given directly, asked for with the
    argument text [null]. *)
Lemma time_of_day_is_returned_as_is :
  normalizeMock (VStr "14:30") = MockDefinition_value (returning (VStr "14:30"))
  /\ resolveMocks [call "get_time" "null" "tc_1"]
       (Some {[ "get_time" := MockDef (returning (VStr "14:30")) ]})
     = Ok {[ "tc_1" := Some "14:30" ]}.
Proof.
  apply (direct_values_resolve_verbatim (VStr "14:30")
           (call "get_time" "null" "tc_1")).
  reflexivity.
Defined.

(** An entry that declares both a return value and an error. *)
Definition error_and_return : list (string * @value ints) :=
  [("return", VNum (Int 1)); ("error", VStr "Service unavailable")].

(** X21 (witness): [return] comes first in the entry, [error] wins. *)
Lemma error_beside_return :
  normalizeMock (VObj error_and_return)
  = MockDefinition_value (failing "Service unavailable")
  /\ is_MockDefinition (failing "Service unavailable") = true
  /\ resolveMockDefinition (failing "Service unavailable") (VObj [])
     = Ok (VObj [("error", VStr "Service unavailable")]).
Proof.
  apply (error_key_wins_in_normalisation error_and_return (VObj []));
    reflexivity.
Defined.

(** The conditional mock of [parser.test.ts]. *)
Definition hello_or_default : list (@value ints) :=
  [ VObj [("when", VObj [("q", VObj [("contains", VStr "hello")])]);
          ("return", VArr [VNum (Int 1); VNum (Int 2); VNum (Int 3)])];
    VObj [("default", VObj [("return", VArr [])])] ].

(** X22 (witness): the conditional mock of the parser's test. *)
Lemma conditional_syntax_is_parsed :
  member (normalizeMock (VArr hello_or_default)) "conditions"
  = VArr [VObj [("when", VObj [("q", VObj [("contains", VStr "hello")])]);
                ("return", VArr [VNum (Int 1); VNum (Int 2); VNum (Int 3)])]]
  /\ member (normalizeMock (VArr hello_or_default)) "default"
     = VObj [("return", VArr [])].
Proof.
  destruct (conditional_array_keeps_when_items_in_order hello_or_default eq_refl)
    as (Hc & _ & _ & _ & Hd & _).
  split; [exact Hc|exact Hd].
Defined.




(** X24 (witness): a [provider] that is [null] against one that names a
    model. *)
Lemma null_provider_cannot_be_merged_into :
  throws (deepMerge (VObj [("provider", VNull)])
                    [("provider", VObj [("model", VStr "gpt-4o")])]).
Proof.
  destruct (deepMerge_faults_on_null_against_object
              [("provider", VNull)]
              [("provider", VObj [("model", VStr "gpt-4o")])]
              "provider" ("model", VStr "gpt-4o") [] eq_refl eq_refl)
    as [H _].
  exact H.
Defined.

(** ** Parser and runner, run on the embedding *)

(** A step that declares a mock table alone is accepted; one whose only
    member is an empty user text is rejected. *)
Example mock_only_step :
  validateStep (VObj [("mock", VObj [("search", VStr "sunny")])]) "t.yaml" 0
  = Ok (VObj [("user", VUndefined); ("expect", VUndefined);
              ("mock", VObj [("search", VObj [("return", VStr "sunny")])]);
              ("assert", VUndefined)])
  /\ validateStep (VObj [("user", VStr "")]) "t.yaml" 2
     = Throw (Error "[t.yaml] steps[2] must have at least one of: user, expect, assert").
Proof. split; reflexivity. Qed.

(** X28 (witness): a step that declares nothing but a mock table, with
    an error entry. *)
Lemma mock_table_alone_is_a_step :
  returns (validateStep
             (VObj [("mock", VObj [("search", VObj [("error", VStr "down")])])])
             "t.yaml" 0).
Proof.
  destruct (validateStep_accepts_any_declared_part
              (VObj [("mock", VObj [("search", VObj [("error", VStr "down")])])])
              "t.yaml" 0 eq_refl) as [Haccepts _].
  apply Haccepts. split; reflexivity.
Defined.

(** A file system with one readable file, whose text the YAML library
    reads as [doc]. *)
Definition one_file (doc : @value ints) : Files :=
  {| readFileSync := fun _ => Ok "name: Test";
     parseYaml := fun _ => Ok doc |}.

(** A document with one step, which mocks a failing tool. *)
Definition one_step_document : @value ints :=
  VObj [("name", VStr "Test"); ("system_prompt", VStr "test");
        ("steps",
         VArr [VObj [("user", VStr "Weather in Berlin?");
                     ("mock", VObj [("search", VObj [("error", VStr "down")])])]])].

(** X29 (witness): the document is accepted, with its one step. *)
Lemma one_step_document_is_parsed :
  exists doc steps,
    @parseTestFile _ _ (one_file one_step_document) "t.yaml" = Ok doc
    /\ member doc "steps" = VArr steps
    /\ length steps = 1.
Proof.
  destruct (@parsed_tests_are_well_formed _ _ (one_file one_step_document)
              "t.yaml") as (_ & _ & Haccepted).
  { intros content raw rawSteps _ [= <-] [= <-]. by repeat constructor. }
  destruct (@parseTestFile _ _ (one_file one_step_document) "t.yaml")
    as [doc|e] eqn:Hparse; [|vm_compute in Hparse; discriminate Hparse].
  destruct (Haccepted doc eq_refl)
    as (content & raw & rawSteps & steps & _ & [= <-] & _ & _ & _ & [= <-]
        & _ & Hsteps & Hlen & _).
  exists doc, steps. split; [reflexivity|]. by split.
Defined.

(** [parser.test.ts]: a document without steps is rejected. *)
Example steps_are_required :
  @parseTestFile _ _ (one_file (VObj [("name", VStr "Test");
                                      ("system_prompt", VStr "test")]))
                 "t.yaml"
  = Throw (Error ("[t.yaml] " +:+ quote "steps"
                  +:+ " is required and must be a non-empty array")).
Proof. reflexivity. Qed.

(** Scenario C run by the runner: one Result, counted as an error, and
    the exit status 1. *)
Example scenario_c_exits_with_1 :
  let results := executeAll (fun _ => failing_second) true two_turns 0
                            [("c.test.yaml", scenario_c)] in
  summary results
  = {| tests_passed := 0; tests_failed := 0; tests_total := 1;
       tests_errors := 1 |}
  /\ exitCode results = 1.
Proof. vm_compute. by split. Qed.
End MoreRuns.
